(** * xterm-react: the lifecycle of the [Xterm] component

    A shallow embedding of [src/Xterm.tsx].  The component owns one xterm.js
    [Terminal], created and torn down by a [useEffect] keyed on the [options]
    prop, twelve [useBind] effects keyed on their handler prop, and a last
    effect keyed on [xtermRef.current] that reports the instance to [onInit].

    The file has three layers:
    - the calls into xterm.js and into the caller's callbacks, recorded as a
      trace of [Event]s by a small state/trace/exception monad [M];
    - React's commit of passive effects (dependency comparison with
      [Object.is], every cleanup of a changed effect before any new effect
      body, declaration order), as React 18 runs them;
    - the component itself, effect by effect, as the source writes it. *)

From Stdlib Require Import List Arith Bool Lia PeanoNat.
From Stdlib Require String Ascii.
Import ListNotations.
Import String.StringSyntax.

Set Implicit Arguments.

(** ** Values that cross the component's boundary *)

(** Objects are compared by identity only, so each is a number. *)
Definition Term := nat.    (* a [Terminal] instance *)
Definition Div := nat.     (* the container [HTMLDivElement] *)
Definition Opts := nat.    (* an [ITerminalOptions] object *)
Definition Addon := nat.   (* an [ITerminalAddon] object *)
Definition Fn := nat.      (* a function object *)
Definition Err := nat.     (* a thrown value *)

(** A prop as JavaScript sees it: [typeof v === 'function'] holds of [JFun]
    only, and [JUndefined] and [JNull] are the falsy ones. *)
Inductive JsVal : Type :=
| JUndefined
| JNull
| JFun (f : Fn)
| JObj (o : nat).

Definition isFunction (v : JsVal) : bool :=
  match v with JFun _ => true | _ => false end.

Definition truthy (v : JsVal) : bool :=
  match v with JUndefined | JNull => false | _ => true end.

(** The [eventName] parameter of [useBind]. *)
Inductive EventName : Type :=
| OnBell | OnBinary | OnCursorMove | OnData | OnKey | OnLineFeed
| OnRender | OnResize | OnScroll | OnSelectionChange | OnTitleChange
| OnWriteParsed.

(** The [IDisposable] that [term[eventName](handler)] returns. *)
Record Binding : Type := mkBinding {
  b_id : nat;
  b_term : Term;
  b_event : EventName;
  b_handler : Fn
}.

Record Props : Type := mkProps {
  options : option Opts;
  addons : option (list Addon);
  onBell : JsVal;
  onBinary : JsVal;
  onCursorMove : JsVal;
  onData : JsVal;
  onKey : JsVal;
  onLineFeed : JsVal;
  onRender : JsVal;
  onResize : JsVal;
  onScroll : JsVal;
  onSelectionChange : JsVal;
  onTitleChange : JsVal;
  onWriteParsed : JsVal;
  customKeyEventHandler : JsVal;
  onInit : JsVal;
  onDispose : JsVal
}.

(** The handler prop that the component passes to [useBind] for an event. *)
Definition handlerOf (p : Props) (ev : EventName) : JsVal :=
  match ev with
  | OnBell => onBell p
  | OnBinary => onBinary p
  | OnCursorMove => onCursorMove p
  | OnData => onData p
  | OnKey => onKey p
  | OnLineFeed => onLineFeed p
  | OnRender => onRender p
  | OnResize => onResize p
  | OnScroll => onScroll p
  | OnSelectionChange => onSelectionChange p
  | OnTitleChange => onTitleChange p
  | OnWriteParsed => onWriteParsed p
  end.

(** The twelve [useBind] calls, in the order the component makes them. *)
Definition eventNames : list EventName :=
  [OnBell; OnBinary; OnCursorMove; OnData; OnKey; OnLineFeed; OnRender;
   OnResize; OnScroll; OnSelectionChange; OnTitleChange; OnWriteParsed].

(** ** Observable calls *)

Inductive Event : Type :=
| ENew (t : Term) (o : option Opts)        (* [new Terminal(options)] *)
| ELoadAddon (t : Term) (a : Addon)        (* [xterm.loadAddon(addon)] *)
| EAttachKey (t : Term) (h : JsVal)        (* [xterm.attachCustomKeyEventHandler(h)] *)
| EOpen (t : Term) (d : Div)               (* [xterm.open(div)] *)
| ESubscribe (b : Binding)                 (* [term[eventName](handler)], returning [b] *)
| EUnsubscribe (b : Binding)               (* [eventBinding.dispose()] *)
| EOnInit (f : Fn) (arg : option Term)     (* [onInit(xtermRef.current)] *)
| EOnDispose (f : Fn) (t : Term)           (* [onDispose(xterm)] *)
| EDispose (t : Term)                      (* [xterm.dispose()] *)
| ELog (e : Err).                          (* [console.log(e)] *)

(** ** Decidable identity ([Object.is]) *)

Definition JsVal_eq_dec (a b : JsVal) : {a = b} + {a <> b}.
Proof. decide equality; apply Nat.eq_dec. Defined.

Definition EventName_eq_dec (a b : EventName) : {a = b} + {a <> b}.
Proof. decide equality. Defined.

Definition optnat_eq_dec (a b : option nat) : {a = b} + {a <> b}.
Proof. decide equality; apply Nat.eq_dec. Defined.

(** An entry of a dependency array. *)
Inductive Dep : Type :=
| DOptions (o : option Opts)
| DValue (v : JsVal)
| DTerminal (t : option Term).

Definition Dep_eq_dec (a b : Dep) : {a = b} + {a <> b}.
Proof.
  decide equality; first [apply optnat_eq_dec | apply JsVal_eq_dec].
Defined.

(** ** The component's mutable cells and the effect monad *)

(** [divRef.current] and [xtermRef.current], with the two allocation counters
    that give fresh identities to terminals and bindings. *)
Record Heap : Type := mkHeap {
  divRef : option Div;
  xtermRef : option Term;
  nextTerm : nat;
  nextBinding : nat
}.

Inductive Res (A : Type) : Type :=
| Ok (a : A)
| Throw (e : Err).
Arguments Throw {A} e.

(** The outcome of a computation: the calls it made, the heap it left, and its
    value or the exception that cut it short. *)
Record Out (A : Type) : Type := mkOut {
  out_trace : list Event;
  out_heap : Heap;
  out_res : Res A
}.

Definition M (A : Type) : Type := Heap -> Out A.

Definition ret {A} (a : A) : M A := fun h => mkOut [] h (Ok a).

(** [prepend t o]: outcome [o] reached after the calls [t]. *)
Definition prepend {A} (t : list Event) (o : Out A) : Out A :=
  mkOut (t ++ out_trace o) (out_heap o) (out_res o).

Definition bind {A B} (m : M A) (k : A -> M B) : M B :=
  fun h =>
    let o := m h in
    match out_res o with
    | Ok a => prepend (out_trace o) (k a (out_heap o))
    | Throw e => mkOut (out_trace o) (out_heap o) (Throw e)
    end.

(** [try { m } catch (e) { handler e }] *)
Definition try_catch {A} (m : M A) (handler : Err -> M A) : M A :=
  fun h =>
    let o := m h in
    match out_res o with
    | Ok a => o
    | Throw e => prepend (out_trace o) (handler e (out_heap o))
    end.

Declare Scope m_scope.
Delimit Scope m_scope with M.
Notation "x <- m ;; k" := (bind m (fun x => k))
  (at level 61, m at next level, right associativity) : m_scope.
Notation "m ;; k" := (bind m (fun _ => k))
  (at level 61, right associativity) : m_scope.
Open Scope m_scope.

Definition emit (e : Event) : M unit := fun h => mkOut [e] h (Ok tt).
Definition throw {A} (e : Err) : M A := fun h => mkOut [] h (Throw e).

Definition getDivRef : M (option Div) := fun h => mkOut [] h (Ok (divRef h)).
Definition getXtermRef : M (option Term) := fun h => mkOut [] h (Ok (xtermRef h)).
Definition setDivRef (d : option Div) : M unit :=
  fun h => mkOut [] (mkHeap d (xtermRef h) (nextTerm h) (nextBinding h)) (Ok tt).
Definition setXtermRef (t : option Term) : M unit :=
  fun h => mkOut [] (mkHeap (divRef h) t (nextTerm h) (nextBinding h)) (Ok tt).

(** [list.forEach(f)] *)
Fixpoint forEach {A} (l : list A) (f : A -> M unit) : M unit :=
  match l with
  | [] => ret tt
  | a :: l' => f a ;; forEach l' f
  end.

(** ** The xterm.js calls the component makes

    What the library does inside is out of scope; the model records each call
    and, for the two calls the adapter's error policy speaks of, lets the
    environment decide whether the call throws. *)
Record Env : Type := mkEnv {
  load_throws : Term -> Addon -> option Err;   (* [loadAddon] raising *)
  dispose_throws : Term -> option Err          (* [dispose] raising *)
}.

Section Model.

Variable env : Env.

Definition newTerminal (o : option Opts) : M Term :=
  fun h =>
    mkOut [ENew (nextTerm h) o]
          (mkHeap (divRef h) (xtermRef h) (S (nextTerm h)) (nextBinding h))
          (Ok (nextTerm h)).

Definition loadAddon (xterm : Term) (a : Addon) : M unit :=
  emit (ELoadAddon xterm a) ;;
  match load_throws env xterm a with
  | Some e => throw e
  | None => ret tt
  end.

Definition attachCustomKeyEventHandler (xterm : Term) (h : JsVal) : M unit :=
  emit (EAttachKey xterm h).

Definition open (xterm : Term) (d : Div) : M unit := emit (EOpen xterm d).

Definition dispose (xterm : Term) : M unit :=
  emit (EDispose xterm) ;;
  match dispose_throws env xterm with
  | Some e => throw e
  | None => ret tt
  end.

Definition consoleLog (e : Err) : M unit := emit (ELog e).

(** [term[eventName](handler)]: registers the listener and returns a fresh
    disposable. *)
Definition subscribe (term : Term) (ev : EventName) (handler : Fn)
  : M (option Binding) :=
  fun h =>
    let b := mkBinding (nextBinding h) term ev handler in
    mkOut [ESubscribe b]
          (mkHeap (divRef h) (xtermRef h) (nextTerm h) (S (nextBinding h)))
          (Ok (Some b)).

Definition disposeBinding (b : Binding) : M unit := emit (EUnsubscribe b).

(** ** React's effect hooks *)

(** What [useEffect(create, deps)] hands to React in one render. *)
Record EffectDecl : Type := mkEffect {
  eff_create : M (option (M unit));
  eff_deps : list Dep
}.

(** What React keeps for a hook between renders: the dependency array of the
    last render and the cleanup the last run of the effect returned. *)
Record HookState : Type := mkHook {
  hs_deps : list Dep;
  hs_destroy : option (M unit)
}.

Definition Fiber : Type := list HookState.

Definition areHookInputsEqual (next prev : list Dep) : bool :=
  if list_eq_dec Dep_eq_dec next prev then true else false.

Definition runDestroy (d : option (M unit)) : M unit :=
  match d with
  | Some cleanup => cleanup
  | None => ret tt
  end.

(** First commit: every effect body runs, in declaration order. *)
Fixpoint commitMount (ds : list EffectDecl) : M Fiber :=
  match ds with
  | [] => ret []
  | d :: ds' =>
      destroy <- eff_create d ;;
      rest <- commitMount ds' ;;
      ret (mkHook (eff_deps d) destroy :: rest)
  end.

(** Later commits, first pass: the cleanup of every effect whose dependencies
    changed, in declaration order. *)
Fixpoint commitUnmountChanged (hs : Fiber) (ds : list EffectDecl) : M unit :=
  match hs, ds with
  | h :: hs', d :: ds' =>
      (if areHookInputsEqual (eff_deps d) (hs_deps h) then ret tt
       else runDestroy (hs_destroy h)) ;;
      commitUnmountChanged hs' ds'
  | _, _ => ret tt
  end.

(** Later commits, second pass: the body of every effect whose dependencies
    changed, in declaration order; an unchanged effect keeps its cleanup. *)
Fixpoint commitMountChanged (hs : Fiber) (ds : list EffectDecl) : M Fiber :=
  match hs, ds with
  | h :: hs', d :: ds' =>
      h1 <- (if areHookInputsEqual (eff_deps d) (hs_deps h)
             then ret (mkHook (eff_deps d) (hs_destroy h))
             else destroy <- eff_create d ;; ret (mkHook (eff_deps d) destroy)) ;;
      rest <- commitMountChanged hs' ds' ;;
      ret (h1 :: rest)
  | _, _ => ret []
  end.

(** Removal from the tree: every cleanup, in declaration order. *)
Fixpoint commitUnmountAll (hs : Fiber) : M unit :=
  match hs with
  | [] => ret tt
  | h :: hs' => runDestroy (hs_destroy h) ;; commitUnmountAll hs'
  end.

(** ** The component *)

(** The cleanup returned by the first effect of [Xterm]; [onDispose] and
    [xterm] are the variables its closure captured. *)
Definition terminalCleanup (onDispose : JsVal) (xterm : Term) : M unit :=
  (match onDispose with
   | JFun f => emit (EOnDispose f xterm)
   | _ => ret tt
   end) ;;
  try_catch (dispose xterm) (fun e => consoleLog e) ;;
  setXtermRef None.

(** The first effect of [Xterm], with dependencies [[options]]. *)
Definition terminalEffect (p : Props) : M (option (M unit)) :=
  div <- getDivRef ;;
  match div with
  | None => ret None
  | Some d =>
      xterm <- newTerminal (options p) ;;
      (match addons p with
       | Some l => forEach l (fun addon => loadAddon xterm addon)
       | None => ret tt
       end) ;;
      (if truthy (customKeyEventHandler p)
       then attachCustomKeyEventHandler xterm (customKeyEventHandler p)
       else ret tt) ;;
      setXtermRef (Some xterm) ;;
      open xterm d ;;
      ret (Some (terminalCleanup (onDispose p) xterm))
  end.

(** The cleanup returned by the effect of [useBind]. *)
Definition bindCleanup (eventBinding : option Binding) : M unit :=
  match eventBinding with
  | None => ret tt
  | Some b => disposeBinding b
  end.

(** The effect of [useBind], with dependencies [[handler]]. *)
Definition bindEffect (handler : JsVal) (eventName : EventName)
  : M (option (M unit)) :=
  cur <- getXtermRef ;;
  match cur, handler with
  | Some term, JFun f =>
      eventBinding <- subscribe term eventName f ;;
      ret (Some (bindCleanup eventBinding))
  | _, _ => ret None
  end.

Definition useBind (handler : JsVal) (eventName : EventName) : EffectDecl :=
  mkEffect (bindEffect handler eventName) [DValue handler].

(** The last effect of [Xterm], with dependencies [[xtermRef.current]]. *)
Definition initEffect (p : Props) : M (option (M unit)) :=
  cur <- getXtermRef ;;
  match cur with
  | None => ret None
  | Some _ =>
      match onInit p with
      | JFun f =>
          arg <- getXtermRef ;;
          emit (EOnInit f arg) ;;
          ret None
      | _ => ret None
      end
  end.

(** One render of [Xterm]: the effects it declares.  The dependency array of
    the last one reads [xtermRef.current] while rendering. *)
Definition Xterm (p : Props) : M (list EffectDecl) :=
  cur <- getXtermRef ;;
  ret [ mkEffect (terminalEffect p) [DOptions (options p)];
        useBind (onBell p) OnBell;
        useBind (onBinary p) OnBinary;
        useBind (onCursorMove p) OnCursorMove;
        useBind (onData p) OnData;
        useBind (onKey p) OnKey;
        useBind (onLineFeed p) OnLineFeed;
        useBind (onRender p) OnRender;
        useBind (onResize p) OnResize;
        useBind (onScroll p) OnScroll;
        useBind (onSelectionChange p) OnSelectionChange;
        useBind (onTitleChange p) OnTitleChange;
        useBind (onWriteParsed p) OnWriteParsed;
        mkEffect (initEffect p) [DTerminal cur] ].

(** ** The component's life *)

(** Mounting: both [useRef(null)] cells start empty, the component renders,
    React attaches the container to [divRef] and then runs the effects. *)
Definition mount (d : Div) (p : Props) : M Fiber :=
  setDivRef None ;;
  setXtermRef None ;;
  ds <- Xterm p ;;
  setDivRef (Some d) ;;
  commitMount ds.

(** A re-render with props [p]. *)
Definition update (p : Props) (fiber : Fiber) : M Fiber :=
  ds <- Xterm p ;;
  commitUnmountChanged fiber ds ;;
  commitMountChanged fiber ds.

(** Unmounting: React detaches the container ref and runs every cleanup. *)
Definition unmount (fiber : Fiber) : M unit :=
  setDivRef None ;;
  commitUnmountAll fiber.

Fixpoint updates (ps : list Props) (fiber : Fiber) : M Fiber :=
  match ps with
  | [] => ret fiber
  | p :: ps' => fiber' <- update p fiber ;; updates ps' fiber'
  end.

(** A mount followed by the re-renders [ps]. *)
Definition mounted (d : Div) (p0 : Props) (ps : list Props) : M Fiber :=
  fiber <- mount d p0 ;; updates ps fiber.

(** A whole life: mount, re-renders, unmount.  When a commit throws, the
    computation stops at the throw; what React does then is described by
    [mountOrUnmount] and [updateOrUnmount] below. *)
Definition lifecycle (d : Div) (p0 : Props) (ps : list Props) : M unit :=
  fiber <- mounted d p0 ps ;; unmount fiber.

End Model.

(** ** Sample inputs *)

Definition quietEnv : Env := mkEnv (fun _ _ => None) (fun _ => None).

Definition noProps : Props :=
  mkProps None None JUndefined JUndefined JUndefined JUndefined JUndefined
          JUndefined JUndefined JUndefined JUndefined JUndefined JUndefined
          JUndefined JUndefined JUndefined JUndefined.

Definition heap0 : Heap := mkHeap None None 0 0.

Definition withOptions (o : option Opts) (p : Props) : Props :=
  mkProps o (addons p) (onBell p) (onBinary p) (onCursorMove p) (onData p)
          (onKey p) (onLineFeed p) (onRender p) (onResize p) (onScroll p)
          (onSelectionChange p) (onTitleChange p) (onWriteParsed p)
          (customKeyEventHandler p) (onInit p) (onDispose p).

Definition withAddons (l : option (list Addon)) (p : Props) : Props :=
  mkProps (options p) l (onBell p) (onBinary p) (onCursorMove p) (onData p)
          (onKey p) (onLineFeed p) (onRender p) (onResize p) (onScroll p)
          (onSelectionChange p) (onTitleChange p) (onWriteParsed p)
          (customKeyEventHandler p) (onInit p) (onDispose p).

Definition withOnData (v : JsVal) (p : Props) : Props :=
  mkProps (options p) (addons p) (onBell p) (onBinary p) (onCursorMove p) v
          (onKey p) (onLineFeed p) (onRender p) (onResize p) (onScroll p)
          (onSelectionChange p) (onTitleChange p) (onWriteParsed p)
          (customKeyEventHandler p) (onInit p) (onDispose p).

Definition withCustomKeyEventHandler (v : JsVal) (p : Props) : Props :=
  mkProps (options p) (addons p) (onBell p) (onBinary p) (onCursorMove p)
          (onData p) (onKey p) (onLineFeed p) (onRender p) (onResize p)
          (onScroll p) (onSelectionChange p) (onTitleChange p)
          (onWriteParsed p) v (onInit p) (onDispose p).

Definition withOnInit (v : JsVal) (p : Props) : Props :=
  mkProps (options p) (addons p) (onBell p) (onBinary p) (onCursorMove p)
          (onData p) (onKey p) (onLineFeed p) (onRender p) (onResize p)
          (onScroll p) (onSelectionChange p) (onTitleChange p)
          (onWriteParsed p) (customKeyEventHandler p) v (onDispose p).

Definition withOnDispose (v : JsVal) (p : Props) : Props :=
  mkProps (options p) (addons p) (onBell p) (onBinary p) (onCursorMove p)
          (onData p) (onKey p) (onLineFeed p) (onRender p) (onResize p)
          (onScroll p) (onSelectionChange p) (onTitleChange p)
          (onWriteParsed p) (customKeyEventHandler p) (onInit p) v.

(** The props of the README's echo example: [onInit], [onDispose], [onData]. *)
Definition echoProps : Props :=
  withOnData (JFun 3) (withOnDispose (JFun 2) (withOnInit (JFun 1) noProps)).

(** An environment in which every [dispose] throws the value [9]. *)
Definition failingDispose : Env := mkEnv (fun _ _ => None) (fun _ => Some 9).

(** ** Reading a trace *)

(** The bindings created, and the bindings disposed, in the order of the calls. *)
Fixpoint subscribed (tr : list Event) : list Binding :=
  match tr with
  | [] => []
  | ESubscribe b :: tr' => b :: subscribed tr'
  | _ :: tr' => subscribed tr'
  end.

Fixpoint unsubscribed (tr : list Event) : list Binding :=
  match tr with
  | [] => []
  | EUnsubscribe b :: tr' => b :: unsubscribed tr'
  | _ :: tr' => unsubscribed tr'
  end.

(** The calls that create or dispose a binding of the event [ev]. *)
Definition concerns (ev : EventName) (e : Event) : bool :=
  match e with
  | ESubscribe b | EUnsubscribe b =>
      if EventName_eq_dec (b_event b) ev then true else false
  | _ => false
  end.

Definition bindingCalls (ev : EventName) (tr : list Event) : list Event :=
  filter (concerns ev) tr.

Definition isLoad (e : Event) : bool :=
  match e with ELoadAddon _ _ => true | _ => false end.

Definition isOnInit (e : Event) : bool :=
  match e with EOnInit _ _ => true | _ => false end.

Definition isOnDispose (e : Event) : bool :=
  match e with EOnDispose _ _ => true | _ => false end.

Definition isDispose (e : Event) : bool :=
  match e with EDispose _ => true | _ => false end.

Definition isAttachKey (e : Event) : bool :=
  match e with EAttachKey _ _ => true | _ => false end.

Definition isNew (e : Event) : bool :=
  match e with ENew _ _ => true | _ => false end.

(** ** What the hooks of a mounted [Xterm] hold

    The state of a [useBind] hook is its last handler and the binding its
    cleanup will dispose; the state of the whole component is the terminal
    its first cleanup captured, with the [onDispose] of that render, the
    twelve slots, and the last dependency of the [onInit] effect. *)

Record Slot : Type := mkSlot {
  sl_handler : JsVal;
  sl_binding : option Binding
}.

Definition slotHook (s : Slot) : HookState :=
  mkHook [DValue (sl_handler s)]
         (match sl_binding s with
          | Some b => Some (bindCleanup (Some b))
          | None => None
          end).

Record Shape : Type := mkShape {
  sh_options : option Opts;
  sh_onDispose : JsVal;
  sh_term : Term;
  sh_slots : list Slot;
  sh_initDep : option Term
}.

Definition fiberOf (env : Env) (s : Shape) : Fiber :=
  mkHook [DOptions (sh_options s)]
         (Some (terminalCleanup env (sh_onDispose s) (sh_term s)))
  :: map slotHook (sh_slots s)
  ++ [mkHook [DTerminal (sh_initDep s)] None].

Definition bindDecls (hn : EventName -> JsVal) (evs : list EventName)
  : list EffectDecl :=
  map (fun ev => useBind (hn ev) ev) evs.

(** The calls of one [useBind] cleanup pass and effect pass, slot by slot. *)
Definition slotUnsub (s : Slot) (v : JsVal) : list Event :=
  if JsVal_eq_dec v (sl_handler s) then []
  else match sl_binding s with
       | Some b => [EUnsubscribe b]
       | None => []
       end.

Fixpoint slotsUnsub (slots : list Slot) (hn : EventName -> JsVal)
  (evs : list EventName) : list Event :=
  match slots, evs with
  | s :: slots', ev :: evs' => slotUnsub s (hn ev) ++ slotsUnsub slots' hn evs'
  | _, _ => []
  end.

(** A [useBind] effect body run with [xtermRef.current = cur] and handler [v]:
    its calls, the binding counter it leaves, and the slot it leaves. *)
Definition slotBind (cur : option Term) (nb : nat) (ev : EventName) (v : JsVal)
  : list Event * nat * Slot :=
  match cur, v with
  | Some t, JFun f =>
      let b := mkBinding nb t ev f in
      ([ESubscribe b], S nb, mkSlot v (Some b))
  | _, _ => ([], nb, mkSlot v None)
  end.

Definition slotRebind (cur : option Term) (nb : nat) (s : Slot)
  (ev : EventName) (v : JsVal) : list Event * nat * Slot :=
  if JsVal_eq_dec v (sl_handler s) then ([], nb, mkSlot v (sl_binding s))
  else slotBind cur nb ev v.

Fixpoint slotsBind (cur : option Term) (nb : nat) (hn : EventName -> JsVal)
  (evs : list EventName) : list Event * nat * list Slot :=
  match evs with
  | [] => ([], nb, [])
  | ev :: evs' =>
      let '(t1, nb1, s1) := slotBind cur nb ev (hn ev) in
      let '(t2, nb2, ss) := slotsBind cur nb1 hn evs' in
      (t1 ++ t2, nb2, s1 :: ss)
  end.

Fixpoint slotsRebind (cur : option Term) (nb : nat) (slots : list Slot)
  (hn : EventName -> JsVal) (evs : list EventName)
  : list Event * nat * list Slot :=
  match slots, evs with
  | s :: slots', ev :: evs' =>
      let '(t1, nb1, s1) := slotRebind cur nb s ev (hn ev) in
      let '(t2, nb2, ss) := slotsRebind cur nb1 slots' hn evs' in
      (t1 ++ t2, nb2, s1 :: ss)
  | _, _ => ([], nb, [])
  end.

(** The calls of [terminalCleanup]. *)
Definition onDisposeCall (od : JsVal) (x : Term) : list Event :=
  match od with
  | JFun f => [EOnDispose f x]
  | _ => []
  end.

Definition disposeCalls (env : Env) (x : Term) : list Event :=
  EDispose x ::
  match dispose_throws env x with
  | Some e => [ELog e]
  | None => []
  end.

Definition teardownCalls (env : Env) (od : JsVal) (x : Term) : list Event :=
  onDisposeCall od x ++ disposeCalls env x.

(** The calls of [terminalEffect]. *)
Definition addonList (p : Props) : list Addon :=
  match addons p with
  | Some l => l
  | None => []
  end.

(** The first addon of [l] whose load throws, with the addons before it. *)
Fixpoint firstFailure (env : Env) (x : Term) (l : list Addon)
  : option (list Addon * Addon * Err) :=
  match l with
  | [] => None
  | a :: l' =>
      match load_throws env x a with
      | Some e => Some ([], a, e)
      | None =>
          match firstFailure env x l' with
          | Some (pre, b, e) => Some (a :: pre, b, e)
          | None => None
          end
      end
  end.

Definition attachCalls (x : Term) (k : JsVal) : list Event :=
  if truthy k then [EAttachKey x k] else [].

Definition constructCalls (x : Term) (d : Div) (p : Props) : list Event :=
  ENew x (options p) :: map (ELoadAddon x) (addonList p)
  ++ attachCalls x (customKeyEventHandler p) ++ [EOpen x d].

(** The calls of [initEffect]. *)
Definition initCalls (cur : option Term) (oi : JsVal) : list Event :=
  match cur, oi with
  | Some x, JFun f => [EOnInit f (Some x)]
  | _, _ => []
  end.

(** The props whose render constructed the live instance: those of the last
    render that changed the identity of [options], or else those of the
    render that constructed it before. *)
Fixpoint constructing (c : Props) (ps : list Props) : Props :=
  match ps with
  | [] => c
  | p :: ps' =>
      constructing (if optnat_eq_dec (options p) (options c) then c else p) ps'
  end.

Unset Implicit Arguments.

(** ** Notions the proofs use *)

Definition openCall (ob : option Binding) : list Event :=
  match ob with
  | Some b => [ESubscribe b]
  | None => []
  end.

Definition closeCall (ob : option Binding) : list Event :=
  match ob with
  | Some b => [EUnsubscribe b]
  | None => []
  end.

Definition allUnsub (slots : list Slot) : list Event :=
  flat_map (fun s => closeCall (sl_binding s)) slots.

Definition withNextBinding (nb : nat) (h : Heap) : Heap :=
  mkHeap (divRef h) (xtermRef h) (nextTerm h) nb.

(** The slot of the event [ev]. *)
Fixpoint slotOf (ev : EventName) (slots : list Slot) (evs : list EventName)
  : Slot :=
  match slots, evs with
  | s :: slots', e :: evs' =>
      if EventName_eq_dec e ev then s else slotOf ev slots' evs'
  | _, _ => mkSlot JUndefined None
  end.

(** A slot in step with the handler [hn ev] of the last render: it holds a
    binding exactly when that handler is a function, a binding of this event
    and this handler, created before the counter reached [nb]. *)
Definition slotOk (nb : nat) (hn : EventName -> JsVal) (s : Slot)
  (ev : EventName) : Prop :=
  sl_handler s = hn ev /\
  match hn ev with
  | JFun g =>
      exists b, sl_binding s = Some b /\ b_event b = ev /\ b_handler b = g
                /\ b_id b < nb
  | _ => sl_binding s = None
  end.

Definition isBindingCall (e : Event) : bool :=
  match e with
  | ESubscribe _ | EUnsubscribe _ => true
  | _ => false
  end.

Definition quiet (t : list Event) : Prop :=
  Forall (fun e => isBindingCall e = false) t.

Definition pairs (bs : list Binding) : list Event :=
  flat_map (fun b => [ESubscribe b; EUnsubscribe b]) bs.

(** The bindings: the slots are in step with the last handlers, identities are
    fresh and never reused, and for each event the calls so far are closed
    pairs followed by the creation of the binding the slot still holds. *)
Record BInv (nb : nat) (hn : EventName -> JsVal) (slots : list Slot)
  (tr : list Event) : Prop := mkBInv {
  binv_slots : Forall2 (slotOk nb hn) slots eventNames;
  binv_ids : Forall (fun b => b_id b < nb) (subscribed tr);
  binv_nodup : NoDup (map b_id (subscribed tr));
  binv_calls : forall ev, exists closed,
      bindingCalls ev tr
      = pairs closed ++ openCall (sl_binding (slotOf ev slots eventNames))
}.

(** The first commit starts from slots that hold nothing. *)
Definition otherValue (v : JsVal) : JsVal :=
  match v with
  | JUndefined => JNull
  | _ => JUndefined
  end.

Definition emptySlots (hn : EventName -> JsVal) (evs : list EventName)
  : list Slot :=
  map (fun ev => mkSlot (otherValue (hn ev)) None) evs.

(** The terminal a call constructs, hands a key handler to, or disposes. *)
Definition known (nt : nat) (e : Event) : Prop :=
  match e with
  | ENew t _ | EAttachKey t _ | EDispose t => t < nt
  | _ => True
  end.

Definition attachedTo (x : Term) (tr : list Event) : list Event :=
  filter (fun e => match e with
                   | EAttachKey t _ => Nat.eqb t x
                   | _ => false
                   end) tr.

(** Calls that construct, configure or dispose no terminal. *)
Definition plain (t : list Event) : Prop :=
  Forall (fun e => isNew e = false /\ isAttachKey e = false
                   /\ isDispose e = false) t.

(** The invariant of a mounted [Xterm] rendered last with props [l], whose
    live instance was constructed by the render with props [c], after the
    calls [tr]. *)
Record Inv (d : Div) (c l : Props) (s : Shape) (h : Heap) (tr : list Event)
  : Prop := mkInv {
  inv_div : divRef h = Some d;
  inv_term : xtermRef h = Some (sh_term s);
  inv_options : sh_options s = options l;
  inv_constructing : options c = options l;
  inv_onDispose : sh_onDispose s = onDispose c;
  inv_bindings : BInv (nextBinding h) (handlerOf l) (sh_slots s) tr;
  inv_fresh : sh_term s < nextTerm h;
  inv_known : Forall (known (nextTerm h)) tr;
  inv_live : ~ In (EDispose (sh_term s)) tr;
  inv_attached :
    attachedTo (sh_term s) tr
    = attachCalls (sh_term s) (customKeyEventHandler c)
}.

Inductive Kind : Type := KConstruct | KBinding | KInit | KTeardown.

Definition kindOf (e : Event) : Kind :=
  match e with
  | ENew _ _ | ELoadAddon _ _ | EAttachKey _ _ | EOpen _ _ => KConstruct
  | ESubscribe _ | EUnsubscribe _ => KBinding
  | EOnInit _ _ => KInit
  | EOnDispose _ _ | EDispose _ | ELog _ => KTeardown
  end.

Definition allOf (k : Kind) (t : list Event) : Prop :=
  Forall (fun e => kindOf e = k) t.

(** ** Notions for the further properties *)

(** The bindings a first commit creates on terminal [x], counting from [nb]:
    one per event whose handler is a function, in the order of the events. *)
Fixpoint freshBindings (x : Term) (nb : nat) (hn : EventName -> JsVal)
  (evs : list EventName) : list Binding :=
  match evs with
  | [] => []
  | ev :: evs' =>
      match hn ev with
      | JFun g => mkBinding nb x ev g :: freshBindings x (S nb) hn evs'
      | _ => freshBindings x nb hn evs'
      end
  end.

Definition isOpen (e : Event) : bool :=
  match e with EOpen _ _ => true | _ => false end.

(** The calls that mark the life of a terminal: [new Terminal], [open],
    [dispose]. *)
Definition isLife (e : Event) : bool := isNew e || isOpen e || isDispose e.

(** Lives lived to the end in the container [d]: [new Terminal(o)], [open(d)],
    then [dispose], one terminal after the other. *)
Definition lives (d : Div) (ts : list (Term * option Opts)) : list Event :=
  flat_map (fun i => [ENew (fst i) (snd i); EOpen (fst i) d; EDispose (fst i)])
           ts.

(** One terminal is live: the calls so far that mark a life are completed
    lives followed by the construction and the opening of the terminal in
    [xtermRef.current], which is none of the earlier ones. *)
Definition oneLive (d : Div) (h : Heap) (tr : list Event) : Prop :=
  exists x o closed,
    xtermRef h = Some x /\
    filter isLife tr = lives d closed ++ [ENew x o; EOpen x d] /\
    ~ In x (map fst closed) /\
    NoDup (map fst closed).

(** Every binding created so far is on a terminal constructed so far. *)
Definition boundKnown (h : Heap) (tr : list Event) : Prop :=
  forall b, In (ESubscribe b) tr -> b_term b < nextTerm h.

(** No binding of the event [ev] has been created on the live terminal. *)
Definition unbound (ev : EventName) (h : Heap) (tr : list Event) : Prop :=
  forall b, In (ESubscribe b) tr -> b_event b = ev ->
            xtermRef h <> Some (b_term b).

(** Mounting under a renderer that attaches no host element to the [ref] of
    the [div] (a test renderer without node mocks): [divRef.current] is still
    null when the effects run. *)
Definition mountDetached (env : Env) (p : Props) : M Fiber :=
  setDivRef None ;;
  setXtermRef None ;;
  ds <- Xterm env p ;;
  commitMount ds.

(** A whole life without a container. *)
Definition detachedLife (env : Env) (p0 : Props) (ps : list Props) : M unit :=
  fiber <- mountDetached env p0 ;;
  fiber' <- updates env ps fiber ;;
  unmount fiber'.

(** An effect that, run from the heap [h], makes no call, leaves the heap as
    it is and returns no cleanup; a fiber that holds no cleanup. *)
Definition inert (h : Heap) (d : EffectDecl) : Prop :=
  eff_create d h = mkOut [] h (Ok None).

Definition idle (f : Fiber) : Prop :=
  Forall (fun hs => hs_destroy hs = None) f.

(** Every binding created so far is on the live terminal. *)
Definition boundLive (h : Heap) (tr : list Event) : Prop :=
  forall b, In (ESubscribe b) tr -> xtermRef h = Some (b_term b).

(** An environment in which loading addon [11] throws the value [5]. *)
Definition failingAddon : Env :=
  mkEnv (fun _ a => if Nat.eqb a 11 then Some 5 else None) (fun _ => None).

(** * The echo example, [examples/src/App.js]

    [App] keeps two state cells, [Terminal] and [input], and hands three
    closures to [Xterm]: [onTermInit], [onTermDispose] and [handleData].  A
    closure reads the state of the render that created it; a setter call takes
    effect in the next render.  The calls a closure makes are recorded in
    order. *)
Module App.

(** A JavaScript string: its UTF-16 code units. *)
Definition JsString : Type := list nat.

Definition str (s : String.string) : JsString :=
  map Ascii.nat_of_ascii (String.list_ascii_of_string s).
Arguments str s%_string_scope.

(** [s.charCodeAt(0)]; [None] is [NaN], the result on the empty string. *)
Definition charCodeAt0 (s : JsString) : option nat :=
  match s with
  | [] => None
  | c :: _ => Some c
  end.

(** [code === n] and [code < n] for a number that may be [NaN]. *)
Definition strictEq (code : option nat) (n : nat) : bool :=
  match code with
  | Some c => Nat.eqb c n
  | None => false
  end.

Definition lessThan (code : option nat) (n : nat) : bool :=
  match code with
  | Some c => Nat.ltb c n
  | None => false
  end.

Inductive LogArg : Type :=
| LStr (s : JsString)
| LNum (n : option nat).

Inductive Call : Type :=
| SetTerminal (v : option Term)            (* [setTerminal(v)] *)
| SetInput (s : JsString)                  (* [setInput(s)] *)
| TermReset (term : Term)                  (* [term.reset()] *)
| TermWrite (term : Term) (s : JsString)   (* [term.write(s)] *)
| ConsoleLog (args : list LogArg).         (* [console.log(...)] *)

Record State : Type := mkState {
  Terminal : option Term;
  input : JsString
}.

(** [useState(null)] and [useState('')]. *)
Definition initialState : State := mkState None [].

Definition greeting : JsString :=
  str "Hello from " ++ [27] ++ str "[1;3;31mxterm.js" ++ [27] ++ str "[0m $ ".

Definition onTermInit (term : Term) : list Call :=
  [SetTerminal (Some term); TermReset term; TermWrite term greeting].

Definition onTermDispose (term : Term) : list Call :=
  [ConsoleLog [LStr (str "Terminal disposed")]; SetTerminal None].

Definition handleData (st : State) (data : JsString) : list Call :=
  match Terminal st with
  | Some term =>
      let code := charCodeAt0 data in
      if strictEq code 13 && (0 <? length (input st)) then
        [TermWrite term ([13; 10] ++ str "You typed: '" ++ input st
                         ++ str "'" ++ [13; 10]);
         TermWrite term (str "echo> ");
         SetInput []]
      else if lessThan code 32 || strictEq code 127 then
        [ConsoleLog [LStr (str "Control Key"); LNum code]]
      else
        [TermWrite term data; SetInput (input st ++ data)]
  | None => []
  end.

(** The state of the next render. *)
Definition reduce (st : State) (c : Call) : State :=
  match c with
  | SetTerminal v => mkState v (input st)
  | SetInput s => mkState (Terminal st) s
  | _ => st
  end.

Definition after (st : State) (cs : list Call) : State := fold_left reduce cs st.

(** The data events [ds], one after the other: each is handled by the
    [handleData] of the render that follows the state updates of the one
    before, which [Xterm] binds in place of the previous closure. *)
Fixpoint typing (st : State) (ds : list JsString) : list Call :=
  match ds with
  | [] => []
  | d :: ds' => handleData st d ++ typing (after st (handleData st d)) ds'
  end.

(** Chunks by their first code unit, as [handleData] tells them apart. *)
Definition isEnter (d : JsString) : bool := strictEq (charCodeAt0 d) 13.

Definition isControl (d : JsString) : bool :=
  lessThan (charCodeAt0 d) 32 || strictEq (charCodeAt0 d) 127.

(** The chunks that are written to the terminal and kept in [input]. *)
Definition printed (ds : list JsString) : list JsString :=
  filter (fun d => negb (isControl d)) ds.

Definition isWrite (c : Call) : bool :=
  match c with
  | TermWrite _ _ => true
  | _ => false
  end.

(** A call between [onInit] and [onDispose] of the terminal [t]: it touches
    no other terminal and does not replace the [Terminal] cell. *)
Definition onlyOn (t : Term) (c : Call) : Prop :=
  match c with
  | TermWrite t' _ | TermReset t' => t' = t
  | SetTerminal _ => False
  | _ => True
  end.

End App.

(** ** A commit that throws

    When an effect body throws, React 18 abandons the rest of the effect pass
    of the component and removes the component from the tree (the whole root
    when no error boundary is above it), which runs every cleanup the
    component still holds, in declaration order. *)

(** The hooks whose effect body has not run in the commit: an unchanged
    effect keeps its cleanup; a changed one has none left, the cleanup pass
    having run and cleared it. *)
Fixpoint keptCleanups (hs : Fiber) (ds : list EffectDecl) : Fiber :=
  match hs, ds with
  | x :: hs', d :: ds' =>
      mkHook (eff_deps d)
             (if areHookInputsEqual (eff_deps d) (hs_deps x)
              then hs_destroy x else None)
      :: keptCleanups hs' ds'
  | _, _ => []
  end.

(** The hooks as the effect pass of a re-render leaves them when it is run
    from the heap [h]: a body that returns stores its cleanup; the body that
    throws stores none and ends the pass. *)
Fixpoint heldAfterMountChanged (hs : Fiber) (ds : list EffectDecl) (h : Heap)
  : Fiber :=
  match hs, ds with
  | x :: hs', d :: ds' =>
      if areHookInputsEqual (eff_deps d) (hs_deps x)
      then mkHook (eff_deps d) (hs_destroy x)
           :: heldAfterMountChanged hs' ds' h
      else
        match out_res (eff_create d h) with
        | Ok destroy =>
            mkHook (eff_deps d) destroy
            :: heldAfterMountChanged hs' ds' (out_heap (eff_create d h))
        | Throw _ => mkHook (eff_deps d) None :: keptCleanups hs' ds'
        end
  | _, _ => []
  end.

(** The same for the first commit, where no hook holds a cleanup yet. *)
Fixpoint heldAfterMount (ds : list EffectDecl) (h : Heap) : Fiber :=
  match ds with
  | [] => []
  | d :: ds' =>
      match out_res (eff_create d h) with
      | Ok destroy =>
          mkHook (eff_deps d) destroy
          :: heldAfterMount ds' (out_heap (eff_create d h))
      | Throw _ => map (fun d' => mkHook (eff_deps d') None) (d :: ds')
      end
  end.

(** Mounting, and a re-render, with React's unmount of the tree when the
    effect pass throws; the error is then reported to the host. *)
Definition mountOrUnmount (env : Env) (d : Div) (p : Props) : M Fiber :=
  setDivRef None ;;
  setXtermRef None ;;
  ds <- Xterm env p ;;
  setDivRef (Some d) ;;
  (fun h =>
     try_catch (commitMount ds)
               (fun e => unmount (heldAfterMount ds h) ;; throw e) h).

Definition updateOrUnmount (env : Env) (p : Props) (fiber : Fiber) : M Fiber :=
  ds <- Xterm env p ;;
  commitUnmountChanged fiber ds ;;
  (fun h =>
     try_catch (commitMountChanged fiber ds)
               (fun e => unmount (heldAfterMountChanged fiber ds h) ;; throw e)
               h).

(** The cleanups of the [useBind] effects that a re-render left unchanged. *)
Definition slotKept (s : Slot) (v : JsVal) : list Event :=
  if JsVal_eq_dec v (sl_handler s) then closeCall (sl_binding s) else [].

Fixpoint slotsKept (slots : list Slot) (hn : EventName -> JsVal)
  (evs : list EventName) : list Event :=
  match slots, evs with
  | s :: slots', ev :: evs' => slotKept s (hn ev) ++ slotsKept slots' hn evs'
  | _, _ => []
  end.

Definition isDisposal (e : Event) : Prop := exists b, e = EUnsubscribe b.

(** * Proofs *)

(** ** The monad *)

Lemma prepend_nil A (o : Out A) : prepend [] o = o.
Proof. destruct o; reflexivity. Qed.

Lemma prepend_prepend A (t1 t2 : list Event) (o : Out A) :
  prepend t1 (prepend t2 o) = prepend (t1 ++ t2) o.
Proof. unfold prepend; simpl; now rewrite app_assoc. Qed.

Lemma bind_known A B (m : M A) (k : A -> M B) h t h' a :
  m h = mkOut t h' (Ok a) -> bind m k h = prepend t (k a h').
Proof. intros E; unfold bind; now rewrite E. Qed.

Lemma bind_thrown A B (m : M A) (k : A -> M B) h t h' e :
  m h = mkOut t h' (Throw e) -> bind m k h = mkOut t h' (Throw e).
Proof. intros E; unfold bind; now rewrite E. Qed.

Lemma bind_ret_l A B (a : A) (k : A -> M B) h : bind (ret a) k h = k a h.
Proof. unfold bind, ret; simpl; apply prepend_nil. Qed.

Lemma bind_assoc A B C (m : M A) (k1 : A -> M B) (k2 : B -> M C) h :
  bind (bind m k1) k2 h = bind m (fun a => bind (k1 a) k2) h.
Proof.
  unfold bind.
  destruct (m h) as [t h' [a|e]]; simpl; [|reflexivity].
  destruct (k1 a h') as [t1 h1 [b|e]]; simpl; [|reflexivity].
  now rewrite prepend_prepend.
Qed.

Lemma bind_ext A B (m : M A) (k1 k2 : A -> M B) h :
  (forall a h', k1 a h' = k2 a h') -> bind m k1 h = bind m k2 h.
Proof.
  intros E; unfold bind.
  destruct (out_res (m h)); [now rewrite E | reflexivity].
Qed.

(** A case analysis on an outcome. *)
Lemma out_eta A (o : Out A) : o = mkOut (out_trace o) (out_heap o) (out_res o).
Proof. destruct o; reflexivity. Qed.

(** ** Dependency comparison *)

Lemma areHookInputsEqual_options a b :
  areHookInputsEqual [DOptions a] [DOptions b]
  = if optnat_eq_dec a b then true else false.
Proof.
  unfold areHookInputsEqual.
  destruct (list_eq_dec Dep_eq_dec _ _), (optnat_eq_dec a b); congruence.
Qed.

Lemma areHookInputsEqual_value a b :
  areHookInputsEqual [DValue a] [DValue b]
  = if JsVal_eq_dec a b then true else false.
Proof.
  unfold areHookInputsEqual.
  destruct (list_eq_dec Dep_eq_dec _ _), (JsVal_eq_dec a b); congruence.
Qed.

Lemma areHookInputsEqual_terminal a b :
  areHookInputsEqual [DTerminal a] [DTerminal b]
  = if optnat_eq_dec a b then true else false.
Proof.
  unfold areHookInputsEqual.
  destruct (list_eq_dec Dep_eq_dec _ _), (optnat_eq_dec a b); congruence.
Qed.

(** ** The effects of the component, call by call *)

Section Effects.

Variable env : Env.

Lemma Xterm_decls p h :
  Xterm env p h
  = mkOut [] h
      (Ok (mkEffect (terminalEffect env p) [DOptions (options p)]
           :: bindDecls (handlerOf p) eventNames
           ++ [mkEffect (initEffect p) [DTerminal (xtermRef h)]])).
Proof. reflexivity. Qed.

Lemma terminalCleanup_eq od x h :
  terminalCleanup env od x h
  = mkOut (teardownCalls env od x)
          (mkHeap (divRef h) None (nextTerm h) (nextBinding h)) (Ok tt).
Proof.
  unfold terminalCleanup, teardownCalls, disposeCalls, onDisposeCall,
    dispose, try_catch, bind, emit, consoleLog, setXtermRef, throw, ret,
    prepend.
  destruct od; simpl; destruct (dispose_throws env x); reflexivity.
Qed.

Lemma loadAddon_eq x a h :
  loadAddon env x a h
  = mkOut [ELoadAddon x a] h
          (match load_throws env x a with
           | Some e => Throw e
           | None => Ok tt
           end).
Proof.
  unfold loadAddon, bind, emit, throw, ret, prepend; simpl.
  destruct (load_throws env x a); reflexivity.
Qed.

Lemma forEach_loadAddon_ok x l h :
  firstFailure env x l = None ->
  forEach l (fun a => loadAddon env x a) h
  = mkOut (map (ELoadAddon x) l) h (Ok tt).
Proof.
  induction l as [|a l IH]; simpl; intros F; [reflexivity|].
  destruct (load_throws env x a) eqn:L; [discriminate|].
  destruct (firstFailure env x l) as [[[? ?] ?]|] eqn:F'; [discriminate|].
  erewrite bind_known by (rewrite loadAddon_eq, L; reflexivity).
  now rewrite IH.
Qed.

Lemma forEach_loadAddon_throw x l h pre a e :
  firstFailure env x l = Some (pre, a, e) ->
  forEach l (fun a => loadAddon env x a) h
  = mkOut (map (ELoadAddon x) (pre ++ [a])) h (Throw e).
Proof.
  revert pre; induction l as [|b l IH]; simpl; intros pre F; [discriminate|].
  destruct (load_throws env x b) eqn:L.
  - inversion F; subst.
    erewrite bind_thrown by (rewrite loadAddon_eq, L; reflexivity).
    reflexivity.
  - destruct (firstFailure env x l) as [[[pre' a'] e']|] eqn:F'; [|discriminate].
    inversion F; subst.
    erewrite bind_known by (rewrite loadAddon_eq, L; reflexivity).
    now rewrite (IH pre').
Qed.

Lemma terminalEffect_ok p h d :
  divRef h = Some d ->
  firstFailure env (nextTerm h) (addonList p) = None ->
  terminalEffect env p h
  = mkOut (constructCalls (nextTerm h) d p)
          (mkHeap (Some d) (Some (nextTerm h)) (S (nextTerm h)) (nextBinding h))
          (Ok (Some (terminalCleanup env (onDispose p) (nextTerm h)))).
Proof.
  intros D F. unfold terminalEffect, constructCalls, attachCalls.
  unfold bind at 1. unfold getDivRef at 1. simpl. rewrite D, prepend_nil.
  unfold bind at 1. unfold newTerminal at 1. simpl.
  unfold addonList in *.
  destruct (addons p) as [l|].
  - unfold bind at 1. rewrite (forEach_loadAddon_ok _ _ _ F). simpl.
    unfold attachCustomKeyEventHandler, open, bind, emit, setXtermRef, ret,
      prepend.
    destruct (truthy (customKeyEventHandler p)); simpl;
      rewrite ?D, ?app_nil_r; reflexivity.
  - unfold attachCustomKeyEventHandler, open, bind, emit, setXtermRef, ret,
      prepend.
    destruct (truthy (customKeyEventHandler p)); simpl; rewrite ?D; reflexivity.
Qed.

Lemma terminalEffect_throw p h d pre a e :
  divRef h = Some d ->
  firstFailure env (nextTerm h) (addonList p) = Some (pre, a, e) ->
  terminalEffect env p h
  = mkOut (ENew (nextTerm h) (options p)
           :: map (ELoadAddon (nextTerm h)) (pre ++ [a]))
          (mkHeap (Some d) (xtermRef h) (S (nextTerm h)) (nextBinding h))
          (Throw e).
Proof.
  intros D F. unfold terminalEffect.
  unfold bind at 1. unfold getDivRef at 1. simpl. rewrite D, prepend_nil.
  unfold bind at 1. unfold newTerminal at 1. simpl.
  unfold addonList in *.
  destruct (addons p) as [l|]; [|discriminate].
  unfold bind at 1. rewrite (forEach_loadAddon_throw _ _ _ _ _ _ F). simpl.
  unfold prepend; simpl. now rewrite D.
Qed.

Lemma initEffect_eq p h :
  initEffect p h = mkOut (initCalls (xtermRef h) (onInit p)) h (Ok None).
Proof.
  unfold initEffect, initCalls, bind, getXtermRef, emit, ret, prepend; simpl.
  destruct (xtermRef h) eqn:X; simpl; [|reflexivity].
  destruct (onInit p); simpl; rewrite ?X; reflexivity.
Qed.

Lemma bindEffect_eq v ev h :
  bindEffect v ev h
  = let '(t, nb, s) := slotBind (xtermRef h) (nextBinding h) ev v in
    mkOut t (mkHeap (divRef h) (xtermRef h) (nextTerm h) nb)
          (Ok (hs_destroy (slotHook s))).
Proof.
  unfold bindEffect, slotBind, bind, getXtermRef, subscribe, ret, prepend;
    simpl.
  destruct h as [dv [x|] nt nb]; simpl; destruct v; reflexivity.
Qed.

End Effects.

(** ** React's passes over the twelve [useBind] hooks *)

Lemma bind_prepended A B (m m2 : M A) (k : A -> M B) h h2 t :
  m h = prepend t (m2 h2) -> bind m k h = prepend t (bind m2 k h2).
Proof.
  intros E. unfold bind. rewrite E. simpl.
  destruct (m2 h2) as [t2 h3 [a|e]]; simpl.
  - now rewrite prepend_prepend.
  - reflexivity.
Qed.

Arguments slotHook : simpl never.

Lemma slotHook_destroy_eq s h :
  runDestroy (hs_destroy (slotHook s)) h
  = mkOut (closeCall (sl_binding s)) h (Ok tt).
Proof. destruct s as [v [b|]]; reflexivity. Qed.

Lemma unmountChanged_slot s v h :
  (if areHookInputsEqual [DValue v] (hs_deps (slotHook s)) then ret tt
   else runDestroy (hs_destroy (slotHook s))) h
  = mkOut (slotUnsub s v) h (Ok tt).
Proof.
  unfold slotUnsub.
  change (hs_deps (slotHook s)) with [DValue (sl_handler s)].
  rewrite areHookInputsEqual_value.
  destruct (JsVal_eq_dec v (sl_handler s)).
  - reflexivity.
  - apply slotHook_destroy_eq.
Qed.

Lemma commitUnmountChanged_binds slots : forall evs hn hs ds h,
  length slots = length evs ->
  commitUnmountChanged (map slotHook slots ++ hs) (bindDecls hn evs ++ ds) h
  = prepend (slotsUnsub slots hn evs) (commitUnmountChanged hs ds h).
Proof.
  induction slots as [|s slots IH]; intros [|ev evs] hn hs ds h L;
    try discriminate; simpl.
  - now rewrite prepend_nil.
  - erewrite bind_known by apply unmountChanged_slot.
    rewrite IH by (simpl in L; lia).
    now rewrite prepend_prepend.
Qed.

Lemma commitUnmountAll_binds slots : forall hs h,
  commitUnmountAll (map slotHook slots ++ hs) h
  = prepend (allUnsub slots) (commitUnmountAll hs h).
Proof.
  induction slots as [|s slots IH]; intros hs h; simpl.
  - now rewrite prepend_nil.
  - erewrite bind_known by apply slotHook_destroy_eq.
    now rewrite IH, prepend_prepend.
Qed.

Lemma slotBind_handler cur nb ev v t nb' s :
  slotBind cur nb ev v = (t, nb', s) -> sl_handler s = v.
Proof.
  unfold slotBind. destruct cur; destruct v; intros E; inversion E; reflexivity.
Qed.

Lemma mountChanged_slot v ev s h t nb s1 :
  slotRebind (xtermRef h) (nextBinding h) s ev v = (t, nb, s1) ->
  (if areHookInputsEqual (eff_deps (useBind v ev)) (hs_deps (slotHook s))
   then ret (mkHook (eff_deps (useBind v ev)) (hs_destroy (slotHook s)))
   else destroy <- eff_create (useBind v ev) ;;
        ret (mkHook (eff_deps (useBind v ev)) destroy)) h
  = mkOut t (withNextBinding nb h) (Ok (slotHook s1)).
Proof.
  intros E.
  change (hs_deps (slotHook s)) with [DValue (sl_handler s)].
  change (eff_deps (useBind v ev)) with [DValue v].
  change (eff_create (useBind v ev)) with (bindEffect v ev).
  rewrite areHookInputsEqual_value. unfold slotRebind in E.
  destruct (JsVal_eq_dec v (sl_handler s)).
  - inversion E; subst. destruct h; reflexivity.
  - erewrite bind_known by (rewrite bindEffect_eq, E; reflexivity).
    unfold ret, prepend; simpl. rewrite app_nil_r.
    assert (Hv : sl_handler s1 = v) by (eapply slotBind_handler; exact E).
    destruct s1 as [v1 b1]; simpl in Hv; subst v1. reflexivity.
Qed.

Lemma bind_ret_r_map A B (m : M A) (f : A -> B) h :
  bind m (fun a => ret (f a)) h
  = mkOut (out_trace (m h)) (out_heap (m h))
          (match out_res (m h) with
           | Ok a => Ok (f a)
           | Throw e => Throw e
           end).
Proof.
  unfold bind, ret, prepend. destruct (m h) as [t h' [a|e]]; simpl.
  - now rewrite app_nil_r.
  - reflexivity.
Qed.

Lemma withNextBinding_same h : withNextBinding (nextBinding h) h = h.
Proof. destruct h; reflexivity. Qed.

Lemma commitMount_binds evs : forall hn ds h t nb slots,
  slotsBind (xtermRef h) (nextBinding h) hn evs = (t, nb, slots) ->
  commitMount (bindDecls hn evs ++ ds) h
  = prepend t (bind (commitMount ds)
                    (fun rest => ret (map slotHook slots ++ rest))
                    (withNextBinding nb h)).
Proof.
  induction evs as [|ev evs IH]; intros hn ds h t nb slots E; simpl in *.
  - inversion E; subst. rewrite prepend_nil, withNextBinding_same.
    rewrite bind_ret_r_map. simpl.
    destruct (commitMount ds h) as [t' h' [a|e]]; reflexivity.
  - destruct (slotBind (xtermRef h) (nextBinding h) ev (hn ev))
      as [[t1 nb1] s1] eqn:E1.
    destruct (slotsBind (xtermRef h) nb1 hn evs) as [[t2 nb2] ss] eqn:E2.
    inversion E; subst; clear E.
    erewrite bind_known by (rewrite bindEffect_eq, E1; reflexivity).
    erewrite bind_prepended by (apply IH; simpl; exact E2).
    rewrite prepend_prepend. f_equal.
    unfold withNextBinding; simpl.
    rewrite bind_assoc. apply bind_ext. intros rest h'.
    rewrite bind_ret_l.
    assert (Hv : sl_handler s1 = hn ev) by (eapply slotBind_handler; exact E1).
    destruct s1 as [v1 b1]; simpl in Hv; subst v1. reflexivity.
Qed.

Lemma commitMountChanged_binds slots0 : forall evs hn hs ds h t nb slots,
  length slots0 = length evs ->
  slotsRebind (xtermRef h) (nextBinding h) slots0 hn evs = (t, nb, slots) ->
  commitMountChanged (map slotHook slots0 ++ hs) (bindDecls hn evs ++ ds) h
  = prepend t (bind (commitMountChanged hs ds)
                    (fun rest => ret (map slotHook slots ++ rest))
                    (withNextBinding nb h)).
Proof.
  induction slots0 as [|s0 slots0 IH]; intros [|ev evs] hn hs ds h t nb slots L E;
    try discriminate.
  - simpl in *. inversion E; subst. rewrite prepend_nil, withNextBinding_same.
    rewrite bind_ret_r_map. simpl.
    destruct (commitMountChanged hs ds h) as [t' h' [a|e]]; reflexivity.
  - cbn [slotsRebind] in E.
    destruct (slotRebind (xtermRef h) (nextBinding h) s0 ev (hn ev))
      as [[t1 nb1] s1] eqn:E1.
    destruct (slotsRebind (xtermRef h) nb1 slots0 hn evs)
      as [[t2 nb2] ss] eqn:E2.
    inversion E; subst; clear E.
    cbn [map app bindDecls commitMountChanged].
    erewrite bind_known by (apply mountChanged_slot; exact E1).
    erewrite bind_prepended
      by (apply IH; [simpl in L; lia | simpl; exact E2]).
    rewrite prepend_prepend. f_equal.
    unfold withNextBinding; simpl.
    rewrite bind_assoc. apply bind_ext. intros rest h'.
    now rewrite bind_ret_l.
Qed.

(** ** The three commits of a mounted [Xterm], call by call *)

Section Commits.

Variable env : Env.

Ltac step_known := erewrite bind_known by reflexivity; rewrite ?prepend_nil.

Lemma commitMount_init p cur h :
  commitMount [mkEffect (initEffect p) [DTerminal cur]] h
  = mkOut (initCalls (xtermRef h) (onInit p)) h
          (Ok [mkHook [DTerminal cur] None]).
Proof.
  cbn [commitMount eff_create eff_deps].
  erewrite bind_known by apply initEffect_eq.
  unfold bind, ret, prepend; simpl. now rewrite app_nil_r.
Qed.

Lemma mount_ok d p h0 t nb slots :
  firstFailure env (nextTerm h0) (addonList p) = None ->
  slotsBind (Some (nextTerm h0)) (nextBinding h0) (handlerOf p) eventNames
  = (t, nb, slots) ->
  mount env d p h0
  = mkOut (constructCalls (nextTerm h0) d p ++ t
           ++ initCalls (Some (nextTerm h0)) (onInit p))
          (mkHeap (Some d) (Some (nextTerm h0)) (S (nextTerm h0)) nb)
          (Ok (fiberOf env (mkShape (options p) (onDispose p) (nextTerm h0)
                                    slots None))).
Proof.
  intros F E. unfold mount.
  do 2 step_known.
  erewrite bind_known by apply Xterm_decls. rewrite prepend_nil.
  step_known.
  cbn [commitMount eff_create eff_deps xtermRef].
  erewrite bind_known by (apply terminalEffect_ok with (d := d); [reflexivity | exact F]).
  erewrite bind_prepended by (apply commitMount_binds; exact E).
  rewrite bind_assoc.
  erewrite bind_known by apply commitMount_init.
  rewrite bind_ret_l.
  unfold ret, prepend, fiberOf, withNextBinding; simpl.
  now rewrite app_nil_r.
Qed.

Lemma mount_throw d p h0 pre a e :
  firstFailure env (nextTerm h0) (addonList p) = Some (pre, a, e) ->
  mount env d p h0
  = mkOut (ENew (nextTerm h0) (options p)
           :: map (ELoadAddon (nextTerm h0)) (pre ++ [a]))
          (mkHeap (Some d) None (S (nextTerm h0)) (nextBinding h0))
          (Throw e).
Proof.
  intros F. unfold mount.
  do 2 step_known.
  erewrite bind_known by apply Xterm_decls. rewrite prepend_nil.
  step_known.
  cbn [commitMount eff_create eff_deps xtermRef].
  erewrite bind_thrown
    by (apply terminalEffect_throw with (d := d); [reflexivity | exact F]).
  reflexivity.
Qed.

Lemma unmount_eq s h :
  unmount (fiberOf env s) h
  = mkOut (teardownCalls env (sh_onDispose s) (sh_term s)
           ++ allUnsub (sh_slots s))
          (mkHeap None None (nextTerm h) (nextBinding h)) (Ok tt).
Proof.
  unfold unmount, fiberOf. step_known.
  cbn [commitUnmountAll hs_destroy runDestroy].
  erewrite bind_known by apply terminalCleanup_eq.
  rewrite commitUnmountAll_binds.
  unfold prepend, bind, ret; simpl. now rewrite app_nil_r.
Qed.

Lemma commitUnmountChanged_init p cur t0 h :
  commitUnmountChanged [mkHook [DTerminal t0] None]
                       [mkEffect (initEffect p) [DTerminal cur]] h
  = mkOut [] h (Ok tt).
Proof.
  cbn [commitUnmountChanged eff_deps hs_deps hs_destroy runDestroy].
  destruct (areHookInputsEqual _ _); reflexivity.
Qed.

Lemma commitMountChanged_init p cur t0 h :
  commitMountChanged [mkHook [DTerminal t0] None]
                     [mkEffect (initEffect p) [DTerminal cur]] h
  = mkOut (if optnat_eq_dec cur t0 then []
           else initCalls (xtermRef h) (onInit p))
          h (Ok [mkHook [DTerminal cur] None]).
Proof.
  cbn [commitMountChanged eff_deps eff_create hs_deps hs_destroy].
  rewrite areHookInputsEqual_terminal.
  destruct (optnat_eq_dec cur t0).
  - reflexivity.
  - rewrite bind_assoc. erewrite bind_known by apply initEffect_eq.
    unfold bind, ret, prepend; simpl. now rewrite !app_nil_r.
Qed.

(** A re-render that keeps the identity of [options]. *)
Lemma update_keep p s h d t nb slots :
  divRef h = Some d ->
  xtermRef h = Some (sh_term s) ->
  length (sh_slots s) = length eventNames ->
  options p = sh_options s ->
  slotsRebind (Some (sh_term s)) (nextBinding h) (sh_slots s) (handlerOf p)
              eventNames = (t, nb, slots) ->
  update env p (fiberOf env s) h
  = mkOut (slotsUnsub (sh_slots s) (handlerOf p) eventNames ++ t
           ++ (if optnat_eq_dec (Some (sh_term s)) (sh_initDep s) then []
               else initCalls (Some (sh_term s)) (onInit p)))
          (withNextBinding nb h)
          (Ok (fiberOf env (mkShape (options p) (sh_onDispose s) (sh_term s)
                                    slots (Some (sh_term s))))).
Proof.
  intros D X L O E. unfold update.
  erewrite bind_known by apply Xterm_decls. rewrite prepend_nil.
  unfold fiberOf at 1.
  cbn [commitUnmountChanged eff_deps hs_deps hs_destroy].
  rewrite areHookInputsEqual_options.
  destruct (optnat_eq_dec (options p) (sh_options s)) as [_|N]; [|contradiction].
  rewrite bind_assoc, bind_ret_l.
  erewrite bind_known.
  2:{ rewrite commitUnmountChanged_binds by exact L.
      rewrite commitUnmountChanged_init. reflexivity. }
  cbn [out_trace out_heap app]. rewrite app_nil_r.
  unfold fiberOf at 1.
  cbn [commitMountChanged eff_deps hs_deps hs_destroy].
  rewrite areHookInputsEqual_options.
  destruct (optnat_eq_dec (options p) (sh_options s)) as [_|N]; [|contradiction].
  rewrite bind_ret_l.
  erewrite bind_prepended
    by (apply commitMountChanged_binds; [exact L | rewrite X; exact E]).
  rewrite bind_assoc.
  erewrite bind_known by apply commitMountChanged_init.
  rewrite bind_ret_l.
  unfold ret, prepend, fiberOf, withNextBinding; simpl.
  rewrite X, app_nil_r. reflexivity.
Qed.

(** A re-render that changes the identity of [options], no addon failing. *)
Lemma update_recreate p s h d t nb slots :
  divRef h = Some d ->
  xtermRef h = Some (sh_term s) ->
  length (sh_slots s) = length eventNames ->
  options p <> sh_options s ->
  firstFailure env (nextTerm h) (addonList p) = None ->
  slotsRebind (Some (nextTerm h)) (nextBinding h) (sh_slots s) (handlerOf p)
              eventNames = (t, nb, slots) ->
  update env p (fiberOf env s) h
  = mkOut (teardownCalls env (sh_onDispose s) (sh_term s)
           ++ slotsUnsub (sh_slots s) (handlerOf p) eventNames
           ++ constructCalls (nextTerm h) d p ++ t
           ++ (if optnat_eq_dec (Some (sh_term s)) (sh_initDep s) then []
               else initCalls (Some (nextTerm h)) (onInit p)))
          (mkHeap (Some d) (Some (nextTerm h)) (S (nextTerm h)) nb)
          (Ok (fiberOf env (mkShape (options p) (onDispose p) (nextTerm h)
                                    slots (Some (sh_term s))))).
Proof.
  intros D X L O F E. unfold update.
  erewrite bind_known by apply Xterm_decls. rewrite prepend_nil.
  unfold fiberOf at 1.
  cbn [commitUnmountChanged eff_deps hs_deps hs_destroy runDestroy].
  rewrite areHookInputsEqual_options.
  destruct (optnat_eq_dec (options p) (sh_options s)) as [N|_]; [contradiction|].
  rewrite bind_assoc.
  erewrite bind_known by apply terminalCleanup_eq.
  erewrite bind_known.
  2:{ rewrite commitUnmountChanged_binds by exact L.
      rewrite commitUnmountChanged_init. reflexivity. }
  cbn [out_trace out_heap app]. rewrite app_nil_r.
  unfold fiberOf at 1.
  cbn [commitMountChanged eff_deps eff_create hs_deps hs_destroy].
  rewrite areHookInputsEqual_options.
  destruct (optnat_eq_dec (options p) (sh_options s)) as [N|_]; [contradiction|].
  rewrite !bind_assoc.
  erewrite bind_known
    by (apply terminalEffect_ok with (d := d); [exact D | exact F]).
  rewrite bind_ret_l.
  erewrite bind_prepended
    by (apply commitMountChanged_binds; [exact L | exact E]).
  rewrite bind_assoc.
  erewrite bind_known by apply commitMountChanged_init.
  rewrite bind_ret_l.
  unfold ret, prepend, fiberOf, withNextBinding; simpl.
  rewrite X, app_nil_r, <- !app_assoc. reflexivity.
Qed.

(** A re-render that changes the identity of [options], an addon failing. *)
Lemma update_recreate_throw p s h d pre a e :
  divRef h = Some d ->
  xtermRef h = Some (sh_term s) ->
  length (sh_slots s) = length eventNames ->
  options p <> sh_options s ->
  firstFailure env (nextTerm h) (addonList p) = Some (pre, a, e) ->
  update env p (fiberOf env s) h
  = mkOut (teardownCalls env (sh_onDispose s) (sh_term s)
           ++ slotsUnsub (sh_slots s) (handlerOf p) eventNames
           ++ ENew (nextTerm h) (options p)
              :: map (ELoadAddon (nextTerm h)) (pre ++ [a]))
          (mkHeap (Some d) None (S (nextTerm h)) (nextBinding h))
          (Throw e).
Proof.
  intros D X L O F. unfold update.
  erewrite bind_known by apply Xterm_decls. rewrite prepend_nil.
  unfold fiberOf at 1.
  cbn [commitUnmountChanged eff_deps hs_deps hs_destroy runDestroy].
  rewrite areHookInputsEqual_options.
  destruct (optnat_eq_dec (options p) (sh_options s)) as [N|_]; [contradiction|].
  rewrite bind_assoc.
  erewrite bind_known by apply terminalCleanup_eq.
  erewrite bind_known.
  2:{ rewrite commitUnmountChanged_binds by exact L.
      rewrite commitUnmountChanged_init. reflexivity. }
  cbn [out_trace out_heap app]. rewrite app_nil_r.
  unfold fiberOf at 1.
  cbn [commitMountChanged eff_deps eff_create hs_deps hs_destroy].
  rewrite areHookInputsEqual_options.
  destruct (optnat_eq_dec (options p) (sh_options s)) as [N|_]; [contradiction|].
  rewrite !bind_assoc.
  erewrite bind_thrown
    by (apply terminalEffect_throw with (d := d); [exact D | exact F]).
  unfold prepend; simpl. rewrite <- ?app_assoc. reflexivity.
Qed.

End Commits.

(** ** The twelve slots *)

Lemma slotOk_event nb hn s ev b :
  slotOk nb hn s ev -> sl_binding s = Some b -> b_event b = ev.
Proof.
  intros [_ H] B. destruct (hn ev); try congruence.
  destruct H as (b' & B' & Hev & _). congruence.
Qed.

Lemma slotOk_mono nb nb' hn s ev :
  nb <= nb' -> slotOk nb hn s ev -> slotOk nb' hn s ev.
Proof.
  intros L [H1 H2]. split; [exact H1|].
  destruct (hn ev); try exact H2.
  destruct H2 as (b & ? & ? & ? & ?). exists b. repeat split; try assumption. lia.
Qed.

Lemma in_eventNames ev : In ev eventNames.
Proof. destruct ev; simpl; tauto. Qed.

Lemma NoDup_eventNames : NoDup eventNames.
Proof.
  unfold eventNames.
  repeat (constructor; [simpl; intuition discriminate|]). constructor.
Qed.

Lemma slotOf_Forall2 (P : Slot -> EventName -> Prop) slots evs ev :
  Forall2 P slots evs -> In ev evs -> P (slotOf ev slots evs) ev.
Proof.
  induction 1 as [|s e slots evs H F IH]; simpl; [tauto|].
  intros [->|I].
  - destruct (EventName_eq_dec ev ev); [exact H|contradiction].
  - destruct (EventName_eq_dec e ev) as [->|_]; [exact H|exact (IH I)].
Qed.

(** One slot through a cleanup pass and an effect pass. *)
Lemma slotRebind_spec x nb hn0 hn s ev t nb' s' :
  slotOk nb hn0 s ev ->
  slotRebind (Some x) nb s ev (hn ev) = (t, nb', s') ->
  nb <= nb' /\ slotOk nb' hn s' ev /\
  (if JsVal_eq_dec (hn ev) (sl_handler s)
   then t = [] /\ nb' = nb /\ sl_binding s' = sl_binding s
   else t = openCall (sl_binding s') /\
        match hn ev with
        | JFun g => sl_binding s' = Some (mkBinding nb x ev g) /\ nb' = S nb
        | _ => sl_binding s' = None /\ nb' = nb
        end).
Proof.
  intros [H1 H2] E. unfold slotRebind in E.
  destruct (JsVal_eq_dec (hn ev) (sl_handler s)) as [Q|Q].
  - inversion E; subst; clear E. split; [lia|]. split; [|auto].
    split; [reflexivity|]. simpl.
    rewrite Q, H1. exact H2.
  - unfold slotBind in E.
    destruct (hn ev) eqn:V; inversion E; subst; clear E;
      (split; [lia|]); (split; [split; [simpl; congruence|rewrite V]|]);
      simpl; auto.
    exists (mkBinding nb x ev f). simpl. repeat split; lia.
Qed.

Lemma slotsRebind_ok x hn0 hn slots evs :
  forall nb, Forall2 (slotOk nb hn0) slots evs ->
  forall t nb' slots',
  slotsRebind (Some x) nb slots hn evs = (t, nb', slots') ->
  nb <= nb' /\ Forall2 (slotOk nb' hn) slots' evs.
Proof.
  revert evs. induction slots as [|s slots IH]; intros evs nb F t nb' slots' E;
    inversion F as [|s0 e sl el Hs Hrest]; subst; simpl in E.
  - inversion E; subst. split; [lia|constructor].
  - destruct (slotRebind (Some x) nb s e (hn e)) as [[t1 nb1] s1] eqn:E1.
    destruct (slotsRebind (Some x) nb1 slots hn el) as [[t2 nb2] ss] eqn:E2.
    inversion E; subst; clear E.
    destruct (slotRebind_spec _ _ _ _ _ _ _ _ _ Hs E1) as (L1 & Ok1 & _).
    assert (F1 : Forall2 (slotOk nb1 hn0) slots el).
    { eapply Forall2_impl; [|exact Hrest]. intros a b. now apply slotOk_mono. }
    destruct (IH _ _ F1 _ _ _ E2) as (L2 & Ok2).
    split; [lia|]. constructor; [|exact Ok2].
    now apply slotOk_mono with (nb := nb1).
Qed.

(** The calls of an effect pass: one [ESubscribe] per fresh binding, with
    consecutive identities, each on the current terminal. *)
Lemma slotsRebind_trace x hn0 hn slots evs :
  forall nb, Forall2 (slotOk nb hn0) slots evs ->
  forall t nb' slots',
  slotsRebind (Some x) nb slots hn evs = (t, nb', slots') ->
  exists bs, t = map ESubscribe bs /\ map b_id bs = seq nb (nb' - nb) /\
             Forall (fun b => b_term b = x /\ In (b_event b) evs) bs.
Proof.
  revert evs. induction slots as [|s slots IH]; intros evs nb F t nb' slots' E;
    inversion F as [|s0 e sl el Hs Hrest]; subst; simpl in E.
  - inversion E; subst. exists []. rewrite Nat.sub_diag. repeat constructor.
  - destruct (slotRebind (Some x) nb s e (hn e)) as [[t1 nb1] s1] eqn:E1.
    destruct (slotsRebind (Some x) nb1 slots hn el) as [[t2 nb2] ss] eqn:E2.
    inversion E; subst; clear E.
    destruct (slotRebind_spec _ _ _ _ _ _ _ _ _ Hs E1) as (L1 & Ok1 & Sp).
    assert (F1 : Forall2 (slotOk nb1 hn0) slots el).
    { eapply Forall2_impl; [|exact Hrest]. intros a b. now apply slotOk_mono. }
    destruct (slotsRebind_ok _ _ _ _ _ _ F1 _ _ _ E2) as (L2 & _).
    destruct (IH _ _ F1 _ _ _ E2) as (bs & -> & Ids & Fa).
    assert (Fa' : Forall (fun b => b_term b = x /\ In (b_event b) (e :: el)) bs).
    { eapply Forall_impl; [|exact Fa]. simpl. intros b [? ?]. auto. }
    destruct (JsVal_eq_dec (hn e) (sl_handler s)).
    + destruct Sp as (-> & -> & _). exists bs. auto.
    + destruct Sp as (-> & Sp). destruct (hn e).
      1,2,4: destruct Sp as (-> & ->); exists bs; auto.
      destruct Sp as (-> & ->). exists (mkBinding nb x e f :: bs). simpl.
      split; [reflexivity|]. split.
      * rewrite Ids. replace (nb' - nb) with (S (nb' - S nb)) by lia.
        reflexivity.
      * constructor; [simpl; auto|exact Fa'].
Qed.

Lemma bindingCalls_app ev t1 t2 :
  bindingCalls ev (t1 ++ t2) = bindingCalls ev t1 ++ bindingCalls ev t2.
Proof. apply filter_app. Qed.

Lemma bindingCalls_subscribes_other ev bs evs :
  Forall (fun b => In (b_event b) evs) bs -> ~ In ev evs ->
  bindingCalls ev (map ESubscribe bs) = [].
Proof.
  intros F N. induction F as [|b bs Hb F IH]; simpl; [reflexivity|].
  destruct (EventName_eq_dec (b_event b) ev) as [Q|Q]; [|exact IH].
  subst ev. contradiction.
Qed.

Lemma bindingCalls_openCall ev ev' ob :
  (forall b, ob = Some b -> b_event b = ev') ->
  bindingCalls ev (openCall ob) = if EventName_eq_dec ev' ev then openCall ob else [].
Proof.
  intros H. destruct ob as [b|]; simpl.
  - rewrite (H b eq_refl). destruct (EventName_eq_dec ev' ev); reflexivity.
  - destruct (EventName_eq_dec ev' ev); reflexivity.
Qed.

Lemma bindingCalls_closeCall ev ev' ob :
  (forall b, ob = Some b -> b_event b = ev') ->
  bindingCalls ev (closeCall ob) = if EventName_eq_dec ev' ev then closeCall ob else [].
Proof.
  intros H. destruct ob as [b|]; simpl.
  - rewrite (H b eq_refl). destruct (EventName_eq_dec ev' ev); reflexivity.
  - destruct (EventName_eq_dec ev' ev); reflexivity.
Qed.

Lemma bindingCalls_slotUnsub nb hn0 s e ev v :
  slotOk nb hn0 s e ->
  bindingCalls ev (slotUnsub s v)
  = if EventName_eq_dec e ev then slotUnsub s v else [].
Proof.
  intros H. unfold slotUnsub.
  destruct (JsVal_eq_dec v (sl_handler s)).
  - destruct (EventName_eq_dec e ev); reflexivity.
  - apply (bindingCalls_closeCall ev e (sl_binding s)).
    intros b. now apply slotOk_event with (nb := nb) (hn := hn0).
Qed.

Lemma bindingCalls_slotsUnsub_other nb hn0 hn slots evs ev :
  Forall2 (slotOk nb hn0) slots evs -> ~ In ev evs ->
  bindingCalls ev (slotsUnsub slots hn evs) = [].
Proof.
  induction 1 as [|s e slots evs H F IH]; simpl; intros N; [reflexivity|].
  rewrite bindingCalls_app, (bindingCalls_slotUnsub nb hn0 s e ev _ H).
  destruct (EventName_eq_dec e ev) as [->|_]; [tauto|].
  apply IH. tauto.
Qed.

Lemma bindingCalls_slotsUnsub nb hn0 hn slots evs ev :
  NoDup evs -> Forall2 (slotOk nb hn0) slots evs -> In ev evs ->
  bindingCalls ev (slotsUnsub slots hn evs)
  = slotUnsub (slotOf ev slots evs) (hn ev).
Proof.
  intros ND F. induction F as [|s e slots evs H F IH]; simpl; [tauto|].
  inversion ND as [|? ? Nin ND']; subst. intros I.
  rewrite bindingCalls_app, (bindingCalls_slotUnsub nb hn0 s e ev _ H).
  destruct (EventName_eq_dec e ev) as [->|Ne].
  - rewrite (bindingCalls_slotsUnsub_other nb hn0 hn slots evs ev F Nin).
    apply app_nil_r.
  - destruct I as [->|I]; [contradiction|]. exact (IH ND' I).
Qed.

Lemma bindingCalls_allUnsub_other nb hn0 slots evs ev :
  Forall2 (slotOk nb hn0) slots evs -> ~ In ev evs ->
  bindingCalls ev (allUnsub slots) = [].
Proof.
  induction 1 as [|s e slots evs H F IH]; simpl; intros N; [reflexivity|].
  rewrite bindingCalls_app.
  rewrite (bindingCalls_closeCall ev e (sl_binding s))
    by (intros b; now apply slotOk_event with (nb := nb) (hn := hn0)).
  destruct (EventName_eq_dec e ev) as [->|_]; [tauto|].
  apply IH. tauto.
Qed.

Lemma bindingCalls_allUnsub nb hn0 slots evs ev :
  NoDup evs -> Forall2 (slotOk nb hn0) slots evs -> In ev evs ->
  bindingCalls ev (allUnsub slots)
  = closeCall (sl_binding (slotOf ev slots evs)).
Proof.
  intros ND F. induction F as [|s e slots evs H F IH]; simpl; [tauto|].
  inversion ND as [|? ? Nin ND']; subst. intros I.
  rewrite bindingCalls_app.
  rewrite (bindingCalls_closeCall ev e (sl_binding s))
    by (intros b; now apply slotOk_event with (nb := nb) (hn := hn0)).
  destruct (EventName_eq_dec e ev) as [->|Ne].
  - rewrite (bindingCalls_allUnsub_other nb hn0 slots evs ev F Nin).
    apply app_nil_r.
  - destruct I as [->|I]; [contradiction|]. exact (IH ND' I).
Qed.

(** The slot of [ev] through an effect pass: untouched when the handler is
    the same reference, else rebound on the current terminal with a fresh
    binding (or left empty when the handler is not a function). *)
Lemma slotsRebind_slot x hn0 hn slots evs ev :
  NoDup evs ->
  forall nb, Forall2 (slotOk nb hn0) slots evs ->
  forall t nb' slots',
  slotsRebind (Some x) nb slots hn evs = (t, nb', slots') ->
  In ev evs ->
  if JsVal_eq_dec (hn ev) (sl_handler (slotOf ev slots evs))
  then bindingCalls ev t = [] /\
       sl_binding (slotOf ev slots' evs) = sl_binding (slotOf ev slots evs)
  else bindingCalls ev t = openCall (sl_binding (slotOf ev slots' evs)) /\
       forall b, sl_binding (slotOf ev slots' evs) = Some b ->
                 b_term b = x /\ nb <= b_id b.
Proof.
  intros ND. revert evs ND.
  induction slots as [|s slots IH]; intros evs ND nb F t nb' slots' E I;
    inversion F as [|s0 e sl el Hs Hrest]; subst; simpl in E; [destruct I|].
  destruct (slotRebind (Some x) nb s e (hn e)) as [[t1 nb1] s1] eqn:E1.
  destruct (slotsRebind (Some x) nb1 slots hn el) as [[t2 nb2] ss] eqn:E2.
  inversion E; subst; clear E.
  inversion ND as [|? ? Nin ND']; subst.
  destruct (slotRebind_spec _ _ _ _ _ _ _ _ _ Hs E1) as (L1 & Ok1 & Sp).
  assert (F1 : Forall2 (slotOk nb1 hn0) slots el).
  { eapply Forall2_impl; [|exact Hrest]. intros a b. now apply slotOk_mono. }
  destruct (slotsRebind_trace _ _ _ _ _ _ F1 _ _ _ E2) as (bs & -> & _ & Fa).
  rewrite bindingCalls_app. simpl slotOf.
  destruct (EventName_eq_dec e ev) as [->|Ne].
  - rewrite (bindingCalls_subscribes_other ev bs el), app_nil_r.
    2:{ eapply Forall_impl; [|exact Fa]. simpl; tauto. }
    2:{ exact Nin. }
    destruct (JsVal_eq_dec (hn ev) (sl_handler s)).
    + destruct Sp as (-> & _ & ->). auto.
    + destruct Sp as (-> & Sp). split.
      * rewrite (bindingCalls_openCall ev ev).
        -- destruct (EventName_eq_dec ev ev); [reflexivity|contradiction].
        -- intros b. apply slotOk_event with (nb := nb1) (hn := hn). exact Ok1.
      * intros b B. destruct (hn ev); destruct Sp as (B' & _);
          rewrite B' in B; inversion B; subst; simpl. auto.
  - destruct I as [->|I]; [contradiction|].
    assert (T1 : bindingCalls ev t1 = []).
    { destruct (JsVal_eq_dec (hn e) (sl_handler s)).
      - destruct Sp as (-> & _). reflexivity.
      - destruct Sp as (-> & _).
        rewrite (bindingCalls_openCall ev e).
        + destruct (EventName_eq_dec e ev); [contradiction|reflexivity].
        + intros b. apply slotOk_event with (nb := nb1) (hn := hn). exact Ok1. }
    rewrite T1. simpl app.
    pose proof (IH el ND' nb1 F1 _ _ _ E2 I) as R.
    destruct (JsVal_eq_dec (hn ev) (sl_handler (slotOf ev slots el))).
    + exact R.
    + destruct R as (R1 & R2). split; [exact R1|].
      intros b B. destruct (R2 b B). split; [assumption|lia].
Qed.

(** ** Calls that touch no binding *)

Lemma quiet_bindingCalls ev t : quiet t -> bindingCalls ev t = [].
Proof.
  induction 1 as [|e t He _ IH]; simpl; [reflexivity|].
  destruct e; simpl in *; try discriminate; exact IH.
Qed.

Lemma quiet_subscribed t : quiet t -> subscribed t = [].
Proof.
  induction 1 as [|e t He _ IH]; simpl; [reflexivity|].
  destruct e; simpl in *; try discriminate; exact IH.
Qed.

Lemma quiet_app t1 t2 : quiet t1 -> quiet t2 -> quiet (t1 ++ t2).
Proof. unfold quiet. intros. apply Forall_app. auto. Qed.

Lemma quiet_nil : quiet [].
Proof. constructor. Qed.

Lemma quiet_teardownCalls env od x : quiet (teardownCalls env od x).
Proof.
  unfold teardownCalls, onDisposeCall, disposeCalls.
  destruct od; destruct (dispose_throws env x); repeat constructor.
Qed.

Lemma quiet_loads x l : quiet (map (ELoadAddon x) l).
Proof. induction l; simpl; constructor; auto. Qed.

Lemma quiet_constructCalls x d p : quiet (constructCalls x d p).
Proof.
  unfold constructCalls. constructor; [reflexivity|].
  apply quiet_app; [apply quiet_loads|].
  unfold attachCalls. destruct (truthy _); repeat constructor.
Qed.

Lemma quiet_initCalls cur oi : quiet (initCalls cur oi).
Proof. destruct cur, oi; repeat constructor. Qed.

Lemma subscribed_app t1 t2 : subscribed (t1 ++ t2) = subscribed t1 ++ subscribed t2.
Proof.
  induction t1 as [|e t1 IH]; simpl; [reflexivity|].
  destruct e; simpl; congruence.
Qed.

Lemma subscribed_subscribes bs : subscribed (map ESubscribe bs) = bs.
Proof. induction bs; simpl; congruence. Qed.

Lemma subscribed_slotsUnsub slots hn evs :
  subscribed (slotsUnsub slots hn evs) = [].
Proof.
  revert evs. induction slots as [|s slots IH]; intros [|e evs]; simpl; auto.
  rewrite subscribed_app, IH, app_nil_r. unfold slotUnsub.
  destruct (JsVal_eq_dec _ _); [reflexivity|].
  destruct (sl_binding s); reflexivity.
Qed.

Lemma subscribed_allUnsub slots : subscribed (allUnsub slots) = [].
Proof.
  induction slots as [|s slots IH]; simpl; auto.
  rewrite subscribed_app, IH, app_nil_r. destruct (sl_binding s); reflexivity.
Qed.

(** ** What every mounted [Xterm] satisfies *)

Lemma pairs_snoc bs b :
  pairs (bs ++ [b]) = pairs bs ++ [ESubscribe b; EUnsubscribe b].
Proof. unfold pairs. rewrite flat_map_app. simpl. reflexivity. Qed.

Lemma NoDup_ids_seq ids nb k :
  Forall (fun i => i < nb) ids -> NoDup ids -> NoDup (ids ++ seq nb k).
Proof.
  intros F ND. induction ND as [|i ids Ni ND IH]; simpl.
  - apply seq_NoDup.
  - inversion F; subst. constructor; [|auto].
    rewrite in_app_iff, in_seq. intros [?|?]; [contradiction|lia].
Qed.

Lemma BInv_step x nb nb' hn0 hn slots slots' tr pre mid post T :
  BInv nb hn0 slots tr ->
  slotsRebind (Some x) nb slots hn eventNames = (T, nb', slots') ->
  quiet pre -> quiet mid -> quiet post ->
  BInv nb' hn slots'
       (tr ++ pre ++ slotsUnsub slots hn eventNames ++ mid ++ T ++ post).
Proof.
  intros [Sl Ids ND Calls] E Qpre Qmid Qpost.
  destruct (slotsRebind_ok _ _ _ _ _ _ Sl _ _ _ E) as (Lnb & Sl').
  destruct (slotsRebind_trace _ _ _ _ _ _ Sl _ _ _ E) as (bs & HT & Hids & Hbs).
  assert (Sub : subscribed (tr ++ pre ++ slotsUnsub slots hn eventNames
                            ++ mid ++ T ++ post) = subscribed tr ++ bs).
  { rewrite !subscribed_app, subscribed_slotsUnsub.
    rewrite (quiet_subscribed _ Qpre), (quiet_subscribed _ Qmid),
      (quiet_subscribed _ Qpost).
    simpl. rewrite app_nil_r, HT, subscribed_subscribes. reflexivity. }
  split.
  - exact Sl'.
  - rewrite Sub. apply Forall_app. split.
    + eapply Forall_impl; [|exact Ids]. simpl. intros; lia.
    + apply Forall_forall. intros b Hb.
      assert (I : In (b_id b) (seq nb (nb' - nb))).
      { rewrite <- Hids. now apply in_map. }
      apply in_seq in I. lia.
  - rewrite Sub, map_app, Hids. apply NoDup_ids_seq; [|exact ND].
    apply Forall_forall. intros i Hi. apply in_map_iff in Hi.
    destruct Hi as (b & <- & Hb).
    rewrite Forall_forall in Ids. now apply Ids.
  - intros ev. destruct (Calls ev) as (closed & Hc).
    rewrite !bindingCalls_app, Hc.
    rewrite (quiet_bindingCalls ev _ Qpre), (quiet_bindingCalls ev _ Qmid),
      (quiet_bindingCalls ev _ Qpost).
    rewrite (bindingCalls_slotsUnsub nb hn0 hn slots eventNames ev
               NoDup_eventNames Sl (in_eventNames ev)).
    pose proof (slotsRebind_slot x hn0 hn slots eventNames ev NoDup_eventNames
                  nb Sl _ _ _ E (in_eventNames ev)) as R.
    unfold slotUnsub.
    destruct (JsVal_eq_dec (hn ev) (sl_handler (slotOf ev slots eventNames))).
    + destruct R as (-> & ->). exists closed. simpl. now rewrite app_nil_r.
    + destruct R as (-> & _). simpl. rewrite app_nil_r.
      destruct (sl_binding (slotOf ev slots eventNames)) as [b|].
      * exists (closed ++ [b]). rewrite pairs_snoc. simpl.
        rewrite <- !app_assoc. reflexivity.
      * exists closed. simpl. rewrite app_nil_r. reflexivity.
Qed.

Lemma otherValue_neq v : v <> otherValue v.
Proof. destruct v; discriminate. Qed.

Lemma slotsBind_rebind cur hn evs : forall nb,
  slotsBind cur nb hn evs = slotsRebind cur nb (emptySlots hn evs) hn evs.
Proof.
  induction evs as [|ev evs IH]; intros nb; simpl; [reflexivity|].
  unfold slotRebind at 1. simpl.
  destruct (JsVal_eq_dec (hn ev) (otherValue (hn ev))) as [Q|_].
  - destruct (otherValue_neq _ Q).
  - destruct (slotBind cur nb ev (hn ev)) as [[t1 nb1] s1].
    now rewrite IH.
Qed.

Lemma slotsUnsub_empty hn evs : slotsUnsub (emptySlots hn evs) hn evs = [].
Proof.
  induction evs as [|ev evs IH]; simpl; [reflexivity|].
  rewrite IH. unfold slotUnsub. simpl.
  destruct (JsVal_eq_dec _ _); reflexivity.
Qed.

Lemma emptySlots_ok nb hn evs :
  Forall2 (slotOk nb (fun ev => otherValue (hn ev))) (emptySlots hn evs) evs.
Proof.
  induction evs as [|ev evs IH]; simpl; constructor; [|exact IH].
  split; [reflexivity|]. simpl. destruct (hn ev); reflexivity.
Qed.

Lemma slotOf_emptySlots ev hn evs :
  sl_binding (slotOf ev (emptySlots hn evs) evs) = None.
Proof.
  induction evs as [|e evs IH]; simpl; [reflexivity|].
  destruct (EventName_eq_dec e ev); [reflexivity|exact IH].
Qed.

Lemma BInv_mount x nb nb' hn slots' pre post T :
  slotsBind (Some x) nb hn eventNames = (T, nb', slots') ->
  quiet pre -> quiet post ->
  BInv nb' hn slots' (pre ++ T ++ post).
Proof.
  intros E Qpre Qpost. rewrite slotsBind_rebind in E.
  assert (B0 : BInv nb (fun ev => otherValue (hn ev))
                    (emptySlots hn eventNames) []).
  { split.
    - apply emptySlots_ok.
    - constructor.
    - constructor.
    - intros ev. exists []. now rewrite slotOf_emptySlots. }
  pose proof (BInv_step x nb nb' _ hn _ slots' [] pre [] post T B0 E Qpre
                        quiet_nil Qpost) as B.
  rewrite slotsUnsub_empty in B. exact B.
Qed.

(** ** Terminals named by the calls *)

Lemma attachedTo_app x t1 t2 :
  attachedTo x (t1 ++ t2) = attachedTo x t1 ++ attachedTo x t2.
Proof. apply filter_app. Qed.

Lemma attachedTo_none x t :
  Forall (fun e => isAttachKey e = false) t -> attachedTo x t = [].
Proof.
  induction 1 as [|e t He _ IH]; simpl; [reflexivity|].
  destruct e; simpl in *; try discriminate; exact IH.
Qed.

Lemma attachedTo_fresh x t : Forall (known x) t -> attachedTo x t = [].
Proof.
  induction 1 as [|e t He _ IH]; simpl; [reflexivity|].
  destruct e; simpl in *; try exact IH.
  destruct (Nat.eqb_spec t0 x); [lia|exact IH].
Qed.

Lemma notDisposed_fresh x t : Forall (known x) t -> ~ In (EDispose x) t.
Proof.
  induction 1 as [|e t He _ IH]; simpl; [tauto|].
  intros [->|I]; [simpl in He; lia|auto].
Qed.

Lemma known_mono nt nt' t : nt <= nt' -> Forall (known nt) t -> Forall (known nt') t.
Proof.
  intros L F. eapply Forall_impl; [|exact F].
  intros e. destruct e; simpl; try tauto; lia.
Qed.

Lemma noAttach_teardownCalls env od x :
  Forall (fun e => isAttachKey e = false) (teardownCalls env od x).
Proof.
  unfold teardownCalls, onDisposeCall, disposeCalls.
  destruct od; destruct (dispose_throws env x); repeat constructor.
Qed.

Lemma noAttach_slotsUnsub slots hn evs :
  Forall (fun e => isAttachKey e = false) (slotsUnsub slots hn evs).
Proof.
  revert evs. induction slots as [|s slots IH]; intros [|e evs]; simpl;
    try constructor.
  apply Forall_app. split; [|apply IH].
  unfold slotUnsub. destruct (JsVal_eq_dec _ _); [constructor|].
  destruct (sl_binding s); repeat constructor.
Qed.

Lemma attachedTo_constructCalls x d p :
  attachedTo x (constructCalls x d p)
  = attachCalls x (customKeyEventHandler p).
Proof.
  unfold constructCalls, attachCalls. simpl.
  rewrite !attachedTo_app.
  rewrite (attachedTo_none x (map (ELoadAddon x) (addonList p))).
  2:{ induction (addonList p); simpl; constructor; auto. }
  destruct (truthy _); simpl; [|reflexivity].
  now rewrite Nat.eqb_refl.
Qed.

Lemma known_teardownCalls env od x nt :
  x < nt -> Forall (known nt) (teardownCalls env od x).
Proof.
  intros L. unfold teardownCalls, onDisposeCall, disposeCalls.
  destruct od; destruct (dispose_throws env x); repeat constructor; exact L.
Qed.

Lemma known_constructCalls x d p nt :
  x < nt -> Forall (known nt) (constructCalls x d p).
Proof.
  intros L. unfold constructCalls, attachCalls. constructor; [exact L|].
  apply Forall_app. split.
  - induction (addonList p); simpl; constructor; simpl; auto.
  - destruct (truthy _); repeat constructor; exact L.
Qed.

Lemma plain_app t1 t2 : plain t1 -> plain t2 -> plain (t1 ++ t2).
Proof. unfold plain. intros. apply Forall_app. auto. Qed.

Lemma plain_noAttach t : plain t -> Forall (fun e => isAttachKey e = false) t.
Proof. intros F. eapply Forall_impl; [|exact F]. simpl. tauto. Qed.

Lemma plain_notDisposed x t : plain t -> ~ In (EDispose x) t.
Proof.
  intros F I. unfold plain in F. rewrite Forall_forall in F.
  destruct (F _ I) as (_ & _ & D). discriminate.
Qed.

Lemma known_unattached nt t :
  plain t -> Forall (known nt) t.
Proof.
  intros F. eapply Forall_impl; [|exact F].
  intros e (H1 & H2 & H3). destruct e; simpl in *; try discriminate; exact I.
Qed.

Lemma plain_slotsUnsub slots hn evs :
  plain (slotsUnsub slots hn evs).
Proof.
  unfold plain.
  revert evs. induction slots as [|s slots IH]; intros [|e evs]; simpl;
    try constructor.
  apply Forall_app. split; [|apply IH].
  unfold slotUnsub. destruct (JsVal_eq_dec _ _); [constructor|].
  destruct (sl_binding s); repeat constructor.
Qed.

Lemma plain_subscribes bs :
  plain (map ESubscribe bs).
Proof. induction bs; simpl; constructor; auto. Qed.

Lemma plain_initCalls cur oi :
  plain (initCalls cur oi).
Proof. destruct cur, oi; repeat constructor. Qed.

Section Invariant.

Variable env : Env.

Ltac proj_simpl :=
  cbn [out_trace out_heap out_res sh_term sh_options sh_onDispose sh_slots
       sh_initDep divRef xtermRef nextTerm nextBinding withNextBinding] in *.

Lemma slotsBind_trace x hn evs nb t nb' slots' :
  slotsBind (Some x) nb hn evs = (t, nb', slots') ->
  exists bs, t = map ESubscribe bs /\ map b_id bs = seq nb (nb' - nb) /\
             Forall (fun b => b_term b = x /\ In (b_event b) evs) bs.
Proof.
  rewrite slotsBind_rebind.
  apply slotsRebind_trace with (hn0 := fun ev => otherValue (hn ev)).
  apply emptySlots_ok.
Qed.

Lemma quiet_initPart (b : bool) cur oi :
  quiet (if b then [] else initCalls cur oi).
Proof. destruct b; [constructor|apply quiet_initCalls]. Qed.

Lemma not_in_app (e : Event) t1 t2 :
  ~ In e t1 -> ~ In e t2 -> ~ In e (t1 ++ t2).
Proof. rewrite in_app_iff. tauto. Qed.

Lemma notDisposed_constructCalls x y d p : ~ In (EDispose x) (constructCalls y d p).
Proof.
  unfold constructCalls, attachCalls. simpl. intros [H|H]; [discriminate|].
  rewrite !in_app_iff, in_map_iff in H.
  destruct H as [(a & H & _)|[H|H]]; [discriminate| |].
  - destruct (truthy _); simpl in H; [destruct H as [H|[]]; discriminate|tauto].
  - destruct H as [H|[]]; discriminate.
Qed.

Lemma notDisposed_teardownCalls x y od :
  x <> y -> ~ In (EDispose x) (teardownCalls env od y).
Proof.
  intros N. unfold teardownCalls, onDisposeCall, disposeCalls.
  rewrite in_app_iff. simpl.
  destruct od; destruct (dispose_throws env y); simpl;
    intuition (try discriminate; try congruence).
Qed.

(** The first commit establishes the invariant. *)
Lemma mount_inv d p h0 f :
  out_res (mount env d p h0) = Ok f ->
  exists s,
    f = fiberOf env s /\
    Inv d p p s (out_heap (mount env d p h0)) (out_trace (mount env d p h0)) /\
    sh_term s = nextTerm h0 /\ sh_initDep s = None /\
    firstFailure env (nextTerm h0) (addonList p) = None.
Proof.
  intros R.
  destruct (firstFailure env (nextTerm h0) (addonList p)) as [[[pre a] e]|] eqn:F.
  { rewrite (mount_throw env d p h0 pre a e F) in R. discriminate. }
  destruct (slotsBind (Some (nextTerm h0)) (nextBinding h0) (handlerOf p)
                      eventNames) as [[T nb] slots] eqn:E.
  rewrite (mount_ok env d p h0 T nb slots F E) in *. proj_simpl.
  inversion R; subst f; clear R.
  eexists. split; [reflexivity|]. proj_simpl.
  destruct (slotsBind_trace _ _ _ _ _ _ _ E) as (bs & HT & _ & _).
  split; [|auto]. split; proj_simpl; try reflexivity.
  - apply (BInv_mount (nextTerm h0) (nextBinding h0) nb (handlerOf p) slots
             _ _ T E).
    + apply quiet_constructCalls.
    + apply quiet_initCalls.
  - lia.
  - apply Forall_app. split; [apply known_constructCalls; lia|].
    apply known_unattached. apply plain_app.
    + rewrite HT. apply plain_subscribes.
    + apply plain_initCalls.
  - apply not_in_app; [apply notDisposed_constructCalls|].
    apply plain_notDisposed. apply plain_app.
    + rewrite HT. apply plain_subscribes.
    + apply plain_initCalls.
  - rewrite attachedTo_app, attachedTo_constructCalls.
    rewrite (attachedTo_none (nextTerm h0) (T ++ _)); [apply app_nil_r|].
    apply plain_noAttach, plain_app.
    + rewrite HT. apply plain_subscribes.
    + apply plain_initCalls.
Qed.

(** Every later commit that completes preserves it. *)
Lemma update_inv d c l s h tr p f :
  Inv d c l s h tr ->
  out_res (update env p (fiberOf env s) h) = Ok f ->
  exists s',
    f = fiberOf env s' /\
    Inv d (if optnat_eq_dec (options p) (options c) then c else p) p s'
        (out_heap (update env p (fiberOf env s) h))
        (tr ++ out_trace (update env p (fiberOf env s) h)) /\
    sh_initDep s' = Some (sh_term s) /\
    (options p = options c -> sh_term s' = sh_term s).
Proof.
  intros [D X O C OD B Fr Kn Lv At] R.
  pose proof (Forall2_length (binv_slots _ _ _ _ B)) as L.
  destruct (optnat_eq_dec (options p) (options c)) as [Q|Q].
  - (* the identity of [options] is kept *)
    destruct (slotsRebind (Some (sh_term s)) (nextBinding h) (sh_slots s)
                          (handlerOf p) eventNames) as [[T nb] slots] eqn:E.
    assert (Q' : options p = sh_options s) by congruence.
    rewrite (update_keep env p s h d T nb slots D X L Q' E) in *.
    proj_simpl. inversion R; subst f; clear R.
    eexists. split; [reflexivity|]. proj_simpl.
    destruct (slotsRebind_trace _ _ _ _ _ _ (binv_slots _ _ _ _ B) _ _ _ E)
      as (bs & HT & _ & _).
    assert (P : plain (slotsUnsub (sh_slots s) (handlerOf p) eventNames ++ T
                       ++ (if optnat_eq_dec (Some (sh_term s)) (sh_initDep s)
                           then [] else initCalls (Some (sh_term s)) (onInit p)))).
    { apply plain_app; [apply plain_slotsUnsub|]. apply plain_app.
      - rewrite HT. apply plain_subscribes.
      - destruct (optnat_eq_dec _ _); [constructor|apply plain_initCalls]. }
    split; [|auto].
    split; proj_simpl; try assumption; try congruence.
    + pose proof (BInv_step (sh_term s) _ _ _ (handlerOf p) _ _ tr [] [] _ T
                    B E quiet_nil quiet_nil
                    (quiet_initPart
                       (if optnat_eq_dec (Some (sh_term s)) (sh_initDep s)
                        then true else false)
                       (Some (sh_term s)) (onInit p))) as B'.
      rewrite !app_nil_l in B'.
      destruct (optnat_eq_dec (Some (sh_term s)) (sh_initDep s)); exact B'.
    + apply Forall_app. split; [exact Kn|]. now apply known_unattached.
    + apply not_in_app; [exact Lv|]. now apply plain_notDisposed.
    + rewrite attachedTo_app, At.
      rewrite (attachedTo_none (sh_term s) _ (plain_noAttach _ P)).
      apply app_nil_r.
  - (* a new [options] object: teardown and construction *)
    assert (Q' : options p <> sh_options s) by congruence.
    destruct (firstFailure env (nextTerm h) (addonList p))
      as [[[pre a] e]|] eqn:F.
    { rewrite (update_recreate_throw env p s h d pre a e D X L Q' F) in R.
      discriminate. }
    destruct (slotsRebind (Some (nextTerm h)) (nextBinding h) (sh_slots s)
                          (handlerOf p) eventNames) as [[T nb] slots] eqn:E.
    rewrite (update_recreate env p s h d T nb slots D X L Q' F E) in *.
    proj_simpl. inversion R; subst f; clear R.
    eexists. split; [reflexivity|]. proj_simpl.
    destruct (slotsRebind_trace _ _ _ _ _ _ (binv_slots _ _ _ _ B) _ _ _ E)
      as (bs & HT & _ & _).
    assert (P : plain (T ++ (if optnat_eq_dec (Some (sh_term s)) (sh_initDep s)
                             then [] else initCalls (Some (nextTerm h))
                                                    (onInit p)))).
    { apply plain_app.
      - rewrite HT. apply plain_subscribes.
      - destruct (optnat_eq_dec _ _); [constructor|apply plain_initCalls]. }
    split; [|split; [reflexivity|intros; contradiction]].
    split; proj_simpl; try reflexivity.
    + pose proof (BInv_step (nextTerm h) _ _ _ (handlerOf p) _ _ tr
                    (teardownCalls env (sh_onDispose s) (sh_term s))
                    (constructCalls (nextTerm h) d p) _ T
                    B E (quiet_teardownCalls _ _ _)
                    (quiet_constructCalls _ _ _)
                    (quiet_initPart
                       (if optnat_eq_dec (Some (sh_term s)) (sh_initDep s)
                        then true else false)
                       (Some (nextTerm h)) (onInit p))) as B'.
      destruct (optnat_eq_dec (Some (sh_term s)) (sh_initDep s)); exact B'.
    + lia.
    + apply Forall_app. split; [apply known_mono with (nt := nextTerm h); [lia|exact Kn]|].
      apply Forall_app. split; [apply known_teardownCalls; lia|].
      apply Forall_app. split; [apply known_unattached, plain_slotsUnsub|].
      apply Forall_app. split; [apply known_constructCalls; lia|].
      now apply known_unattached.
    + apply not_in_app; [now apply notDisposed_fresh|].
      apply not_in_app; [apply notDisposed_teardownCalls; lia|].
      apply not_in_app; [apply plain_notDisposed, plain_slotsUnsub|].
      apply not_in_app; [apply notDisposed_constructCalls|].
      now apply plain_notDisposed.
    + rewrite attachedTo_app, (attachedTo_fresh _ _ Kn).
      rewrite attachedTo_app,
        (attachedTo_none _ _ (noAttach_teardownCalls _ _ _)).
      rewrite attachedTo_app,
        (attachedTo_none _ _ (noAttach_slotsUnsub _ _ _)).
      rewrite attachedTo_app, attachedTo_constructCalls.
      rewrite (attachedTo_none _ _ (plain_noAttach _ P)).
      rewrite !app_nil_r. reflexivity.
Qed.

Lemma bind_ok_inv A B (m : M A) (k : A -> M B) h b :
  out_res (bind m k h) = Ok b ->
  exists a, out_res (m h) = Ok a /\
            bind m k h = prepend (out_trace (m h)) (k a (out_heap (m h))).
Proof.
  unfold bind. destruct (out_res (m h)) as [a|e]; intros R.
  - exists a. split; reflexivity.
  - discriminate.
Qed.

Lemma last_default (A : Type) (l : list A) a d1 d2 :
  last (a :: l) d1 = last (a :: l) d2.
Proof.
  revert a. induction l as [|b l IH]; intros a; [reflexivity|].
  change (last (b :: l) d1 = last (b :: l) d2). apply IH.
Qed.

Lemma last_cons (A : Type) (l : list A) a d : last (a :: l) d = last l a.
Proof.
  destruct l as [|b l]; [reflexivity|].
  change (last (b :: l) d = last (b :: l) a). apply last_default.
Qed.

Lemma updates_inv d ps : forall c l s h tr f,
  Inv d c l s h tr ->
  out_res (updates env ps (fiberOf env s) h) = Ok f ->
  exists s',
    f = fiberOf env s' /\
    Inv d (constructing c ps) (last ps l) s'
        (out_heap (updates env ps (fiberOf env s) h))
        (tr ++ out_trace (updates env ps (fiberOf env s) h)).
Proof.
  induction ps as [|p ps IH]; intros c l s h tr f I R.
  - simpl in *. inversion R; subst. exists s. rewrite app_nil_r. auto.
  - cbn [updates] in *.
    destruct (bind_ok_inv _ _ _ _ _ _ R) as (f1 & R1 & Eq).
    rewrite Eq in *. cbn [out_res out_heap out_trace prepend] in *.
    destruct (update_inv d c l s h tr p f1 I R1) as (s1 & -> & I1 & _).
    destruct (IH _ _ _ _ _ _ I1 R) as (s' & -> & I').
    exists s'. split; [reflexivity|].
    rewrite last_cons. cbn [constructing]. rewrite app_assoc. exact I'.
Qed.

(** Every mounted [Xterm] is in a state the invariant describes. *)
Lemma mounted_inv d p0 ps h0 f :
  out_res (mounted env d p0 ps h0) = Ok f ->
  exists s,
    f = fiberOf env s /\
    Inv d (constructing p0 ps) (last ps p0) s
        (out_heap (mounted env d p0 ps h0))
        (out_trace (mounted env d p0 ps h0)).
Proof.
  unfold mounted. intros R.
  destruct (bind_ok_inv _ _ _ _ _ _ R) as (f1 & R1 & Eq).
  rewrite Eq in *. cbn [out_res out_heap out_trace prepend] in *.
  destruct (mount_inv d p0 h0 f1 R1) as (s1 & -> & I1 & _).
  exact (updates_inv d ps _ _ _ _ _ _ I1 R).
Qed.

End Invariant.

(** ** Kinds of calls *)

Lemma filter_allOf (Q : Event -> bool) k t :
  (forall e, kindOf e = k -> Q e = false) -> allOf k t -> filter Q t = [].
Proof.
  intros H F. induction F as [|e t He _ IH]; simpl; [reflexivity|].
  now rewrite (H e He).
Qed.

Lemma allOf_app k t1 t2 : allOf k t1 -> allOf k t2 -> allOf k (t1 ++ t2).
Proof. unfold allOf. intros. apply Forall_app. auto. Qed.

Lemma allOf_slotsUnsub slots hn evs : allOf KBinding (slotsUnsub slots hn evs).
Proof.
  unfold allOf.
  revert evs. induction slots as [|s slots IH]; intros [|e evs]; simpl;
    try constructor.
  apply Forall_app. split; [|apply IH].
  unfold slotUnsub. destruct (JsVal_eq_dec _ _); [constructor|].
  destruct (sl_binding s); repeat constructor.
Qed.

Lemma allOf_allUnsub slots : allOf KBinding (allUnsub slots).
Proof.
  unfold allOf. induction slots as [|s slots IH]; simpl; [constructor|].
  apply Forall_app. split; [|exact IH].
  destruct (sl_binding s); repeat constructor.
Qed.

Lemma allOf_subscribes bs : allOf KBinding (map ESubscribe bs).
Proof. unfold allOf. induction bs; simpl; constructor; auto. Qed.

Lemma allOf_initCalls cur oi : allOf KInit (initCalls cur oi).
Proof. destruct cur, oi; repeat constructor. Qed.

Lemma allOf_loads x l : allOf KConstruct (map (ELoadAddon x) l).
Proof. unfold allOf. induction l; simpl; constructor; auto. Qed.

Lemma allOf_constructCalls x d p : allOf KConstruct (constructCalls x d p).
Proof.
  unfold constructCalls, attachCalls. constructor; [reflexivity|].
  apply allOf_app; [apply allOf_loads|].
  destruct (truthy _); repeat constructor.
Qed.

Lemma allOf_teardownCalls env od x : allOf KTeardown (teardownCalls env od x).
Proof.
  unfold teardownCalls, onDisposeCall, disposeCalls.
  destruct od; destruct (dispose_throws env x); repeat constructor.
Qed.

Lemma filter_app_nil (Q : Event -> bool) t1 t2 :
  filter Q t1 = [] -> filter Q t2 = [] -> filter Q (t1 ++ t2) = [].
Proof. intros H1 H2. now rewrite filter_app, H1, H2. Qed.

(** * The lifecycle contract *)

(** ** Teardown *)

(** C4: an error raised by the instance's [dispose] during teardown is caught
    and logged, never re-raised.  For every mounted adapter with live
    instance [x]: unmounting returns normally and leaves [xtermRef.current]
    null; when [dispose] throws [e], [console.log e] is the call right after
    [x.dispose()], both at unmount and in the teardown that precedes a
    re-construction, which then goes on to construct the new instance. *)
Theorem C4_dispose_error_caught_and_logged env d p0 ps h0 f :
  out_res (mounted env d p0 ps h0) = Ok f ->
  exists x,
    xtermRef (out_heap (mounted env d p0 ps h0)) = Some x /\
    out_res (unmount f (out_heap (mounted env d p0 ps h0))) = Ok tt /\
    xtermRef (out_heap (unmount f (out_heap (mounted env d p0 ps h0)))) = None /\
    (forall e, dispose_throws env x = Some e ->
       exists t1 t2,
         out_trace (unmount f (out_heap (mounted env d p0 ps h0)))
         = t1 ++ EDispose x :: ELog e :: t2) /\
    (forall p e,
       options p <> options (last ps p0) ->
       dispose_throws env x = Some e ->
       exists t1 t2,
         out_trace (update env p f (out_heap (mounted env d p0 ps h0)))
         = t1 ++ EDispose x :: ELog e :: t2 /\
         In (ENew (nextTerm (out_heap (mounted env d p0 ps h0))) (options p)) t2).
Proof.
  intros R. destruct (mounted_inv env d p0 ps h0 f R) as (s & -> & I).
  set (h := out_heap (mounted env d p0 ps h0)) in *.
  exists (sh_term s). split; [apply (inv_term _ _ _ _ _ _ I)|].
  rewrite unmount_eq. cbn [out_res out_heap out_trace xtermRef].
  split; [reflexivity|]. split; [reflexivity|]. split.
  - intros e De. exists (onDisposeCall (sh_onDispose s) (sh_term s)).
    exists (allUnsub (sh_slots s)).
    unfold teardownCalls, disposeCalls. rewrite De, <- app_assoc. reflexivity.
  - intros p e Np De.
    destruct I as [D X O C OD B Fr Kn Lv At].
    pose proof (Forall2_length (binv_slots _ _ _ _ B)) as L.
    assert (Q' : options p <> sh_options s) by (rewrite O; exact Np).
    exists (onDisposeCall (sh_onDispose s) (sh_term s)).
    destruct (firstFailure env (nextTerm h) (addonList p))
      as [[[pre a] e']|] eqn:F.
    + rewrite (update_recreate_throw env p s h d pre a e' D X L Q' F).
      cbn [out_trace].
      eexists. unfold teardownCalls, disposeCalls. rewrite De.
      rewrite <- !app_assoc. split; [reflexivity|].
      rewrite in_app_iff. right. left. reflexivity.
    + destruct (slotsRebind (Some (nextTerm h)) (nextBinding h) (sh_slots s)
                            (handlerOf p) eventNames) as [[T nb] slots] eqn:E.
      rewrite (update_recreate env p s h d T nb slots D X L Q' F E).
      cbn [out_trace].
      eexists. unfold teardownCalls, disposeCalls. rewrite De.
      rewrite <- !app_assoc. split; [reflexivity|].
      rewrite in_app_iff. right. unfold constructCalls.
      rewrite <- app_comm_cons. left. reflexivity.
Qed.

(** The echo example under [failingDispose]: unmounting still completes, and
    so does the teardown before a re-construction with new [options]. *)
Lemma C4_witness :
  exists f,
    out_res (mounted failingDispose 0 echoProps [] heap0) = Ok f /\
    out_res (unmount f (out_heap (mounted failingDispose 0 echoProps [] heap0)))
    = Ok tt /\
    xtermRef (out_heap (unmount f (out_heap (mounted failingDispose 0 echoProps
                                                     [] heap0)))) = None /\
    (exists t1 t2,
       out_trace (unmount f (out_heap (mounted failingDispose 0 echoProps []
                                               heap0)))
       = t1 ++ EDispose 0 :: ELog 9 :: t2) /\
    (exists t1 t2,
       out_trace (update failingDispose (withOptions (Some 7) echoProps) f
                    (out_heap (mounted failingDispose 0 echoProps [] heap0)))
       = t1 ++ EDispose 0 :: ELog 9 :: t2 /\
       In (ENew 1 (Some 7)) t2).
Proof.
  assert (R : exists f,
             out_res (mounted failingDispose 0 echoProps [] heap0) = Ok f)
    by (eexists; vm_compute; reflexivity).
  destruct R as (f & R). exists f. split; [exact R|].
  destruct (C4_dispose_error_caught_and_logged failingDispose 0 echoProps []
              heap0 f R) as (x & Hx & H1 & H2 & H3 & H4).
  assert (E : x = 0) by (vm_compute in Hx; injection Hx; auto). subst x.
  split; [exact H1|]. split; [exact H2|]. split.
  - exact (H3 9 eq_refl).
  - apply (H4 (withOptions (Some 7) echoProps) 9); [discriminate|reflexivity].
Defined.

Lemma filter_logPart (Q : Event -> bool) env x rest :
  (forall e, Q (ELog e) = false) ->
  filter Q rest = [] ->
  filter Q (match dispose_throws env x with
            | Some e => [ELog e]
            | None => []
            end ++ rest) = [].
Proof.
  intros H Hr. destruct (dispose_throws env x); simpl; [rewrite H|]; exact Hr.
Qed.

(** C3, as worded, does not hold of the [onDispose] prop of a later render:
    a callback first supplied after the mount is not invoked at unmount, and
    one withdrawn after the mount still is. *)
Lemma C3_later_onDispose_not_invoked :
  (exists f,
     out_res (mounted quietEnv 0 noProps [withOnDispose (JFun 2) noProps] heap0)
     = Ok f /\
     onDispose (last [withOnDispose (JFun 2) noProps] noProps) = JFun 2 /\
     out_trace (unmount f (out_heap (mounted quietEnv 0 noProps
                                       [withOnDispose (JFun 2) noProps] heap0)))
     = [EDispose 0]) /\
  (exists f,
     out_res (mounted quietEnv 0 (withOnDispose (JFun 2) noProps) [noProps] heap0)
     = Ok f /\
     onDispose (last [noProps] (withOnDispose (JFun 2) noProps)) = JUndefined /\
     out_trace (unmount f (out_heap (mounted quietEnv 0
                                       (withOnDispose (JFun 2) noProps)
                                       [noProps] heap0)))
     = [EOnDispose 2 0; EDispose 0]).
Proof.
  split; eexists; (split; [vm_compute; reflexivity|]);
    split; vm_compute; reflexivity.
Qed.

(** C3, amended: whenever the adapter unmounts or recreates the instance on
    an [options] change, the [onDispose] captured when the live instance [x]
    was constructed (the prop of the mount or of the last render that changed
    the identity of [options]), if it is a function, is invoked exactly once,
    with [x], right before [x.dispose()], and [x] has not been disposed
    before; no other [onDispose] or [dispose] call is made in that commit. *)
Theorem C3_onDispose_of_constructing_render_first env d p0 ps h0 f :
  out_res (mounted env d p0 ps h0) = Ok f ->
  exists x,
    xtermRef (out_heap (mounted env d p0 ps h0)) = Some x /\
    ~ In (EDispose x) (out_trace (mounted env d p0 ps h0)) /\
    (exists rest,
       out_trace (unmount f (out_heap (mounted env d p0 ps h0)))
       = onDisposeCall (onDispose (constructing p0 ps)) x ++ EDispose x :: rest /\
       filter isOnDispose rest = [] /\ filter isDispose rest = []) /\
    (forall p,
       options p <> options (last ps p0) ->
       exists rest,
         out_trace (update env p f (out_heap (mounted env d p0 ps h0)))
         = onDisposeCall (onDispose (constructing p0 ps)) x ++ EDispose x :: rest /\
         filter isOnDispose rest = [] /\ filter isDispose rest = []).
Proof.
  intros R. destruct (mounted_inv env d p0 ps h0 f R) as (s & -> & I).
  set (h := out_heap (mounted env d p0 ps h0)) in *.
  destruct I as [D X O C OD B Fr Kn Lv At].
  pose proof (Forall2_length (binv_slots _ _ _ _ B)) as L.
  exists (sh_term s). split; [exact X|]. split; [exact Lv|].
  rewrite <- OD.
  split.
  - rewrite unmount_eq. cbn [out_trace].
    eexists. unfold teardownCalls, disposeCalls.
    rewrite <- app_assoc. split; [reflexivity|].
    split; (apply filter_logPart; [reflexivity|]);
      apply (filter_allOf _ KBinding);
      try apply allOf_allUnsub; intros [] K; try discriminate; reflexivity.
  - intros p Np. assert (Q' : options p <> sh_options s) by (rewrite O; exact Np).
    destruct (firstFailure env (nextTerm h) (addonList p))
      as [[[pre a] e']|] eqn:F.
    + rewrite (update_recreate_throw env p s h d pre a e' D X L Q' F).
      cbn [out_trace].
      eexists. unfold teardownCalls, disposeCalls.
      rewrite <- !app_assoc. split; [reflexivity|].
      split; (apply filter_logPart; [reflexivity|]);
        (apply filter_app_nil;
         [apply (filter_allOf _ KBinding);
          [intros [] K; try discriminate; reflexivity|apply allOf_slotsUnsub]|]);
        apply (filter_allOf _ KConstruct);
        try (intros [] K; try discriminate; reflexivity);
        (constructor; [reflexivity|apply allOf_loads]).
    + destruct (slotsRebind (Some (nextTerm h)) (nextBinding h) (sh_slots s)
                            (handlerOf p) eventNames) as [[T nb] slots] eqn:E.
      rewrite (update_recreate env p s h d T nb slots D X L Q' F E).
      destruct (slotsRebind_trace _ _ _ _ _ _ (binv_slots _ _ _ _ B) _ _ _ E)
        as (bs & HT & _ & _).
      cbn [out_trace].
      eexists. unfold teardownCalls, disposeCalls.
      rewrite <- !app_assoc. split; [reflexivity|].
      split; (apply filter_logPart; [reflexivity|]);
        (apply filter_app_nil;
         [apply (filter_allOf _ KBinding);
          [intros [] K; try discriminate; reflexivity|apply allOf_slotsUnsub]|]);
        (apply filter_app_nil;
         [apply (filter_allOf _ KConstruct);
          [intros [] K; try discriminate; reflexivity
          |apply allOf_constructCalls]|]);
        (apply filter_app_nil;
         [apply (filter_allOf _ KBinding);
          [intros [] K; try discriminate; reflexivity
          |rewrite HT; apply allOf_subscribes]|]);
        (destruct (optnat_eq_dec _ _); [reflexivity|]);
        apply (filter_allOf _ KInit);
        try (intros [] K; try discriminate; reflexivity);
        apply allOf_initCalls.
Qed.

(** The echo example: its [onDispose] runs on the live terminal at unmount. *)
Lemma C3_witness :
  exists f,
    out_res (mounted quietEnv 0 echoProps [] heap0) = Ok f /\
    exists x,
      xtermRef (out_heap (mounted quietEnv 0 echoProps [] heap0)) = Some x /\
      ~ In (EDispose x) (out_trace (mounted quietEnv 0 echoProps [] heap0)) /\
      (exists rest,
         out_trace (unmount f (out_heap (mounted quietEnv 0 echoProps [] heap0)))
         = onDisposeCall (onDispose (constructing echoProps [])) x
           ++ EDispose x :: rest /\
         filter isOnDispose rest = [] /\ filter isDispose rest = []) /\
      (forall p,
         options p <> options (last [] echoProps) ->
         exists rest,
           out_trace (update quietEnv p f
                        (out_heap (mounted quietEnv 0 echoProps [] heap0)))
           = onDisposeCall (onDispose (constructing echoProps [])) x
             ++ EDispose x :: rest /\
           filter isOnDispose rest = [] /\ filter isDispose rest = []).
Proof.
  eexists. split; [vm_compute; reflexivity|].
  apply (C3_onDispose_of_constructing_render_first quietEnv 0 echoProps [] heap0).
  vm_compute; reflexivity.
Defined.

(** ** Event bindings *)

Lemma subscribed_pairs bs : subscribed (pairs bs) = bs.
Proof. induction bs as [|b bs IH]; simpl; [reflexivity|]. now rewrite IH. Qed.

Lemma subscribed_bindingCalls ev t :
  subscribed (bindingCalls ev t)
  = filter (fun b => if EventName_eq_dec (b_event b) ev then true else false)
           (subscribed t).
Proof.
  induction t as [|e t IH]; simpl; [reflexivity|].
  destruct e; simpl; try exact IH.
  - destruct (EventName_eq_dec (b_event b) ev); simpl; now rewrite IH.
  - destruct (EventName_eq_dec (b_event b) ev); simpl; exact IH.
Qed.

Lemma NoDup_map_filter (A B : Type) (g : A -> B) (P : A -> bool) l :
  NoDup (map g l) -> NoDup (map g (filter P l)).
Proof.
  induction l as [|a l IH]; simpl; intros ND; [constructor|].
  inversion ND as [|? ? Nin ND']; subst.
  destruct (P a); simpl; [|auto].
  constructor; [|auto].
  intros I. apply Nin. rewrite in_map_iff in *.
  destruct I as (a' & Ha & Hin). exists a'. split; [exact Ha|].
  apply filter_In in Hin. tauto.
Qed.

Lemma lifecycle_trace env d p0 ps h0 f :
  out_res (mounted env d p0 ps h0) = Ok f ->
  lifecycle env d p0 ps h0
  = prepend (out_trace (mounted env d p0 ps h0))
            (unmount f (out_heap (mounted env d p0 ps h0))).
Proof.
  intros R. unfold lifecycle. apply bind_known.
  rewrite <- R. apply out_eta.
Qed.

(** C1, as worded, fails at every unmount with a bound handler: the binding
    that terminal [0] produced is disposed after [dispose] of terminal [0]. *)
Lemma C1_binding_disposed_after_its_instance :
  out_trace (lifecycle quietEnv 0 (withOnData (JFun 3) noProps) [] heap0)
  = [ENew 0 None; EOpen 0 0;
     ESubscribe (mkBinding 0 0 OnData 3);
     EDispose 0;
     EUnsubscribe (mkBinding 0 0 OnData 3)].
Proof. vm_compute. reflexivity. Qed.

(** A re-render that keeps [options] does not dispose the live terminal. *)
Lemma update_keep_live env d c l s h tr p :
  Inv d c l s h tr ->
  options p = options l ->
  ~ In (EDispose (sh_term s))
       (tr ++ out_trace (update env p (fiberOf env s) h)).
Proof.
  intros [D X O C OD B Fr Kn Lv At] Q.
  pose proof (Forall2_length (binv_slots _ _ _ _ B)) as L.
  assert (Q' : options p = sh_options s) by (rewrite O; exact Q).
  destruct (slotsRebind (Some (sh_term s)) (nextBinding h) (sh_slots s)
                        (handlerOf p) eventNames) as [[T nb] slots] eqn:E.
  destruct (slotsRebind_trace _ _ _ _ _ _ (binv_slots _ _ _ _ B) _ _ _ E)
    as (bs & HT & _ & _).
  rewrite (update_keep env p s h d T nb slots D X L Q' E). cbn [out_trace].
  apply not_in_app; [exact Lv|].
  apply plain_notDisposed, plain_app; [apply plain_slotsUnsub|].
  apply plain_app; [rewrite HT; apply plain_subscribes|].
  destruct (optnat_eq_dec _ _); [constructor|apply plain_initCalls].
Qed.

(** The calls of a teardown up to [dispose] dispose no binding. *)
Lemma teardown_first env od x rest :
  exists t1 rest',
    teardownCalls env od x ++ rest = t1 ++ EDispose x :: rest' /\
    unsubscribed t1 = [].
Proof.
  exists (onDisposeCall od x). eexists. split.
  - unfold teardownCalls, disposeCalls. rewrite <- app_assoc.
    cbn [app]. reflexivity.
  - destruct od; reflexivity.
Qed.

(** A re-render that changes [options] begins with the teardown of the live
    terminal, whether or not the construction that follows completes. *)
Lemma update_recreate_teardown_first env d c l s h tr p :
  Inv d c l s h tr ->
  options p <> options l ->
  exists t1 rest,
    out_trace (update env p (fiberOf env s) h)
    = t1 ++ EDispose (sh_term s) :: rest /\
    unsubscribed t1 = [].
Proof.
  intros [D X O C OD B Fr Kn Lv At] Q.
  pose proof (Forall2_length (binv_slots _ _ _ _ B)) as L.
  assert (Q' : options p <> sh_options s) by (rewrite O; exact Q).
  destruct (firstFailure env (nextTerm h) (addonList p))
    as [[[pre a] e]|] eqn:F.
  - rewrite (update_recreate_throw env p s h d pre a e D X L Q' F).
    cbn [out_trace]. apply teardown_first.
  - destruct (slotsRebind (Some (nextTerm h)) (nextBinding h) (sh_slots s)
                          (handlerOf p) eventNames) as [[T nb] slots] eqn:E.
    rewrite (update_recreate env p s h d T nb slots D X L Q' F E).
    cbn [out_trace]. apply teardown_first.
Qed.

(** C1, amended: over a life of the adapter whose commits complete, for each
    event name the calls that create or dispose its bindings are a sequence
    of pairs "create [b], dispose [b]" over pairwise distinct bindings, so
    every binding created is disposed exactly once, at the latest in the
    unmount commit, and before the next binding of the same event is created.
    A binding of the live instance that a re-render keeping the identity of
    [options] disposes (its handler changed) is disposed before that instance
    is: the instance has not been disposed when that commit ends.  In a commit
    that destroys the live instance, the unmount or a re-render that changes
    the identity of [options], the teardown comes first: no binding is
    disposed in that commit before [dispose] of the instance has been
    called. *)
Theorem C1_bindings_disposed_once_by_unmount env d p0 ps h0 f :
  out_res (mounted env d p0 ps h0) = Ok f ->
  (forall ev, exists bs,
     bindingCalls ev (out_trace (lifecycle env d p0 ps h0)) = pairs bs /\
     NoDup (map b_id bs)) /\
  (exists x t1 rest,
     xtermRef (out_heap (mounted env d p0 ps h0)) = Some x /\
     out_trace (unmount f (out_heap (mounted env d p0 ps h0)))
     = t1 ++ EDispose x :: rest /\
     unsubscribed t1 = []) /\
  (forall p b,
     options p = options (last ps p0) ->
     In (EUnsubscribe b)
        (out_trace (update env p f (out_heap (mounted env d p0 ps h0)))) ->
     xtermRef (out_heap (mounted env d p0 ps h0)) = Some (b_term b) ->
     ~ In (EDispose (b_term b))
          (out_trace (mounted env d p0 ps h0)
           ++ out_trace (update env p f (out_heap (mounted env d p0 ps h0))))) /\
  (forall p,
     options p <> options (last ps p0) ->
     exists x t1 rest,
       xtermRef (out_heap (mounted env d p0 ps h0)) = Some x /\
       out_trace (update env p f (out_heap (mounted env d p0 ps h0)))
       = t1 ++ EDispose x :: rest /\
       unsubscribed t1 = []).
Proof.
  intros R.
  destruct (mounted_inv env d p0 ps h0 f R) as (s & -> & I).
  split; [|split; [|split]].
  - rewrite (lifecycle_trace env d p0 ps h0 _ R).
    revert I.
    generalize (out_heap (mounted env d p0 ps h0)).
    generalize (out_trace (mounted env d p0 ps h0)).
    intros tr h [D X O C OD B Fr Kn Lv At].
    rewrite unmount_eq. cbn [out_trace prepend].
    intros ev. destruct (binv_calls _ _ _ _ B ev) as (closed & Hc).
    assert (Hcalls : bindingCalls ev (tr ++ teardownCalls env (sh_onDispose s)
                                               (sh_term s)
                                         ++ allUnsub (sh_slots s))
                     = pairs closed
                       ++ openCall (sl_binding (slotOf ev (sh_slots s) eventNames))
                       ++ closeCall (sl_binding (slotOf ev (sh_slots s) eventNames))).
    { rewrite !bindingCalls_app, Hc.
      rewrite (quiet_bindingCalls ev _ (quiet_teardownCalls _ _ _)).
      rewrite (bindingCalls_allUnsub _ _ _ eventNames ev NoDup_eventNames
                 (binv_slots _ _ _ _ B) (in_eventNames ev)).
      now rewrite <- app_assoc. }
    assert (Hex : exists bs,
               bindingCalls ev (tr ++ teardownCalls env (sh_onDispose s)
                                        (sh_term s)
                                   ++ allUnsub (sh_slots s)) = pairs bs).
    { rewrite Hcalls.
      destruct (sl_binding (slotOf ev (sh_slots s) eventNames)) as [b|].
      - exists (closed ++ [b]). now rewrite pairs_snoc.
      - exists closed. simpl. now rewrite app_nil_r. }
    destruct Hex as (bs & Hbs). exists bs. split; [exact Hbs|].
    rewrite <- (subscribed_pairs bs), <- Hbs, subscribed_bindingCalls.
    apply NoDup_map_filter.
    rewrite !subscribed_app, subscribed_allUnsub.
    rewrite (quiet_subscribed _ (quiet_teardownCalls _ _ _)), !app_nil_r.
    apply (binv_nodup _ _ _ _ B).
  - rewrite unmount_eq. cbn [out_trace].
    exists (sh_term s), (onDisposeCall (sh_onDispose s) (sh_term s)).
    eexists. split; [exact (inv_term _ _ _ _ _ _ I)|]. split.
    + unfold teardownCalls, disposeCalls. rewrite <- app_assoc. reflexivity.
    + destruct (sh_onDispose s); reflexivity.
  - intros p b Q _ Hx.
    rewrite (inv_term _ _ _ _ _ _ I) in Hx. injection Hx as Hx. rewrite <- Hx.
    exact (update_keep_live env d _ _ s _ _ p I Q).
  - intros p Q.
    destruct (update_recreate_teardown_first env d _ _ s _ _ p I Q)
      as (t1 & rest & Ht & Hu).
    exists (sh_term s), t1, rest.
    split; [exact (inv_term _ _ _ _ _ _ I)|]. split; [exact Ht|exact Hu].
Qed.

(** The echo example, re-rendered once with a new [onData] handler.  From
    there, a further handler change disposes the binding then held while
    terminal [0] is not yet disposed, and a change of [options] disposes
    terminal [0] before any binding. *)
Lemma C1_witness :
  exists f,
    out_res (mounted quietEnv 0 echoProps [withOnData (JFun 4) echoProps] heap0)
    = Ok f /\
    (forall ev, exists bs,
       bindingCalls ev
         (out_trace (lifecycle quietEnv 0 echoProps
                       [withOnData (JFun 4) echoProps] heap0)) = pairs bs /\
       NoDup (map b_id bs)) /\
    (exists x t1 rest,
       xtermRef (out_heap (mounted quietEnv 0 echoProps
                             [withOnData (JFun 4) echoProps] heap0)) = Some x /\
       out_trace (unmount f (out_heap (mounted quietEnv 0 echoProps
                                         [withOnData (JFun 4) echoProps] heap0)))
       = t1 ++ EDispose x :: rest /\
       unsubscribed t1 = []) /\
    ~ In (EDispose (b_term (mkBinding 1 0 OnData 4)))
         (out_trace (mounted quietEnv 0 echoProps
                       [withOnData (JFun 4) echoProps] heap0)
          ++ out_trace (update quietEnv (withOnData (JFun 5) echoProps) f
                          (out_heap (mounted quietEnv 0 echoProps
                                       [withOnData (JFun 4) echoProps] heap0)))) /\
    (exists x t1 rest,
       xtermRef (out_heap (mounted quietEnv 0 echoProps
                             [withOnData (JFun 4) echoProps] heap0)) = Some x /\
       out_trace (update quietEnv (withOptions (Some 7) echoProps) f
                    (out_heap (mounted quietEnv 0 echoProps
                                 [withOnData (JFun 4) echoProps] heap0)))
       = t1 ++ EDispose x :: rest /\
       unsubscribed t1 = []).
Proof.
  eexists. split; [vm_compute; reflexivity|].
  match goal with
  | |- context [unmount ?f _] =>
      destruct (C1_bindings_disposed_once_by_unmount quietEnv 0 echoProps
                  [withOnData (JFun 4) echoProps] heap0 f)
        as (H1 & H2 & H3 & H4); [vm_compute; reflexivity|]
  end.
  split; [exact H1|]. split; [exact H2|]. split.
  - apply (H3 (withOnData (JFun 5) echoProps) (mkBinding 1 0 OnData 4)).
    + reflexivity.
    + vm_compute. left. reflexivity.
    + vm_compute. reflexivity.
  - apply (H4 (withOptions (Some 7) echoProps)). discriminate.
Defined.
(** The calls of a re-render that completes: the teardown, if any; the
    cleanups of the changed [useBind] effects; the construction, if any; the
    bodies of the changed [useBind] effects, run on the terminal [x'] that is
    live afterwards; the [onInit] effect, if it runs. *)
Lemma update_ok_shape env d c l s h tr p f' :
  Inv d c l s h tr ->
  out_res (update env p (fiberOf env s) h) = Ok f' ->
  exists x' pre mid post T nb slots',
    slotsRebind (Some x') (nextBinding h) (sh_slots s) (handlerOf p) eventNames
    = (T, nb, slots') /\
    out_trace (update env p (fiberOf env s) h)
    = pre ++ slotsUnsub (sh_slots s) (handlerOf p) eventNames ++ mid ++ T ++ post /\
    xtermRef (out_heap (update env p (fiberOf env s) h)) = Some x' /\
    allOf KTeardown pre /\ allOf KConstruct mid /\
    (post = [] \/ post = initCalls (Some x') (onInit p)).
Proof.
  intros [D X O C OD B Fr Kn Lv At] R.
  pose proof (Forall2_length (binv_slots _ _ _ _ B)) as L.
  destruct (optnat_eq_dec (options p) (sh_options s)) as [Q|Q].
  - destruct (slotsRebind (Some (sh_term s)) (nextBinding h) (sh_slots s)
                          (handlerOf p) eventNames) as [[T nb] slots] eqn:E.
    rewrite (update_keep env p s h d T nb slots D X L Q E) in *.
    exists (sh_term s), [], [], 
      (if optnat_eq_dec (Some (sh_term s)) (sh_initDep s) then []
       else initCalls (Some (sh_term s)) (onInit p)), T, nb, slots.
    cbn [out_trace out_heap withNextBinding xtermRef app].
    repeat split; try assumption; try apply Forall_nil.
    destruct (optnat_eq_dec _ _); auto.
  - destruct (firstFailure env (nextTerm h) (addonList p))
      as [[[pre a] e]|] eqn:F.
    { rewrite (update_recreate_throw env p s h d pre a e D X L Q F) in R.
      discriminate. }
    destruct (slotsRebind (Some (nextTerm h)) (nextBinding h) (sh_slots s)
                          (handlerOf p) eventNames) as [[T nb] slots] eqn:E.
    rewrite (update_recreate env p s h d T nb slots D X L Q F E) in *.
    exists (nextTerm h), (teardownCalls env (sh_onDispose s) (sh_term s)),
      (constructCalls (nextTerm h) d p),
      (if optnat_eq_dec (Some (sh_term s)) (sh_initDep s) then []
       else initCalls (Some (nextTerm h)) (onInit p)), T, nb, slots.
    cbn [out_trace out_heap xtermRef].
    repeat split; try assumption.
    + apply allOf_teardownCalls.
    + apply allOf_constructCalls.
    + destruct (optnat_eq_dec _ _); auto.
Qed.

Lemma allOf_quiet k t : k <> KBinding -> allOf k t -> quiet t.
Proof.
  intros N F. eapply Forall_impl; [|exact F].
  intros e K. destruct e; simpl in *; try reflexivity; congruence.
Qed.

Lemma quiet_post x p post :
  post = [] \/ post = initCalls (Some x) (onInit p) -> quiet post.
Proof. intros [->| ->]; [constructor|apply quiet_initCalls]. Qed.

Lemma in_bindingCalls ev e t : In e (bindingCalls ev t) -> In e t.
Proof. unfold bindingCalls. intros H. apply filter_In in H. exact (proj1 H). Qed.

Lemma in_subscribed b t : In (ESubscribe b) t -> In b (subscribed t).
Proof.
  induction t as [|e t IH]; simpl; [tauto|].
  intros [->|I]; [left; reflexivity|].
  destruct e; simpl; auto.
Qed.

(** The binding calls of the event [ev] in a re-render that completes. *)
Lemma update_bindingCalls env d c l s h tr p f' ev :
  Inv d c l s h tr ->
  out_res (update env p (fiberOf env s) h) = Ok f' ->
  exists x' nb slots',
    xtermRef (out_heap (update env p (fiberOf env s) h)) = Some x' /\
    Forall2 (slotOk nb (handlerOf p)) slots' eventNames /\
    bindingCalls ev (out_trace (update env p (fiberOf env s) h))
    = slotUnsub (slotOf ev (sh_slots s) eventNames) (handlerOf p ev)
      ++ (if JsVal_eq_dec (handlerOf p ev)
                          (sl_handler (slotOf ev (sh_slots s) eventNames))
          then []
          else openCall (sl_binding (slotOf ev slots' eventNames))) /\
    (forall b, handlerOf p ev
               <> sl_handler (slotOf ev (sh_slots s) eventNames) ->
               sl_binding (slotOf ev slots' eventNames) = Some b ->
               b_term b = x' /\ nextBinding h <= b_id b).
Proof.
  intros I R.
  destruct (update_ok_shape env d c l s h tr p f' I R)
    as (x' & pre & mid & post & T & nb & slots' & E & Htr & Hx & Kpre & Kmid & Hpost).
  destruct I as [D X O C OD B Fr Kn Lv At].
  destruct (slotsRebind_ok _ _ _ _ _ _ (binv_slots _ _ _ _ B) _ _ _ E)
    as (_ & Sl').
  pose proof (slotsRebind_slot x' _ (handlerOf p) _ eventNames ev
                NoDup_eventNames _ (binv_slots _ _ _ _ B) _ _ _ E
                (in_eventNames ev)) as Rs.
  exists x', nb, slots'. split; [exact Hx|]. split; [exact Sl'|].
  rewrite Htr, !bindingCalls_app.
  rewrite (quiet_bindingCalls ev pre)
    by (apply (allOf_quiet KTeardown); [discriminate|exact Kpre]).
  rewrite (quiet_bindingCalls ev mid)
    by (apply (allOf_quiet KConstruct); [discriminate|exact Kmid]).
  rewrite (quiet_bindingCalls ev post) by (eapply quiet_post; exact Hpost).
  rewrite (bindingCalls_slotsUnsub _ _ (handlerOf p) _ eventNames ev
             NoDup_eventNames (binv_slots _ _ _ _ B) (in_eventNames ev)).
  cbn [app]. rewrite app_nil_r.
  destruct (JsVal_eq_dec (handlerOf p ev)
                         (sl_handler (slotOf ev (sh_slots s) eventNames))).
  - destruct Rs as (-> & _). split; [reflexivity|]. intros b N. contradiction.
  - destruct Rs as (-> & Rb). split; [reflexivity|]. intros b _. apply Rb.
Qed.

(** C5: in a re-render of a mounted adapter that completes, for each of the
    twelve events: the same callback reference as in the previous render
    creates and disposes no binding; a new function in place of the previous
    one disposes exactly one binding, the one created earlier for the previous
    function, and then creates exactly one, a fresh binding of the new
    function on the instance that is live after the commit. *)
Theorem C5_rebind_exactly_on_reference_change env d p0 ps h0 f p f' ev :
  out_res (mounted env d p0 ps h0) = Ok f ->
  out_res (update env p f (out_heap (mounted env d p0 ps h0))) = Ok f' ->
  (handlerOf p ev = handlerOf (last ps p0) ev ->
   bindingCalls ev (out_trace (update env p f (out_heap (mounted env d p0 ps h0))))
   = []) /\
  (forall g g',
     handlerOf (last ps p0) ev = JFun g -> handlerOf p ev = JFun g' -> g <> g' ->
     exists b b',
       bindingCalls ev
         (out_trace (update env p f (out_heap (mounted env d p0 ps h0))))
       = [EUnsubscribe b; ESubscribe b'] /\
       b_event b = ev /\ b_handler b = g /\
       In (ESubscribe b) (out_trace (mounted env d p0 ps h0)) /\
       b_event b' = ev /\ b_handler b' = g' /\
       ~ In (ESubscribe b') (out_trace (mounted env d p0 ps h0)) /\
       xtermRef (out_heap (update env p f (out_heap (mounted env d p0 ps h0))))
       = Some (b_term b')).
Proof.
  intros R R'. destruct (mounted_inv env d p0 ps h0 f R) as (s & -> & I).
  set (h := out_heap (mounted env d p0 ps h0)) in *.
  set (tr := out_trace (mounted env d p0 ps h0)) in *.
  destruct (update_bindingCalls env d _ _ s h tr p f' ev I R')
    as (x' & nb & slots' & Hx & Sl' & Hcalls & Hnew).
  destruct I as [D X O C OD B Fr Kn Lv At].
  pose proof (slotOf_Forall2 _ _ _ ev (binv_slots _ _ _ _ B) (in_eventNames ev))
    as [Hh Hb].
  pose proof (slotOf_Forall2 _ _ _ ev Sl' (in_eventNames ev)) as [Hh' Hb'].
  rewrite Hcalls, Hh. unfold slotUnsub. rewrite Hh. rewrite Hh in Hnew.
  clear Hcalls. split.
  - intros Q.
    destruct (JsVal_eq_dec (handlerOf p ev) (handlerOf (last ps p0) ev));
      [reflexivity|contradiction].
  - intros g g' G G' N. rewrite G, G' in *.
    destruct (JsVal_eq_dec (JFun g') (JFun g)) as [Q|Q];
      [exfalso; apply N; injection Q; intros; symmetry; assumption|].
    destruct Hb as (b & Bb & Eb & Hgb & Ib).
    destruct Hb' as (b' & Bb' & Eb' & Hgb' & Ib').
    rewrite Bb, Bb'. exists b, b'. cbn [openCall app].
    split; [reflexivity|]. split; [exact Eb|]. split; [exact Hgb|].
    destruct (Hnew b' Q Bb') as (Tb' & Fresh).
    split; [|split; [exact Eb'|split; [exact Hgb'|split]]].
    + destruct (binv_calls _ _ _ _ B ev) as (closed & Hc).
      rewrite Bb in Hc.
      assert (Hin : In (ESubscribe b) (bindingCalls ev tr)).
      { rewrite Hc, in_app_iff. right. left. reflexivity. }
      exact (in_bindingCalls ev _ _ Hin).
    + intros Hin. apply in_subscribed in Hin.
      pose proof (binv_ids _ _ _ _ B) as Ids.
      rewrite Forall_forall in Ids. specialize (Ids b' Hin). lia.
    + rewrite Hx, Tb'. reflexivity.
Qed.

(** The echo example, re-rendered with a new [onData] handler. *)
Lemma C5_witness :
  exists f f',
    out_res (mounted quietEnv 0 echoProps [] heap0) = Ok f /\
    out_res (update quietEnv (withOnData (JFun 4) echoProps) f
               (out_heap (mounted quietEnv 0 echoProps [] heap0))) = Ok f' /\
    (handlerOf (withOnData (JFun 4) echoProps) OnData
     = handlerOf (last [] echoProps) OnData ->
     bindingCalls OnData
       (out_trace (update quietEnv (withOnData (JFun 4) echoProps) f
                     (out_heap (mounted quietEnv 0 echoProps [] heap0)))) = []) /\
    (forall g g',
       handlerOf (last [] echoProps) OnData = JFun g ->
       handlerOf (withOnData (JFun 4) echoProps) OnData = JFun g' -> g <> g' ->
       exists b b',
         bindingCalls OnData
           (out_trace (update quietEnv (withOnData (JFun 4) echoProps) f
                         (out_heap (mounted quietEnv 0 echoProps [] heap0))))
         = [EUnsubscribe b; ESubscribe b'] /\
         b_event b = OnData /\ b_handler b = g /\
         In (ESubscribe b) (out_trace (mounted quietEnv 0 echoProps [] heap0)) /\
         b_event b' = OnData /\ b_handler b' = g' /\
         ~ In (ESubscribe b') (out_trace (mounted quietEnv 0 echoProps [] heap0)) /\
         xtermRef (out_heap (update quietEnv (withOnData (JFun 4) echoProps) f
                               (out_heap (mounted quietEnv 0 echoProps [] heap0))))
         = Some (b_term b')).
Proof.
  eexists. eexists.
  split; [vm_compute; reflexivity|]. split; [vm_compute; reflexivity|].
  eapply (C5_rebind_exactly_on_reference_change quietEnv 0 echoProps [] heap0
            _ (withOnData (JFun 4) echoProps) _ OnData);
    vm_compute; reflexivity.
Defined.

Lemma slotsRebind_nonfunction x hn0 hn slots nb T nb' slots' ev b :
  Forall2 (slotOk nb hn0) slots eventNames ->
  slotsRebind (Some x) nb slots hn eventNames = (T, nb', slots') ->
  isFunction (hn ev) = false ->
  In (ESubscribe b) T -> b_event b <> ev.
Proof.
  intros Sl E NF Hin Hev.
  assert (Hc : In (ESubscribe b) (bindingCalls ev T)).
  { unfold bindingCalls. apply filter_In. split; [exact Hin|]. simpl.
    destruct (EventName_eq_dec (b_event b) ev); [reflexivity|contradiction]. }
  destruct (slotsRebind_ok _ _ _ _ _ _ Sl _ _ _ E) as (_ & Sl').
  pose proof (slotOf_Forall2 _ _ _ ev Sl' (in_eventNames ev)) as [_ Hb'].
  pose proof (slotsRebind_slot x hn0 hn slots eventNames ev NoDup_eventNames
                nb Sl _ _ _ E (in_eventNames ev)) as Rs.
  destruct (JsVal_eq_dec (hn ev) (sl_handler (slotOf ev slots eventNames))).
  - destruct Rs as (Rs & _). rewrite Rs in Hc. destruct Hc.
  - destruct Rs as (Rs & _). rewrite Rs in Hc.
    destruct (hn ev); try discriminate; rewrite Hb' in Hc; destruct Hc.
Qed.

Lemma not_subscribed_in b t : subscribed t = [] -> ~ In (ESubscribe b) t.
Proof. intros H I. apply in_subscribed in I. rewrite H in I. destruct I. Qed.

(** C8: a handler prop that is absent or not a function is skipped without an
    error.  The effect of [useBind] then returns normally, having called
    nothing, changed nothing and registered no cleanup; and no commit, the
    first or a later one, creates a binding for that event. *)
Theorem C8_non_callable_handler_binds_nothing env ev :
  (forall v h, isFunction v = false -> bindEffect v ev h = mkOut [] h (Ok None)) /\
  (forall d p h0 b,
     isFunction (handlerOf p ev) = false ->
     In (ESubscribe b) (out_trace (mount env d p h0)) -> b_event b <> ev) /\
  (forall d p0 ps h0 f p b,
     out_res (mounted env d p0 ps h0) = Ok f ->
     isFunction (handlerOf p ev) = false ->
     In (ESubscribe b)
        (out_trace (update env p f (out_heap (mounted env d p0 ps h0)))) ->
     b_event b <> ev).
Proof.
  split; [|split].
  - intros v h NF. rewrite bindEffect_eq. unfold slotBind.
    destruct h as [dv [x|] nt nb]; destruct v; try discriminate; reflexivity.
  - intros d p h0 b NF Hin.
    destruct (firstFailure env (nextTerm h0) (addonList p))
      as [[[pre a] e]|] eqn:F.
    { rewrite (mount_throw env d p h0 pre a e F) in Hin. cbn [out_trace] in Hin.
      exfalso. revert Hin. apply not_subscribed_in.
      apply (quiet_subscribed (ENew _ _ :: map _ _)).
      constructor; [reflexivity|apply quiet_loads]. }
    destruct (slotsBind (Some (nextTerm h0)) (nextBinding h0) (handlerOf p)
                        eventNames) as [[T nb] slots] eqn:E.
    rewrite (mount_ok env d p h0 T nb slots F E) in Hin. cbn [out_trace] in Hin.
    rewrite !in_app_iff in Hin. destruct Hin as [Hin|[Hin|Hin]].
    + exfalso. revert Hin. apply not_subscribed_in, quiet_subscribed,
        quiet_constructCalls.
    + rewrite slotsBind_rebind in E.
      exact (slotsRebind_nonfunction _ _ _ _ _ _ _ _ ev b
               (emptySlots_ok _ _ _) E NF Hin).
    + exfalso. revert Hin. apply not_subscribed_in, quiet_subscribed,
        quiet_initCalls.
  - intros d p0 ps h0 f p b R NF Hin.
    destruct (mounted_inv env d p0 ps h0 f R) as (s & -> & I).
    set (h := out_heap (mounted env d p0 ps h0)) in *.
    destruct (out_res (update env p (fiberOf env s) h)) as [f'|e] eqn:R'.
    + destruct (update_ok_shape env d _ _ s h _ p f' I R')
        as (x' & pre & mid & post & T & nb & slots' & E & Htr & Hx & Kpre
            & Kmid & Hpost).
      rewrite Htr, !in_app_iff in Hin.
      destruct I as [D X O C OD B Fr Kn Lv At].
      destruct Hin as [Hin|[Hin|[Hin|[Hin|Hin]]]].
      * exfalso. revert Hin. apply not_subscribed_in, quiet_subscribed.
        apply (allOf_quiet KTeardown); [discriminate|exact Kpre].
      * exfalso. revert Hin. apply not_subscribed_in, subscribed_slotsUnsub.
      * exfalso. revert Hin. apply not_subscribed_in, quiet_subscribed.
        apply (allOf_quiet KConstruct); [discriminate|exact Kmid].
      * exact (slotsRebind_nonfunction _ _ _ _ _ _ _ _ ev b
                 (binv_slots _ _ _ _ B) E NF Hin).
      * exfalso. revert Hin. apply not_subscribed_in, quiet_subscribed.
        eapply quiet_post; exact Hpost.
    + exfalso. destruct I as [D X O C OD B Fr Kn Lv At].
      pose proof (Forall2_length (binv_slots _ _ _ _ B)) as L.
      destruct (optnat_eq_dec (options p) (sh_options s)) as [Q|Q].
      * destruct (slotsRebind (Some (sh_term s)) (nextBinding h) (sh_slots s)
                              (handlerOf p) eventNames) as [[T nb] slots] eqn:E.
        rewrite (update_keep env p s h d T nb slots D X L Q E) in R'.
        discriminate.
      * destruct (firstFailure env (nextTerm h) (addonList p))
          as [[[pre a] e']|] eqn:F.
        -- rewrite (update_recreate_throw env p s h d pre a e' D X L Q F) in Hin.
           cbn [out_trace] in Hin. revert Hin. apply not_subscribed_in.
           rewrite !subscribed_app, subscribed_slotsUnsub.
           rewrite (quiet_subscribed _ (quiet_teardownCalls _ _ _)).
           apply (quiet_subscribed (ENew _ _ :: map _ _)).
           constructor; [reflexivity|apply quiet_loads].
        -- destruct (slotsRebind (Some (nextTerm h)) (nextBinding h) (sh_slots s)
                                 (handlerOf p) eventNames)
             as [[T nb] slots] eqn:E.
           rewrite (update_recreate env p s h d T nb slots D X L Q F E) in R'.
           discriminate.
Qed.

(** The echo example supplies no [onBell]: the binding its mount creates, and
    the one a re-render with a new [onData] creates, are not of the bell. *)
Lemma C8_witness :
  bindEffect (JObj 5) OnBell heap0 = mkOut [] heap0 (Ok None) /\
  (In (ESubscribe (mkBinding 0 0 OnData 3))
      (out_trace (mount quietEnv 0 echoProps heap0)) /\
   b_event (mkBinding 0 0 OnData 3) <> OnBell) /\
  (exists f,
     out_res (mounted quietEnv 0 echoProps [] heap0) = Ok f /\
     In (ESubscribe (mkBinding 1 0 OnData 4))
        (out_trace (update quietEnv (withOnData (JFun 4) echoProps) f
                      (out_heap (mounted quietEnv 0 echoProps [] heap0)))) /\
     b_event (mkBinding 1 0 OnData 4) <> OnBell).
Proof.
  destruct (C8_non_callable_handler_binds_nothing quietEnv OnBell)
    as (H1 & H2 & H3).
  split; [apply H1; reflexivity|]. split.
  - assert (I : In (ESubscribe (mkBinding 0 0 OnData 3))
                   (out_trace (mount quietEnv 0 echoProps heap0)))
      by (vm_compute; tauto).
    split; [exact I|].
    exact (H2 0 echoProps heap0 _ eq_refl I).
  - eexists. split; [vm_compute; reflexivity|]. split.
    + vm_compute; tauto.
    + eapply (H3 0 echoProps [] heap0 _ (withOnData (JFun 4) echoProps)
                 (mkBinding 1 0 OnData 4));
        [vm_compute; reflexivity|reflexivity|vm_compute; tauto].
Defined.

(** ** Construction *)

Lemma in_allOf e k t : allOf k t -> In e t -> kindOf e = k.
Proof. unfold allOf. rewrite Forall_forall. auto. Qed.

Lemma filter_isLoad_attachCalls x k : filter isLoad (attachCalls x k) = [].
Proof. unfold attachCalls. destruct (truthy k); reflexivity. Qed.

Lemma filter_isOnInit_construct x p :
  filter isOnInit (ENew x (options p) :: map (ELoadAddon x) (addonList p)
                   ++ attachCalls x (customKeyEventHandler p)) = [].
Proof.
  apply (filter_allOf isOnInit KConstruct).
  - intros [] K; try discriminate; reflexivity.
  - constructor; [reflexivity|]. apply allOf_app; [apply allOf_loads|].
    unfold attachCalls. destruct (truthy _); repeat constructor.
Qed.

(** C6: at mount, [onInit], when it is a function, is invoked exactly once,
    with the instance this mount constructed, after [open] has attached that
    instance to the container: it is the last call of the commit. *)
Theorem C6_onInit_after_open env d p h0 f g :
  out_res (mount env d p h0) = Ok f ->
  onInit p = JFun g ->
  exists x t1 t2,
    out_trace (mount env d p h0) = t1 ++ EOpen x d :: t2 ++ [EOnInit g (Some x)] /\
    In (ENew x (options p)) t1 /\
    filter isOnInit (t1 ++ t2) = [] /\
    xtermRef (out_heap (mount env d p h0)) = Some x.
Proof.
  intros R G.
  destruct (firstFailure env (nextTerm h0) (addonList p)) as [[[pre a] e]|] eqn:F.
  { rewrite (mount_throw env d p h0 pre a e F) in R. discriminate. }
  destruct (slotsBind (Some (nextTerm h0)) (nextBinding h0) (handlerOf p)
                      eventNames) as [[T nb] slots] eqn:E.
  rewrite (mount_ok env d p h0 T nb slots F E).
  destruct (slotsBind_trace _ _ _ _ _ _ _ E) as (bs & HT & _ & _).
  cbn [out_trace out_heap xtermRef].
  exists (nextTerm h0),
    (ENew (nextTerm h0) (options p) :: map (ELoadAddon (nextTerm h0)) (addonList p)
     ++ attachCalls (nextTerm h0) (customKeyEventHandler p)), T.
  split; [|split; [left; reflexivity|split; [|reflexivity]]].
  - unfold constructCalls, initCalls. rewrite G. cbn [app].
    rewrite <- !app_assoc. reflexivity.
  - apply filter_app_nil; [apply filter_isOnInit_construct|].
    rewrite HT. apply (filter_allOf isOnInit KBinding).
    + intros [] K; try discriminate; reflexivity.
    + apply allOf_subscribes.
Qed.

(** The echo example: [onInit] is the last call of the mount. *)
Lemma C6_witness :
  exists f,
    out_res (mount quietEnv 0 echoProps heap0) = Ok f /\
    exists x t1 t2,
      out_trace (mount quietEnv 0 echoProps heap0)
      = t1 ++ EOpen x 0 :: t2 ++ [EOnInit 1 (Some x)] /\
      In (ENew x (options echoProps)) t1 /\
      filter isOnInit (t1 ++ t2) = [] /\
      xtermRef (out_heap (mount quietEnv 0 echoProps heap0)) = Some x.
Proof.
  eexists. split; [vm_compute; reflexivity|].
  eapply (C6_onInit_after_open quietEnv 0 echoProps heap0 _ 1);
    vm_compute; reflexivity.
Defined.

(** C7: each construction of an instance [x], at mount or after an [options]
    change, loads the supplied addons right after [new Terminal], one
    [loadAddon] call per entry of the list and in the order of the list, and
    makes no other [loadAddon] call; [open] comes after them. *)
Theorem C7_addons_loaded_in_order env d :
  (forall p h0 f l,
     out_res (mount env d p h0) = Ok f ->
     addons p = Some l ->
     exists x t3,
       xtermRef (out_heap (mount env d p h0)) = Some x /\
       out_trace (mount env d p h0)
       = ENew x (options p) :: map (ELoadAddon x) l ++ t3 /\
       filter isLoad t3 = [] /\ In (EOpen x d) t3) /\
  (forall p0 ps h0 f p f' l,
     out_res (mounted env d p0 ps h0) = Ok f ->
     options p <> options (last ps p0) ->
     out_res (update env p f (out_heap (mounted env d p0 ps h0))) = Ok f' ->
     addons p = Some l ->
     exists x t0 t3,
       xtermRef (out_heap (update env p f (out_heap (mounted env d p0 ps h0))))
       = Some x /\
       out_trace (update env p f (out_heap (mounted env d p0 ps h0)))
       = t0 ++ ENew x (options p) :: map (ELoadAddon x) l ++ t3 /\
       filter isLoad t0 = [] /\ filter isLoad t3 = [] /\ In (EOpen x d) t3).
Proof.
  split.
  - intros p h0 f l R A.
    destruct (firstFailure env (nextTerm h0) (addonList p))
      as [[[pre a] e]|] eqn:F.
    { rewrite (mount_throw env d p h0 pre a e F) in R. discriminate. }
    destruct (slotsBind (Some (nextTerm h0)) (nextBinding h0) (handlerOf p)
                        eventNames) as [[T nb] slots] eqn:E.
    rewrite (mount_ok env d p h0 T nb slots F E).
    destruct (slotsBind_trace _ _ _ _ _ _ _ E) as (bs & HT & _ & _).
    cbn [out_trace out_heap xtermRef].
    exists (nextTerm h0). eexists. split; [reflexivity|].
    unfold constructCalls, addonList. rewrite A. cbn [app].
    rewrite <- !app_assoc. split; [reflexivity|]. split.
    + apply filter_app_nil; [apply filter_isLoad_attachCalls|].
      cbn [app filter isLoad].
      apply filter_app_nil.
      * rewrite HT. apply (filter_allOf isLoad KBinding).
        -- intros [] K; try discriminate; reflexivity.
        -- apply allOf_subscribes.
      * apply (filter_allOf isLoad KInit).
        -- intros [] K; try discriminate; reflexivity.
        -- apply allOf_initCalls.
    + rewrite in_app_iff. right. left. reflexivity.
  - intros p0 ps h0 f p f' l R Np R' A.
    destruct (mounted_inv env d p0 ps h0 f R) as (s & -> & I).
    set (h := out_heap (mounted env d p0 ps h0)) in *.
    destruct I as [D X O C OD B Fr Kn Lv At].
    pose proof (Forall2_length (binv_slots _ _ _ _ B)) as L.
    assert (Q : options p <> sh_options s) by (rewrite O; exact Np).
    destruct (firstFailure env (nextTerm h) (addonList p))
      as [[[pre a] e]|] eqn:F.
    { rewrite (update_recreate_throw env p s h d pre a e D X L Q F) in R'.
      discriminate. }
    destruct (slotsRebind (Some (nextTerm h)) (nextBinding h) (sh_slots s)
                          (handlerOf p) eventNames) as [[T nb] slots] eqn:E.
    rewrite (update_recreate env p s h d T nb slots D X L Q F E).
    destruct (slotsRebind_trace _ _ _ _ _ _ (binv_slots _ _ _ _ B) _ _ _ E)
      as (bs & HT & _ & _).
    cbn [out_trace out_heap xtermRef].
    exists (nextTerm h),
      (teardownCalls env (sh_onDispose s) (sh_term s)
       ++ slotsUnsub (sh_slots s) (handlerOf p) eventNames).
    eexists. split; [reflexivity|].
    unfold constructCalls, addonList. rewrite A. cbn [app].
    rewrite <- !app_assoc. split; [reflexivity|]. split; [|split].
    + apply filter_app_nil.
      * apply (filter_allOf isLoad KTeardown).
        -- intros [] K; try discriminate; reflexivity.
        -- apply allOf_teardownCalls.
      * apply (filter_allOf isLoad KBinding).
        -- intros [] K; try discriminate; reflexivity.
        -- apply allOf_slotsUnsub.
    + apply filter_app_nil; [apply filter_isLoad_attachCalls|].
      cbn [app filter isLoad].
      apply filter_app_nil.
      * rewrite HT. apply (filter_allOf isLoad KBinding).
        -- intros [] K; try discriminate; reflexivity.
        -- apply allOf_subscribes.
      * destruct (optnat_eq_dec _ _); [reflexivity|].
        apply (filter_allOf isLoad KInit).
        -- intros [] K; try discriminate; reflexivity.
        -- apply allOf_initCalls.
    + rewrite in_app_iff. right. left. reflexivity.
Qed.

(** Two addons, [10] then [11], at mount and again after an [options] change. *)
Lemma C7_witness :
  (exists f,
     out_res (mount quietEnv 0 (withAddons (Some [10; 11]) echoProps) heap0)
     = Ok f /\
     exists x t3,
       xtermRef (out_heap (mount quietEnv 0 (withAddons (Some [10; 11]) echoProps)
                             heap0)) = Some x /\
       out_trace (mount quietEnv 0 (withAddons (Some [10; 11]) echoProps) heap0)
       = ENew x None :: map (ELoadAddon x) [10; 11] ++ t3 /\
       filter isLoad t3 = [] /\ In (EOpen x 0) t3) /\
  (exists f f',
     out_res (mounted quietEnv 0 echoProps [] heap0) = Ok f /\
     out_res (update quietEnv
                (withOptions (Some 7) (withAddons (Some [10; 11]) echoProps)) f
                (out_heap (mounted quietEnv 0 echoProps [] heap0))) = Ok f' /\
     exists x t0 t3,
       xtermRef (out_heap (update quietEnv
                             (withOptions (Some 7)
                                (withAddons (Some [10; 11]) echoProps)) f
                             (out_heap (mounted quietEnv 0 echoProps [] heap0))))
       = Some x /\
       out_trace (update quietEnv
                    (withOptions (Some 7) (withAddons (Some [10; 11]) echoProps))
                    f (out_heap (mounted quietEnv 0 echoProps [] heap0)))
       = t0 ++ ENew x (Some 7) :: map (ELoadAddon x) [10; 11] ++ t3 /\
       filter isLoad t0 = [] /\ filter isLoad t3 = [] /\ In (EOpen x 0) t3).
Proof.
  destruct (C7_addons_loaded_in_order quietEnv 0) as (H1 & H2).
  split.
  - eexists. split; [vm_compute; reflexivity|].
    eapply (H1 (withAddons (Some [10; 11]) echoProps) heap0);
      vm_compute; reflexivity.
  - eexists. eexists.
    split; [vm_compute; reflexivity|]. split; [vm_compute; reflexivity|].
    eapply (H2 echoProps [] heap0 _
               (withOptions (Some 7) (withAddons (Some [10; 11]) echoProps)));
      [vm_compute; reflexivity|discriminate|vm_compute; reflexivity
      |reflexivity].
Defined.

(** C9: a re-render that keeps the identity of [options] makes no
    [attachCustomKeyEventHandler] call, and its outcome (calls, cells, hook
    states) is the same whatever [customKeyEventHandler] it carries; so the
    only such call ever made on the live instance [x] is the one of its
    construction, with the handler of the constructing render when truthy. *)
Theorem C9_customKeyEventHandler_fixed_at_construction env d p0 ps h0 f p k :
  out_res (mounted env d p0 ps h0) = Ok f ->
  options p = options (last ps p0) ->
  update env (withCustomKeyEventHandler k p) f (out_heap (mounted env d p0 ps h0))
  = update env p f (out_heap (mounted env d p0 ps h0)) /\
  filter isAttachKey
    (out_trace (update env p f (out_heap (mounted env d p0 ps h0)))) = [] /\
  exists x,
    xtermRef (out_heap (mounted env d p0 ps h0)) = Some x /\
    xtermRef (out_heap (update env p f (out_heap (mounted env d p0 ps h0))))
    = Some x /\
    attachedTo x (out_trace (mounted env d p0 ps h0)
                  ++ out_trace (update env p f (out_heap (mounted env d p0 ps h0))))
    = if truthy (customKeyEventHandler (constructing p0 ps))
      then [EAttachKey x (customKeyEventHandler (constructing p0 ps))]
      else [].
Proof.
  intros R Q. destruct (mounted_inv env d p0 ps h0 f R) as (s & -> & I).
  set (h := out_heap (mounted env d p0 ps h0)) in *.
  set (tr := out_trace (mounted env d p0 ps h0)) in *.
  destruct I as [D X O C OD B Fr Kn Lv At].
  pose proof (Forall2_length (binv_slots _ _ _ _ B)) as L.
  assert (Q' : options p = sh_options s) by (rewrite O; exact Q).
  destruct (slotsRebind (Some (sh_term s)) (nextBinding h) (sh_slots s)
                        (handlerOf p) eventNames) as [[T nb] slots] eqn:E.
  destruct (slotsRebind_trace _ _ _ _ _ _ (binv_slots _ _ _ _ B) _ _ _ E)
    as (bs & HT & _ & _).
  rewrite (update_keep env (withCustomKeyEventHandler k p) s h d T nb slots
             D X L Q' E).
  rewrite (update_keep env p s h d T nb slots D X L Q' E).
  cbn [out_trace out_heap withNextBinding xtermRef].
  assert (P : plain (slotsUnsub (sh_slots s) (handlerOf p) eventNames ++ T
                     ++ (if optnat_eq_dec (Some (sh_term s)) (sh_initDep s)
                         then [] else initCalls (Some (sh_term s)) (onInit p)))).
  { apply plain_app; [apply plain_slotsUnsub|]. apply plain_app.
    - rewrite HT. apply plain_subscribes.
    - destruct (optnat_eq_dec _ _); [constructor|apply plain_initCalls]. }
  split; [reflexivity|]. split.
  - clear -P. induction P as [|e t (_ & He & _) _ IH]; simpl; [reflexivity|].
    now rewrite He.
  - exists (sh_term s). split; [exact X|]. split; [exact X|].
    rewrite attachedTo_app, At.
    rewrite (attachedTo_none _ _ (plain_noAttach _ P)).
    apply app_nil_r.
Qed.

(** The echo example mounted with a key handler, re-rendered with another. *)
Lemma C9_witness :
  exists f,
    out_res (mounted quietEnv 0 (withCustomKeyEventHandler (JFun 5) echoProps)
               [] heap0) = Ok f /\
    update quietEnv (withCustomKeyEventHandler (JFun 6) echoProps) f
           (out_heap (mounted quietEnv 0
                        (withCustomKeyEventHandler (JFun 5) echoProps) [] heap0))
    = update quietEnv echoProps f
             (out_heap (mounted quietEnv 0
                          (withCustomKeyEventHandler (JFun 5) echoProps) []
                          heap0)) /\
    filter isAttachKey
      (out_trace (update quietEnv echoProps f
                    (out_heap (mounted quietEnv 0
                                 (withCustomKeyEventHandler (JFun 5) echoProps)
                                 [] heap0)))) = [] /\
    exists x,
      xtermRef (out_heap (mounted quietEnv 0
                            (withCustomKeyEventHandler (JFun 5) echoProps) []
                            heap0)) = Some x /\
      xtermRef (out_heap (update quietEnv echoProps f
                            (out_heap (mounted quietEnv 0
                                         (withCustomKeyEventHandler (JFun 5)
                                            echoProps) [] heap0)))) = Some x /\
      attachedTo x
        (out_trace (mounted quietEnv 0
                      (withCustomKeyEventHandler (JFun 5) echoProps) [] heap0)
         ++ out_trace (update quietEnv echoProps f
                         (out_heap (mounted quietEnv 0
                                      (withCustomKeyEventHandler (JFun 5)
                                         echoProps) [] heap0))))
      = [EAttachKey x (JFun 5)].
Proof.
  eexists. split; [vm_compute; reflexivity|].
  eapply (C9_customKeyEventHandler_fixed_at_construction quietEnv 0
            (withCustomKeyEventHandler (JFun 5) echoProps) [] heap0 _
            echoProps (JFun 6)); [vm_compute; reflexivity|reflexivity].
Defined.

(** ** [onInit] *)

Lemma bind_trace A B (m : M A) (k : A -> M B) h :
  out_trace (bind m k h)
  = out_trace (m h)
    ++ match out_res (m h) with
       | Ok a => out_trace (k a (out_heap (m h)))
       | Throw _ => []
       end.
Proof.
  unfold bind. destruct (out_res (m h)); simpl; [reflexivity|].
  now rewrite app_nil_r.
Qed.

Lemma allOf_newLoads x o l :
  allOf KConstruct (ENew x o :: map (ELoadAddon x) l).
Proof. constructor; [reflexivity|apply allOf_loads]. Qed.

Lemma mount_onInit env d p h0 g a :
  In (EOnInit g a) (out_trace (mount env d p h0)) ->
  (exists x, a = Some x) /\ onInit p = JFun g.
Proof.
  intros Hin.
  destruct (firstFailure env (nextTerm h0) (addonList p)) as [[[pre b] e]|] eqn:F.
  { rewrite (mount_throw env d p h0 pre b e F) in Hin. cbn [out_trace] in Hin.
    pose proof (in_allOf _ _ _ (allOf_newLoads _ _ _) Hin). discriminate. }
  destruct (slotsBind (Some (nextTerm h0)) (nextBinding h0) (handlerOf p)
                      eventNames) as [[T nb] slots] eqn:E.
  rewrite (mount_ok env d p h0 T nb slots F E) in Hin. cbn [out_trace] in Hin.
  destruct (slotsBind_trace _ _ _ _ _ _ _ E) as (bs & HT & _ & _).
  rewrite !in_app_iff in Hin. destruct Hin as [Hin|[Hin|Hin]].
  - pose proof (in_allOf _ _ _ (allOf_constructCalls _ _ _) Hin). discriminate.
  - rewrite HT in Hin.
    pose proof (in_allOf _ _ _ (allOf_subscribes _) Hin). discriminate.
  - unfold initCalls in Hin. destruct (onInit p); simpl in Hin; try tauto.
    destruct Hin as [Hin|[]]. inversion Hin; subst. eauto.
Qed.

Lemma update_onInit env d c l s h tr p g a :
  Inv d c l s h tr ->
  In (EOnInit g a) (out_trace (update env p (fiberOf env s) h)) ->
  (exists x, a = Some x) /\ onInit p = JFun g.
Proof.
  intros I Hin.
  destruct (out_res (update env p (fiberOf env s) h)) as [f'|e] eqn:R'.
  - destruct (update_ok_shape env d _ _ s h _ p f' I R')
      as (x' & pre & mid & post & T & nb & slots' & E & Htr & Hx & Kpre
          & Kmid & Hpost).
    destruct I as [D X O C OD B Fr Kn Lv At].
    destruct (slotsRebind_trace _ _ _ _ _ _ (binv_slots _ _ _ _ B) _ _ _ E)
      as (bs & HT & _ & _).
    rewrite Htr, !in_app_iff in Hin.
    destruct Hin as [Hin|[Hin|[Hin|[Hin|Hin]]]].
    + pose proof (in_allOf _ _ _ Kpre Hin). discriminate.
    + pose proof (in_allOf _ _ _ (allOf_slotsUnsub _ _ _) Hin). discriminate.
    + pose proof (in_allOf _ _ _ Kmid Hin). discriminate.
    + rewrite HT in Hin.
      pose proof (in_allOf _ _ _ (allOf_subscribes _) Hin). discriminate.
    + destruct Hpost as [-> | ->]; [destruct Hin|].
      unfold initCalls in Hin. destruct (onInit p); simpl in Hin; try tauto.
      destruct Hin as [Hin|[]]. inversion Hin; subst. eauto.
  - exfalso. destruct I as [D X O C OD B Fr Kn Lv At].
    pose proof (Forall2_length (binv_slots _ _ _ _ B)) as L.
    destruct (optnat_eq_dec (options p) (sh_options s)) as [Q|Q].
    + destruct (slotsRebind (Some (sh_term s)) (nextBinding h) (sh_slots s)
                            (handlerOf p) eventNames) as [[T nb] slots] eqn:E.
      rewrite (update_keep env p s h d T nb slots D X L Q E) in R'.
      discriminate.
    + destruct (firstFailure env (nextTerm h) (addonList p))
        as [[[pre b] e']|] eqn:F.
      * rewrite (update_recreate_throw env p s h d pre b e' D X L Q F) in Hin.
        cbn [out_trace] in Hin. rewrite !in_app_iff in Hin.
        destruct Hin as [Hin|[Hin|Hin]].
        -- pose proof (in_allOf _ _ _ (allOf_teardownCalls _ _ _) Hin).
           discriminate.
        -- pose proof (in_allOf _ _ _ (allOf_slotsUnsub _ _ _) Hin).
           discriminate.
        -- pose proof (in_allOf _ _ _ (allOf_newLoads _ _ _) Hin).
           discriminate.
      * destruct (slotsRebind (Some (nextTerm h)) (nextBinding h) (sh_slots s)
                              (handlerOf p) eventNames) as [[T nb] slots] eqn:E.
        rewrite (update_recreate env p s h d T nb slots D X L Q F E) in R'.
        discriminate.
Qed.

Lemma updates_onInit env d ps : forall c l s h tr g a,
  Inv d c l s h tr ->
  In (EOnInit g a)
     (out_trace (updates env ps (fiberOf env s) h)
      ++ match out_res (updates env ps (fiberOf env s) h) with
         | Ok f => out_trace (unmount f (out_heap (updates env ps (fiberOf env s) h)))
         | Throw _ => []
         end) ->
  (exists x, a = Some x) /\ exists p, In p ps /\ onInit p = JFun g.
Proof.
  induction ps as [|p ps IH]; intros c l s h tr g a I Hin.
  - exfalso. cbn [updates ret out_trace out_res out_heap app] in Hin.
    rewrite unmount_eq in Hin. cbn [out_trace] in Hin.
    rewrite in_app_iff in Hin. destruct Hin as [Hin|Hin].
    + pose proof (in_allOf _ _ _ (allOf_teardownCalls _ _ _) Hin). discriminate.
    + pose proof (in_allOf _ _ _ (allOf_allUnsub _) Hin). discriminate.
  - cbn [updates] in Hin.
    destruct (out_res (update env p (fiberOf env s) h)) as [f1|e] eqn:R1.
    + rewrite (bind_known _ _ _ _ h _ _ f1
                 (eq_trans (out_eta _ _) (f_equal _ R1))) in Hin.
      cbn [out_trace out_res out_heap prepend] in Hin.
      destruct (update_inv env d c l s h tr p f1 I R1) as (s1 & -> & I1 & _).
      rewrite <- app_assoc, in_app_iff in Hin. destruct Hin as [Hin|Hin].
      * destruct (update_onInit env d c l s h tr p g a I Hin) as (Ha & Hg).
        split; [exact Ha|]. exists p. split; [left; reflexivity|exact Hg].
      * destruct (IH _ _ _ _ _ g a I1 Hin) as (Ha & q & Hq & Hg).
        split; [exact Ha|]. exists q. split; [right; exact Hq|exact Hg].
    + rewrite (bind_thrown _ _ _ _ h _ _ e
                 (eq_trans (out_eta _ _) (f_equal _ R1))) in Hin.
      cbn [out_trace out_res app] in Hin. rewrite app_nil_r in Hin.
      destruct (update_onInit env d c l s h tr p g a I Hin) as (Ha & Hg).
      split; [exact Ha|]. exists p. split; [left; reflexivity|exact Hg].
Qed.

Lemma lifecycle_calls env d p0 ps h0 :
  out_trace (lifecycle env d p0 ps h0)
  = out_trace (mount env d p0 h0)
    ++ match out_res (mount env d p0 h0) with
       | Ok f1 =>
           out_trace (updates env ps f1 (out_heap (mount env d p0 h0)))
           ++ match out_res (updates env ps f1 (out_heap (mount env d p0 h0)))
              with
              | Ok f =>
                  out_trace
                    (unmount f (out_heap (updates env ps f1
                                            (out_heap (mount env d p0 h0)))))
              | Throw _ => []
              end
       | Throw _ => []
       end.
Proof.
  unfold lifecycle, mounted. rewrite bind_assoc, bind_trace. f_equal.
  destruct (out_res (mount env d p0 h0)); [|reflexivity].
  apply bind_trace.
Qed.

(** C10: [onInit] is never invoked with a null instance.  The effect invokes
    it only when [xtermRef.current] is non-null and [onInit] is a function,
    passing that instance; and in every life of the adapter, whether or not it
    runs to the end, each [onInit] call has an instance for argument and is a
    call of the [onInit] function of one of the renders. *)
Theorem C10_onInit_only_with_live_instance env :
  (forall p h,
     out_trace (initEffect p h)
     = match xtermRef h, onInit p with
       | Some x, JFun g => [EOnInit g (Some x)]
       | _, _ => []
       end) /\
  (forall d p0 ps h0 g a,
     In (EOnInit g a) (out_trace (lifecycle env d p0 ps h0)) ->
     (exists x, a = Some x) /\ exists p, In p (p0 :: ps) /\ onInit p = JFun g).
Proof.
  split.
  - intros p h. rewrite initEffect_eq. reflexivity.
  - intros d p0 ps h0 g a Hin.
    rewrite lifecycle_calls in Hin. apply in_app_or in Hin.
    destruct Hin as [Hin|Hin].
    + destruct (mount_onInit env d p0 h0 g a Hin) as (Ha & Hg).
      split; [exact Ha|]. exists p0. split; [left; reflexivity|exact Hg].
    + destruct (out_res (mount env d p0 h0)) as [f1|e] eqn:R1; [|destruct Hin].
      destruct (mount_inv env d p0 h0 f1 R1) as (s1 & -> & I1 & _).
      destruct (updates_onInit env d ps _ _ _ _ _ g a I1 Hin)
        as (Ha & q & Hq & Hg).
      split; [exact Ha|]. exists q. split; [right; exact Hq|exact Hg].
Qed.

(** The echo example: its one [onInit] call carries terminal [0]. *)
Lemma C10_witness :
  In (EOnInit 1 (Some 0)) (out_trace (lifecycle quietEnv 0 echoProps [] heap0)) /\
  (exists x, Some 0 = Some x) /\
  exists p, In p [echoProps] /\ onInit p = JFun 1.
Proof.
  assert (I : In (EOnInit 1 (Some 0))
                 (out_trace (lifecycle quietEnv 0 echoProps [] heap0)))
    by (vm_compute; tauto).
  split; [exact I|].
  destruct (C10_onInit_only_with_live_instance quietEnv) as (_ & H).
  exact (H 0 echoProps [] heap0 1 (Some 0) I).
Defined.

(** ** An [options] change after a quiet re-render

    C2 does not hold of the code.  Mounted, re-rendered once with the same
    props, then re-rendered with a new [options] object, the echo example tears
    the old terminal down and constructs the new one, but neither invokes
    [onInit] for the new terminal nor binds [onData] on it: the dependency
    [xtermRef.current] of the last effect is read while rendering, when it
    still holds the old terminal, as it did in the previous render.  Right
    after the mount the same [options] change does invoke [onInit]. *)
Theorem C2_options_change_without_onInit :
  (exists f,
     out_res (mounted quietEnv 0 (withOptions (Some 7) echoProps)
                [withOptions (Some 7) echoProps] heap0) = Ok f /\
     out_trace (update quietEnv (withOptions (Some 8) echoProps) f
                  (out_heap (mounted quietEnv 0 (withOptions (Some 7) echoProps)
                               [withOptions (Some 7) echoProps] heap0)))
     = [EOnDispose 2 0; EDispose 0; ENew 1 (Some 8); EOpen 1 0]) /\
  (exists f,
     out_res (mounted quietEnv 0 (withOptions (Some 7) echoProps) [] heap0)
     = Ok f /\
     out_trace (update quietEnv (withOptions (Some 8) echoProps) f
                  (out_heap (mounted quietEnv 0 (withOptions (Some 7) echoProps)
                               [] heap0)))
     = [EOnDispose 2 0; EDispose 0; ENew 1 (Some 8); EOpen 1 0;
        EOnInit 1 (Some 1)]).
Proof.
  split; eexists; split; vm_compute; reflexivity.
Qed.

Lemma bind_ret_r A (m : M A) h : bind m (fun a => ret a) h = m h.
Proof.
  unfold bind, ret, prepend. destruct (m h) as [t h' [a|e]]; simpl.
  - now rewrite app_nil_r.
  - reflexivity.
Qed.

Lemma updates_snoc env ps q : forall f h,
  updates env (ps ++ [q]) f h
  = bind (updates env ps f) (fun f1 => update env q f1) h.
Proof.
  induction ps as [|p ps IH]; intros f h; cbn [updates app].
  - rewrite bind_ret_l. apply bind_ret_r.
  - rewrite bind_assoc. apply bind_ext. intros f1 h1. apply IH.
Qed.

Lemma mounted_snoc env d p0 ps q h0 :
  mounted env d p0 (ps ++ [q]) h0
  = bind (mounted env d p0 ps) (fun f1 => update env q f1) h0.
Proof.
  unfold mounted. rewrite bind_assoc. apply bind_ext. intros f1 h1.
  apply updates_snoc.
Qed.

Lemma out_res_prepend A t (o : Out A) : out_res (prepend t o) = out_res o.
Proof. reflexivity. Qed.

Lemma out_heap_prepend A t (o : Out A) : out_heap (prepend t o) = out_heap o.
Proof. reflexivity. Qed.

Lemma mounted_snoc_inv env d p0 ps q h0 f :
  out_res (mounted env d p0 (ps ++ [q]) h0) = Ok f ->
  exists f1,
    out_res (mounted env d p0 ps h0) = Ok f1 /\
    out_res (update env q f1 (out_heap (mounted env d p0 ps h0))) = Ok f /\
    out_heap (mounted env d p0 (ps ++ [q]) h0)
    = out_heap (update env q f1 (out_heap (mounted env d p0 ps h0))).
Proof.
  rewrite mounted_snoc. intros R.
  destruct (bind_ok_inv _ _ _ _ _ _ R) as (f1 & R1 & Eq).
  exists f1. split; [exact R1|].
  rewrite Eq in R. rewrite out_res_prepend in R.
  rewrite Eq, out_heap_prepend. split; [exact R|reflexivity].
Qed.

Lemma filter_isOnInit_other k t :
  k <> KInit -> allOf k t -> filter isOnInit t = [].
Proof.
  intros N. apply filter_allOf. intros [] K; try reflexivity.
  exfalso. apply N. symmetry. exact K.
Qed.

(** The defect in general: whenever the render before an [options] change
    kept the identity of [options], the commit of the change makes no
    [onInit] call at all. *)
Lemma options_change_after_steady_render_skips_onInit env d p0 ps q h0 f p :
  out_res (mounted env d p0 (ps ++ [q]) h0) = Ok f ->
  options q = options (last ps p0) ->
  options p <> options q ->
  filter isOnInit
    (out_trace (update env p f (out_heap (mounted env d p0 (ps ++ [q]) h0))))
  = [].
Proof.
  intros R Q N.
  destruct (mounted_snoc_inv env d p0 ps q h0 f R) as (f1 & R1 & R2 & ->).
  destruct (mounted_inv env d p0 ps h0 f1 R1) as (s1 & -> & I1).
  destruct (update_inv env d _ _ s1 _ _ q f I1 R2) as (s2 & -> & I2 & Dep & Tm).
  assert (Ts : sh_term s2 = sh_term s1).
  { apply Tm. rewrite (inv_constructing _ _ _ _ _ _ I1). exact Q. }
  destruct I2 as [D X O C OD B Fr Kn Lv At].
  pose proof (Forall2_length (binv_slots _ _ _ _ B)) as L.
  assert (Q' : options p <> sh_options s2) by (rewrite O; exact N).
  destruct (firstFailure env
              (nextTerm (out_heap (update env q (fiberOf env s1)
                                     (out_heap (mounted env d p0 ps h0)))))
              (addonList p)) as [[[pre a] e]|] eqn:F.
  - rewrite (update_recreate_throw env p s2 _ d pre a e D X L Q' F).
    cbn [out_trace].
    apply filter_app_nil; [|apply filter_app_nil].
    + apply (filter_isOnInit_other KTeardown); [discriminate|].
      apply allOf_teardownCalls.
    + apply (filter_isOnInit_other KBinding); [discriminate|].
      apply allOf_slotsUnsub.
    + apply (filter_isOnInit_other KConstruct); [discriminate|].
      apply allOf_newLoads.
  - destruct (slotsRebind
                (Some (nextTerm (out_heap (update env q (fiberOf env s1)
                                             (out_heap (mounted env d p0 ps h0))))))
                (nextBinding (out_heap (update env q (fiberOf env s1)
                                          (out_heap (mounted env d p0 ps h0)))))
                (sh_slots s2) (handlerOf p) eventNames)
      as [[T nb] slots] eqn:E.
    rewrite (update_recreate env p s2 _ d T nb slots D X L Q' F E).
    destruct (slotsRebind_trace _ _ _ _ _ _ (binv_slots _ _ _ _ B) _ _ _ E)
      as (bs & HT & _ & _).
    cbn [out_trace]. rewrite Dep, Ts.
    destruct (optnat_eq_dec (Some (sh_term s1)) (Some (sh_term s1)))
      as [_|Ne]; [|contradiction].
    rewrite app_nil_r.
    apply filter_app_nil; [|apply filter_app_nil; [|apply filter_app_nil]].
    + apply (filter_isOnInit_other KTeardown); [discriminate|].
      apply allOf_teardownCalls.
    + apply (filter_isOnInit_other KBinding); [discriminate|].
      apply allOf_slotsUnsub.
    + apply (filter_isOnInit_other KConstruct); [discriminate|].
      apply allOf_constructCalls.
    + rewrite HT. apply (filter_isOnInit_other KBinding); [discriminate|].
      apply allOf_subscribes.
Qed.

(** * Further properties of the component *)

(** ** Reachable states, by induction on the renders *)

(** A re-render that completes, case by case, with its calls. *)
Lemma update_ok_cases env d c l s h tr p f' :
  Inv d c l s h tr ->
  out_res (update env p (fiberOf env s) h) = Ok f' ->
  exists T nb slots' bs,
    T = map ESubscribe bs /\
    ((options p = options l /\
      Forall (fun b => b_term b = sh_term s) bs /\
      update env p (fiberOf env s) h
      = mkOut (slotsUnsub (sh_slots s) (handlerOf p) eventNames ++ T
               ++ (if optnat_eq_dec (Some (sh_term s)) (sh_initDep s) then []
                   else initCalls (Some (sh_term s)) (onInit p)))
              (withNextBinding nb h)
              (Ok (fiberOf env (mkShape (options p) (sh_onDispose s) (sh_term s)
                                        slots' (Some (sh_term s))))))
     \/
     (options p <> options l /\
      Forall (fun b => b_term b = nextTerm h) bs /\
      update env p (fiberOf env s) h
      = mkOut (teardownCalls env (sh_onDispose s) (sh_term s)
               ++ slotsUnsub (sh_slots s) (handlerOf p) eventNames
               ++ constructCalls (nextTerm h) d p ++ T
               ++ (if optnat_eq_dec (Some (sh_term s)) (sh_initDep s) then []
                   else initCalls (Some (nextTerm h)) (onInit p)))
              (mkHeap (Some d) (Some (nextTerm h)) (S (nextTerm h)) nb)
              (Ok (fiberOf env (mkShape (options p) (onDispose p) (nextTerm h)
                                        slots' (Some (sh_term s))))))).
Proof.
  intros [D X O C OD B Fr Kn Lv At] R.
  pose proof (Forall2_length (binv_slots _ _ _ _ B)) as L.
  destruct (optnat_eq_dec (options p) (sh_options s)) as [Q|Q].
  - destruct (slotsRebind (Some (sh_term s)) (nextBinding h) (sh_slots s)
                          (handlerOf p) eventNames) as [[T nb] slots] eqn:E.
    destruct (slotsRebind_trace _ _ _ _ _ _ (binv_slots _ _ _ _ B) _ _ _ E)
      as (bs & HT & _ & Hbs).
    exists T, nb, slots, bs. split; [exact HT|]. left.
    split; [rewrite <- O; exact Q|]. split.
    + eapply Forall_impl; [|exact Hbs]. intros b Hb. exact (proj1 Hb).
    + exact (update_keep env p s h d T nb slots D X L Q E).
  - destruct (firstFailure env (nextTerm h) (addonList p))
      as [[[pre a] e]|] eqn:F.
    { rewrite (update_recreate_throw env p s h d pre a e D X L Q F) in R.
      discriminate. }
    destruct (slotsRebind (Some (nextTerm h)) (nextBinding h) (sh_slots s)
                          (handlerOf p) eventNames) as [[T nb] slots] eqn:E.
    destruct (slotsRebind_trace _ _ _ _ _ _ (binv_slots _ _ _ _ B) _ _ _ E)
      as (bs & HT & _ & Hbs).
    exists T, nb, slots, bs. split; [exact HT|]. right.
    split; [rewrite <- O; exact Q|]. split.
    + eapply Forall_impl; [|exact Hbs]. intros b Hb. exact (proj1 Hb).
    + exact (update_recreate env p s h d T nb slots D X L Q F E).
Qed.

Lemma out_trace_prepend A t (o : Out A) :
  out_trace (prepend t o) = t ++ out_trace o.
Proof. reflexivity. Qed.

(** A property of the cells and of the calls so far that the mount
    establishes and every completed re-render preserves holds of every
    mounted adapter; [G] restricts the props of the renders. *)
Lemma updates_reach_where env d (G : Props -> Prop)
  (P : Heap -> list Event -> Prop) :
  (forall c l s h tr p f',
     Inv d c l s h tr -> G l -> G p -> P h tr ->
     out_res (update env p (fiberOf env s) h) = Ok f' ->
     P (out_heap (update env p (fiberOf env s) h))
       (tr ++ out_trace (update env p (fiberOf env s) h))) ->
  forall ps c l s h tr f,
    Inv d c l s h tr -> G l -> Forall G ps -> P h tr ->
    out_res (updates env ps (fiberOf env s) h) = Ok f ->
    P (out_heap (updates env ps (fiberOf env s) h))
      (tr ++ out_trace (updates env ps (fiberOf env s) h)).
Proof.
  intros Step. induction ps as [|p ps IH]; intros c l s h tr f I Gl Gs Hp R.
  - cbn [updates ret out_heap out_trace]. rewrite app_nil_r. exact Hp.
  - cbn [updates] in R |- *.
    destruct (bind_ok_inv _ _ _ _ _ _ R) as (f1 & R1 & Eq).
    rewrite Eq in R |- *.
    rewrite out_res_prepend in R.
    rewrite out_heap_prepend, out_trace_prepend, app_assoc.
    destruct (update_inv env d c l s h tr p f1 I R1) as (s1 & -> & I1 & _).
    pose proof (Step _ _ _ _ _ _ _ I Gl (Forall_inv Gs) Hp R1) as Hp1.
    cbv beta in R |- *.
    eapply IH; [exact I1|exact (Forall_inv Gs)|exact (Forall_inv_tail Gs)
               |exact Hp1|exact R].
Qed.

Lemma mounted_ok_inv env d p0 ps h0 f :
  out_res (mounted env d p0 ps h0) = Ok f ->
  exists f1,
    out_res (mount env d p0 h0) = Ok f1 /\
    mounted env d p0 ps h0
    = prepend (out_trace (mount env d p0 h0))
              (updates env ps f1 (out_heap (mount env d p0 h0))).
Proof. unfold mounted. apply bind_ok_inv. Qed.

Lemma mounted_reach_where env d (G : Props -> Prop)
  (P : Heap -> list Event -> Prop) :
  (forall p h0 f,
     G p -> out_res (mount env d p h0) = Ok f ->
     P (out_heap (mount env d p h0)) (out_trace (mount env d p h0))) ->
  (forall c l s h tr p f',
     Inv d c l s h tr -> G l -> G p -> P h tr ->
     out_res (update env p (fiberOf env s) h) = Ok f' ->
     P (out_heap (update env p (fiberOf env s) h))
       (tr ++ out_trace (update env p (fiberOf env s) h))) ->
  forall p0 ps h0 f,
    G p0 -> Forall G ps ->
    out_res (mounted env d p0 ps h0) = Ok f ->
    P (out_heap (mounted env d p0 ps h0)) (out_trace (mounted env d p0 ps h0)).
Proof.
  intros Base Step p0 ps h0 f G0 Gs R.
  destruct (mounted_ok_inv env d p0 ps h0 f R) as (f1 & R1 & Eq).
  rewrite Eq in R |- *.
  rewrite out_res_prepend in R. rewrite out_heap_prepend, out_trace_prepend.
  destruct (mount_inv env d p0 h0 f1 R1) as (s1 & -> & I1 & _).
  pose proof (Base _ _ _ G0 R1) as Hp1.
  eapply (updates_reach_where env d G P Step);
    [exact I1|exact G0|exact Gs|exact Hp1|exact R].
Qed.

Lemma Forall_True (A : Type) (l : list A) : Forall (fun _ => True) l.
Proof. induction l; constructor; auto. Qed.

Lemma mounted_reach env d (P : Heap -> list Event -> Prop) :
  (forall p h0 f,
     out_res (mount env d p h0) = Ok f ->
     P (out_heap (mount env d p h0)) (out_trace (mount env d p h0))) ->
  (forall c l s h tr p f',
     Inv d c l s h tr -> P h tr ->
     out_res (update env p (fiberOf env s) h) = Ok f' ->
     P (out_heap (update env p (fiberOf env s) h))
       (tr ++ out_trace (update env p (fiberOf env s) h))) ->
  forall p0 ps h0 f,
    out_res (mounted env d p0 ps h0) = Ok f ->
    P (out_heap (mounted env d p0 ps h0)) (out_trace (mounted env d p0 ps h0)).
Proof.
  intros Base Step p0 ps h0 f R.
  apply (mounted_reach_where env d (fun _ => True) P) with (f := f).
  - intros p h f1 _. apply Base.
  - intros c l s h tr p f' I _ _. apply Step with (c := c) (l := l). exact I.
  - exact I.
  - apply Forall_True.
  - exact R.
Qed.

(** ** A failing addon *)

Lemma firstFailure_intro env x pre a post e :
  (forall b, In b pre -> load_throws env x b = None) ->
  load_throws env x a = Some e ->
  firstFailure env x (pre ++ a :: post) = Some (pre, a, e).
Proof.
  intros Hpre Ha. induction pre as [|b pre IH]; simpl.
  - now rewrite Ha.
  - rewrite (Hpre b (or_introl eq_refl)).
    rewrite IH; [reflexivity|].
    intros b' Hb'. apply Hpre. right. exact Hb'.
Qed.

Lemma isDisposal_closeCall ob : Forall isDisposal (closeCall ob).
Proof. destruct ob as [b|]; repeat constructor. now exists b. Qed.

Lemma isDisposal_slotsUnsub slots hn : forall evs,
  Forall isDisposal (slotsUnsub slots hn evs).
Proof.
  induction slots as [|s slots IH]; intros [|ev evs]; cbn [slotsUnsub];
    try constructor.
  apply Forall_app. split; [|apply IH].
  unfold slotUnsub. destruct (JsVal_eq_dec _ _); [constructor|].
  apply isDisposal_closeCall.
Qed.

(** X1: an addon whose [loadAddon] throws ends the commit with that error;
    nothing in the component catches it.  The calls of the commit are then
    fixed.  At mount they are [new Terminal(options)] and the loads of the
    addons up to and including the failing one, in order.  After an [options]
    change these same calls follow the calls of the cleanup pass, which are
    teardown calls, among them [dispose] of the old instance, and disposals of
    event bindings, and construct nothing.  So the commit makes no call after
    the failing load: no later addon is loaded, no key handler is attached,
    [open] is not called, no binding is created and [onInit] is not invoked;
    [xtermRef.current] is null when the commit ends, and the commit does not
    dispose the terminal it has constructed.  What React does once the commit
    has thrown is not part of this property. *)
Theorem X1_addon_failure_aborts_construction env d :
  (forall p h0 pre a post e,
     addons p = Some (pre ++ a :: post) ->
     (forall b, In b pre -> load_throws env (nextTerm h0) b = None) ->
     load_throws env (nextTerm h0) a = Some e ->
     mount env d p h0
     = mkOut (ENew (nextTerm h0) (options p)
              :: map (ELoadAddon (nextTerm h0)) (pre ++ [a]))
             (mkHeap (Some d) None (S (nextTerm h0)) (nextBinding h0))
             (Throw e)) /\
  (forall p0 ps h0 f p pre a post e,
     out_res (mounted env d p0 ps h0) = Ok f ->
     options p <> options (last ps p0) ->
     addons p = Some (pre ++ a :: post) ->
     (forall b, In b pre ->
        load_throws env (nextTerm (out_heap (mounted env d p0 ps h0))) b = None) ->
     load_throws env (nextTerm (out_heap (mounted env d p0 ps h0))) a = Some e ->
     out_res (update env p f (out_heap (mounted env d p0 ps h0))) = Throw e /\
     xtermRef (out_heap (update env p f (out_heap (mounted env d p0 ps h0))))
     = None /\
     exists x t1,
       xtermRef (out_heap (mounted env d p0 ps h0)) = Some x /\
       In (EDispose x) t1 /\
       filter isNew t1 = [] /\
       Forall (fun c => kindOf c = KTeardown \/ isDisposal c) t1 /\
       out_trace (update env p f (out_heap (mounted env d p0 ps h0)))
       = t1 ++ ENew (nextTerm (out_heap (mounted env d p0 ps h0))) (options p)
            :: map (ELoadAddon (nextTerm (out_heap (mounted env d p0 ps h0))))
                   (pre ++ [a])).
Proof.
  split.
  - intros p h0 pre a post e A Hpre Ha.
    apply mount_throw. unfold addonList. rewrite A.
    now apply firstFailure_intro.
  - intros p0 ps h0 f p pre a post e R Np A Hpre Ha.
    destruct (mounted_inv env d p0 ps h0 f R) as (s & -> & I).
    destruct I as [D X O C OD B Fr Kn Lv At].
    pose proof (Forall2_length (binv_slots _ _ _ _ B)) as L.
    assert (Q : options p <> sh_options s) by (rewrite O; exact Np).
    assert (F : firstFailure env (nextTerm (out_heap (mounted env d p0 ps h0)))
                  (addonList p) = Some (pre, a, e)).
    { unfold addonList. rewrite A. now apply firstFailure_intro. }
    rewrite (update_recreate_throw env p s _ d pre a e D X L Q F).
    cbn [out_res out_heap out_trace xtermRef].
    split; [reflexivity|]. split; [reflexivity|].
    exists (sh_term s),
      (teardownCalls env (sh_onDispose s) (sh_term s)
       ++ slotsUnsub (sh_slots s) (handlerOf p) eventNames).
    split; [exact X|]. split; [|split; [|split]].
    + apply in_or_app. left. unfold teardownCalls, disposeCalls.
      apply in_or_app. right. left. reflexivity.
    + apply filter_app_nil.
      * apply (filter_allOf isNew KTeardown).
        -- intros [] K; try discriminate; reflexivity.
        -- apply allOf_teardownCalls.
      * apply (filter_allOf isNew KBinding).
        -- intros [] K; try discriminate; reflexivity.
        -- apply allOf_slotsUnsub.
    + apply Forall_app. split.
      * eapply Forall_impl; [|apply allOf_teardownCalls].
        intros c K. left. exact K.
      * eapply Forall_impl; [|apply isDisposal_slotsUnsub].
        intros c K. right. exact K.
    + rewrite <- app_assoc. reflexivity.
Qed.

(** Addons [10; 11; 12] with [11] failing, at mount and at re-construction. *)
Lemma X1_witness :
  mount failingAddon 0 (withAddons (Some ([10] ++ 11 :: [12])) echoProps) heap0
  = mkOut (ENew 0 None :: map (ELoadAddon 0) ([10] ++ [11]))
          (mkHeap (Some 0) None 1 0) (Throw 5) /\
  exists f,
    out_res (mounted failingAddon 0 echoProps [] heap0) = Ok f /\
    out_res (update failingAddon
               (withOptions (Some 7)
                  (withAddons (Some ([10] ++ 11 :: [12])) echoProps)) f
               (out_heap (mounted failingAddon 0 echoProps [] heap0)))
    = Throw 5.
Proof.
  destruct (X1_addon_failure_aborts_construction failingAddon 0) as (H1 & H2).
  split.
  - apply (H1 (withAddons (Some ([10] ++ 11 :: [12])) echoProps) heap0
              [10] 11 [12] 5); [reflexivity| |reflexivity].
    intros b [<-|[]]. reflexivity.
  - assert (R : exists f,
               out_res (mounted failingAddon 0 echoProps [] heap0) = Ok f)
      by (eexists; vm_compute; reflexivity).
    destruct R as (f & R). exists f. split; [exact R|].
    apply (H2 echoProps [] heap0 f
              (withOptions (Some 7)
                 (withAddons (Some ([10] ++ 11 :: [12])) echoProps))
              [10] 11 [12] 5 R); [discriminate|reflexivity| |].
    + intros b [<-|[]]. vm_compute. reflexivity.
    + vm_compute. reflexivity.
Defined.

(** ** Re-renders that keep [options] *)

Lemma steady_update env d c l s h tr p :
  Inv d c l s h tr ->
  options p = options l ->
  (exists f', out_res (update env p (fiberOf env s) h) = Ok f') /\
  xtermRef (out_heap (update env p (fiberOf env s) h)) = xtermRef h /\
  Forall (fun e => kindOf e = KBinding \/ kindOf e = KInit)
         (out_trace (update env p (fiberOf env s) h)).
Proof.
  intros [D X O C OD B Fr Kn Lv At] Q.
  pose proof (Forall2_length (binv_slots _ _ _ _ B)) as L.
  assert (Q' : options p = sh_options s) by (rewrite O; exact Q).
  destruct (slotsRebind (Some (sh_term s)) (nextBinding h) (sh_slots s)
                        (handlerOf p) eventNames) as [[T nb] slots] eqn:E.
  destruct (slotsRebind_trace _ _ _ _ _ _ (binv_slots _ _ _ _ B) _ _ _ E)
    as (bs & HT & _ & _).
  rewrite (update_keep env p s h d T nb slots D X L Q' E).
  cbn [out_res out_heap out_trace withNextBinding xtermRef].
  split; [eexists; reflexivity|]. split; [reflexivity|].
  apply Forall_app. split; [|apply Forall_app; split].
  - eapply Forall_impl; [|apply allOf_slotsUnsub]. simpl. auto.
  - rewrite HT. eapply Forall_impl; [|apply allOf_subscribes]. simpl. auto.
  - destruct (optnat_eq_dec _ _); [constructor|].
    eapply Forall_impl; [|apply allOf_initCalls]. simpl. auto.
Qed.

(** X2: a re-render that keeps the identity of [options] always completes and
    leaves the terminal alone, whatever the other props are: the only calls
    are creations and disposals of event bindings and possibly [onInit]; no
    terminal is constructed, configured, opened or disposed, and
    [xtermRef.current] is the same instance afterwards. *)
Theorem X2_steady_rerender_leaves_terminal_alone env d p0 ps h0 f p :
  out_res (mounted env d p0 ps h0) = Ok f ->
  options p = options (last ps p0) ->
  (exists f', out_res (update env p f (out_heap (mounted env d p0 ps h0))) = Ok f') /\
  xtermRef (out_heap (update env p f (out_heap (mounted env d p0 ps h0))))
  = xtermRef (out_heap (mounted env d p0 ps h0)) /\
  Forall (fun e => kindOf e = KBinding \/ kindOf e = KInit)
         (out_trace (update env p f (out_heap (mounted env d p0 ps h0)))).
Proof.
  intros R Q. destruct (mounted_inv env d p0 ps h0 f R) as (s & -> & I).
  exact (steady_update env d _ _ s _ _ p I Q).
Qed.

(** The echo example re-rendered with every callback replaced. *)
Lemma X2_witness :
  exists f,
    out_res (mounted quietEnv 0 echoProps [] heap0) = Ok f /\
    (exists f',
       out_res (update quietEnv
                  (withOnData (JFun 13) (withOnInit (JFun 11)
                                           (withOnDispose (JFun 12) echoProps)))
                  f (out_heap (mounted quietEnv 0 echoProps [] heap0))) = Ok f') /\
    xtermRef (out_heap (update quietEnv
                          (withOnData (JFun 13)
                             (withOnInit (JFun 11)
                                (withOnDispose (JFun 12) echoProps)))
                          f (out_heap (mounted quietEnv 0 echoProps [] heap0))))
    = xtermRef (out_heap (mounted quietEnv 0 echoProps [] heap0)) /\
    Forall (fun e => kindOf e = KBinding \/ kindOf e = KInit)
           (out_trace (update quietEnv
                         (withOnData (JFun 13)
                            (withOnInit (JFun 11)
                               (withOnDispose (JFun 12) echoProps)))
                         f (out_heap (mounted quietEnv 0 echoProps [] heap0)))).
Proof.
  assert (R : exists f, out_res (mounted quietEnv 0 echoProps [] heap0) = Ok f)
    by (eexists; vm_compute; reflexivity).
  destruct R as (f & R). exists f. split; [exact R|].
  apply (X2_steady_rerender_leaves_terminal_alone quietEnv 0 echoProps []
           heap0 f _ R).
  reflexivity.
Defined.

(** ** One terminal at a time *)

Lemma filter_isLife_teardownCalls env od x :
  filter isLife (teardownCalls env od x) = [EDispose x].
Proof.
  unfold teardownCalls, onDisposeCall, disposeCalls.
  destruct od; destruct (dispose_throws env x); reflexivity.
Qed.

Lemma filter_isLife_constructCalls x d p :
  filter isLife (constructCalls x d p) = [ENew x (options p); EOpen x d].
Proof.
  unfold constructCalls. cbn [filter isLife isNew isOpen isDispose orb]. f_equal.
  rewrite !filter_app.
  assert (L : filter isLife (map (ELoadAddon x) (addonList p)) = [])
    by (induction (addonList p); simpl; auto).
  assert (A : filter isLife (attachCalls x (customKeyEventHandler p)) = [])
    by (unfold attachCalls; destruct (truthy _); reflexivity).
  rewrite L, A. reflexivity.
Qed.

Lemma filter_isLife_bindings t : allOf KBinding t -> filter isLife t = [].
Proof.
  apply filter_allOf. intros [] K; try discriminate; reflexivity.
Qed.

Lemma filter_isLife_initCalls cur oi : filter isLife (initCalls cur oi) = [].
Proof.
  apply (filter_allOf isLife KInit).
  - intros [] K; try discriminate; reflexivity.
  - apply allOf_initCalls.
Qed.

Lemma filter_isLife_initPart a b cur oi :
  filter isLife (if optnat_eq_dec a b then [] else initCalls cur oi) = [].
Proof.
  destruct (optnat_eq_dec a b); [reflexivity|apply filter_isLife_initCalls].
Qed.

Lemma lives_snoc d ts i :
  lives d (ts ++ [i])
  = lives d ts ++ [ENew (fst i) (snd i); EOpen (fst i) d; EDispose (fst i)].
Proof. unfold lives. rewrite flat_map_app. simpl. reflexivity. Qed.

Lemma in_lives_new d ts i : In i ts -> In (ENew (fst i) (snd i)) (lives d ts).
Proof.
  induction ts as [|j ts IH]; simpl; [tauto|].
  intros [->|H]; [left; reflexivity|right; right; right; auto].
Qed.

Lemma lived_known d nt tr closed rest y :
  Forall (known nt) tr ->
  filter isLife tr = lives d closed ++ rest ->
  In y (map fst closed) -> y < nt.
Proof.
  intros Kn E Hy. apply in_map_iff in Hy. destruct Hy as (i & <- & Hi).
  assert (Hin : In (ENew (fst i) (snd i)) (filter isLife tr)).
  { rewrite E. apply in_or_app. left. now apply in_lives_new. }
  apply filter_In in Hin. destruct Hin as (Hin & _).
  rewrite Forall_forall in Kn. exact (Kn _ Hin).
Qed.

Lemma NoDup_snoc (A : Type) (l : list A) a :
  NoDup l -> ~ In a l -> NoDup (l ++ [a]).
Proof.
  induction 1 as [|b l Nb ND IH]; simpl; intros Na.
  - constructor; [simpl; tauto|constructor].
  - constructor.
    + rewrite in_app_iff. simpl. intros [H|[H|[]]]; [contradiction|].
      apply Na. left. symmetry. exact H.
    + apply IH. intros H. apply Na. right. exact H.
Qed.

Lemma oneLive_mount env d p h0 f :
  out_res (mount env d p h0) = Ok f ->
  oneLive d (out_heap (mount env d p h0)) (out_trace (mount env d p h0)).
Proof.
  intros R.
  destruct (firstFailure env (nextTerm h0) (addonList p)) as [[[pre a] e]|] eqn:F.
  { rewrite (mount_throw env d p h0 pre a e F) in R. discriminate. }
  destruct (slotsBind (Some (nextTerm h0)) (nextBinding h0) (handlerOf p)
                      eventNames) as [[T nb] slots] eqn:E.
  rewrite (mount_ok env d p h0 T nb slots F E).
  destruct (slotsBind_trace _ _ _ _ _ _ _ E) as (bs & HT & _ & _).
  cbn [out_trace out_heap].
  exists (nextTerm h0), (options p), [].
  split; [reflexivity|]. split; [|split; [simpl; tauto|constructor]].
  rewrite !filter_app, filter_isLife_constructCalls.
  rewrite (filter_isLife_bindings T) by (rewrite HT; apply allOf_subscribes).
  rewrite filter_isLife_initCalls. reflexivity.
Qed.

Lemma oneLive_update env d c l s h tr p f' :
  Inv d c l s h tr -> oneLive d h tr ->
  out_res (update env p (fiberOf env s) h) = Ok f' ->
  oneLive d (out_heap (update env p (fiberOf env s) h))
          (tr ++ out_trace (update env p (fiberOf env s) h)).
Proof.
  intros I (x & o & closed & Hx & Hl & Nin & ND) R.
  destruct (update_ok_cases env d c l s h tr p f' I R)
    as (T & nb & slots' & bs & HT & [(Q & _ & Eq)|(Q & _ & Eq)]);
    rewrite Eq; cbn [out_heap out_trace withNextBinding xtermRef].
  - exists x, o, closed. split; [exact Hx|]. split; [|split; assumption].
    rewrite !filter_app, Hl.
    rewrite (filter_isLife_bindings _ (allOf_slotsUnsub _ _ _)).
    rewrite (filter_isLife_bindings T) by (rewrite HT; apply allOf_subscribes).
    rewrite filter_isLife_initPart. now rewrite !app_nil_r.
  - destruct I as [D X O C OD B Fr Kn Lv At].
    assert (Ex : x = sh_term s) by (rewrite X in Hx; injection Hx; auto).
    subst x.
    exists (nextTerm h), (options p), (closed ++ [(sh_term s, o)]).
    split; [reflexivity|]. split; [|split].
    + rewrite !filter_app, Hl, filter_isLife_teardownCalls,
        filter_isLife_constructCalls.
      rewrite (filter_isLife_bindings _ (allOf_slotsUnsub _ _ _)).
      rewrite (filter_isLife_bindings T) by (rewrite HT; apply allOf_subscribes).
      rewrite filter_isLife_initPart.
      rewrite lives_snoc. cbn [fst snd app].
      rewrite <- !app_assoc. reflexivity.
    + rewrite map_app, in_app_iff. cbn [map fst In]. intros [Hy|[Hy|[]]].
      * pose proof (lived_known _ _ _ _ _ _ Kn Hl Hy). lia.
      * lia.
    + rewrite map_app. cbn [map fst].
      apply NoDup_snoc; assumption.
Qed.

Lemma oneLive_unmount env d c l s h tr :
  Inv d c l s h tr -> oneLive d h tr ->
  exists insts,
    filter isLife (tr ++ out_trace (unmount (fiberOf env s) h)) = lives d insts /\
    NoDup (map fst insts) /\
    exists o, last insts (0, None) = (sh_term s, o).
Proof.
  intros [D X O C OD B Fr Kn Lv At] (x & o & closed & Hx & Hl & Nin & ND).
  assert (Ex : x = sh_term s) by (rewrite X in Hx; injection Hx; auto).
  subst x.
  exists (closed ++ [(sh_term s, o)]). split; [|split].
  - rewrite unmount_eq. cbn [out_trace].
    rewrite !filter_app, Hl, filter_isLife_teardownCalls.
    rewrite (filter_isLife_bindings _ (allOf_allUnsub _)).
    rewrite lives_snoc. cbn [fst snd app].
    rewrite <- !app_assoc. reflexivity.
  - rewrite map_app. cbn [map fst]. apply NoDup_snoc; assumption.
  - exists o. apply last_last.
Qed.

(** X3: an adapter has one terminal at a time, opens each in its own
    container and disposes every terminal it constructs.  Over a whole life,
    the calls [new Terminal], [open] and [dispose] are a sequence of triples
    "construct [x], open [x] in the container, dispose [x]" over pairwise
    distinct terminals: each terminal is opened once, in the [div] the
    component rendered, and disposed exactly once, before the next one is
    constructed; the last one is the terminal that was live at unmount. *)
Theorem X3_one_terminal_at_a_time env d p0 ps h0 f :
  out_res (mounted env d p0 ps h0) = Ok f ->
  exists insts x o,
    filter isLife (out_trace (lifecycle env d p0 ps h0)) = lives d insts /\
    NoDup (map fst insts) /\
    xtermRef (out_heap (mounted env d p0 ps h0)) = Some x /\
    last insts (0, None) = (x, o).
Proof.
  intros R. rewrite (lifecycle_trace env d p0 ps h0 f R), out_trace_prepend.
  pose proof (mounted_reach env d (oneLive d) (oneLive_mount env d)
                (oneLive_update env d) p0 ps h0 f R) as H1.
  destruct (mounted_inv env d p0 ps h0 f R) as (s & -> & I).
  destruct (oneLive_unmount env d _ _ s _ _ I H1) as (insts & Hl & ND & o & Hlast).
  exists insts, (sh_term s), o. split; [exact Hl|]. split; [exact ND|].
  split; [exact (inv_term _ _ _ _ _ _ I)|exact Hlast].
Qed.

(** The echo example through two [options] changes: three terminals. *)
Lemma X3_witness :
  exists f,
    out_res (mounted quietEnv 0 echoProps
               [withOptions (Some 7) echoProps; withOptions (Some 8) echoProps]
               heap0) = Ok f /\
    exists insts x o,
      filter isLife
        (out_trace (lifecycle quietEnv 0 echoProps
                      [withOptions (Some 7) echoProps;
                       withOptions (Some 8) echoProps] heap0)) = lives 0 insts /\
      NoDup (map fst insts) /\
      xtermRef (out_heap (mounted quietEnv 0 echoProps
                            [withOptions (Some 7) echoProps;
                             withOptions (Some 8) echoProps] heap0)) = Some x /\
      last insts (0, None) = (x, o).
Proof.
  assert (R : exists f,
             out_res (mounted quietEnv 0 echoProps
                        [withOptions (Some 7) echoProps;
                         withOptions (Some 8) echoProps] heap0) = Ok f)
    by (eexists; vm_compute; reflexivity).
  destruct R as (f & R). exists f. split; [exact R|].
  exact (X3_one_terminal_at_a_time quietEnv 0 echoProps _ heap0 f R).
Defined.

(** ** When [onInit] runs *)

Lemma filter_isOnInit_initCalls cur oi :
  filter isOnInit (initCalls cur oi) = initCalls cur oi.
Proof. destruct cur, oi; reflexivity. Qed.

(** The [onInit] calls of a re-render that completes: none when the
    dependency [xtermRef.current] recorded by the previous render is the
    terminal that is live now; else the call the effect makes, on the terminal
    that is live after the commit. *)
Lemma update_onInit_calls env d c l s h tr p f' :
  Inv d c l s h tr ->
  out_res (update env p (fiberOf env s) h) = Ok f' ->
  filter isOnInit (out_trace (update env p (fiberOf env s) h))
  = if optnat_eq_dec (Some (sh_term s)) (sh_initDep s) then []
    else initCalls (xtermRef (out_heap (update env p (fiberOf env s) h)))
                   (onInit p).
Proof.
  intros I R.
  destruct (update_ok_cases env d c l s h tr p f' I R)
    as (T & nb & slots' & bs & HT & [(Q & _ & Eq)|(Q & _ & Eq)]);
    rewrite Eq; cbn [out_heap out_trace withNextBinding xtermRef].
  - rewrite (inv_term _ _ _ _ _ _ I).
    rewrite !filter_app.
    rewrite (filter_isOnInit_other KBinding _ ltac:(discriminate)
               (allOf_slotsUnsub _ _ _)).
    rewrite (filter_isOnInit_other KBinding T ltac:(discriminate))
      by (rewrite HT; apply allOf_subscribes).
    destruct (optnat_eq_dec (Some (sh_term s)) (sh_initDep s));
      [reflexivity|apply filter_isOnInit_initCalls].
  - rewrite !filter_app.
    rewrite (filter_isOnInit_other KTeardown _ ltac:(discriminate)
               (allOf_teardownCalls _ _ _)).
    rewrite (filter_isOnInit_other KBinding _ ltac:(discriminate)
               (allOf_slotsUnsub _ _ _)).
    rewrite (filter_isOnInit_other KConstruct _ ltac:(discriminate)
               (allOf_constructCalls _ _ _)).
    rewrite (filter_isOnInit_other KBinding T ltac:(discriminate))
      by (rewrite HT; apply allOf_subscribes).
    destruct (optnat_eq_dec (Some (sh_term s)) (sh_initDep s));
      [reflexivity|apply filter_isOnInit_initCalls].
Qed.

(** Whether the terminal survives a re-render that completes. *)
Lemma update_term env d c l s h tr q f1 :
  Inv d c l s h tr ->
  out_res (update env q (fiberOf env s) h) = Ok f1 ->
  xtermRef (out_heap (update env q (fiberOf env s) h))
  = Some (if optnat_eq_dec (options q) (options l) then sh_term s
          else nextTerm h).
Proof.
  intros I R.
  destruct (update_ok_cases env d c l s h tr q f1 I R)
    as (T & nb & slots' & bs & HT & [(Q & _ & Eq)|(Q & _ & Eq)]);
    rewrite Eq; cbn [out_heap withNextBinding xtermRef];
    destruct (optnat_eq_dec (options q) (options l)); try contradiction.
  - exact (inv_term _ _ _ _ _ _ I).
  - reflexivity.
Qed.

Lemma onInit_after_update env d c l s h tr q f1 p f2 :
  Inv d c l s h tr ->
  out_res (update env q (fiberOf env s) h) = Ok f1 ->
  out_res (update env p f1 (out_heap (update env q (fiberOf env s) h))) = Ok f2 ->
  filter isOnInit
    (out_trace (update env p f1 (out_heap (update env q (fiberOf env s) h))))
  = if optnat_eq_dec (options q) (options l) then []
    else initCalls
           (xtermRef (out_heap (update env p f1
                                  (out_heap (update env q (fiberOf env s) h)))))
           (onInit p).
Proof.
  intros I R1 R2.
  pose proof (update_term env d c l s h tr q f1 I R1) as Hterm.
  destruct (update_inv env d c l s h tr q f1 I R1) as (s2 & -> & I2 & Dep & _).
  rewrite (inv_term _ _ _ _ _ _ I2) in Hterm.
  pose proof (inv_fresh _ _ _ _ _ _ I) as Fr.
  revert R2 I2 Hterm.
  generalize (out_heap (update env q (fiberOf env s) h)).
  generalize (tr ++ out_trace (update env q (fiberOf env s) h)).
  intros tr2 h2 R2 I2 Hterm.
  rewrite (update_onInit_calls env d _ _ s2 h2 tr2 p f2 I2 R2), Dep.
  destruct (optnat_eq_dec (options q) (options l)) as [Q|Q];
    injection Hterm as Hterm.
  - rewrite Hterm.
    destruct (optnat_eq_dec (Some (sh_term s)) (Some (sh_term s)));
      [reflexivity|contradiction].
  - destruct (optnat_eq_dec (Some (sh_term s2)) (Some (sh_term s))) as [E|_];
      [|reflexivity].
    injection E as E. exfalso. rewrite E in Hterm. rewrite Hterm in Fr.
    exact (Nat.lt_irrefl _ Fr).
Qed.

Lemma mounted_nil env d p0 h0 : mounted env d p0 [] h0 = mount env d p0 h0.
Proof. unfold mounted. cbn [updates]. apply bind_ret_r. Qed.

Lemma onInit_after_mount env d p0 h0 f p f' :
  out_res (mount env d p0 h0) = Ok f ->
  out_res (update env p f (out_heap (mount env d p0 h0))) = Ok f' ->
  filter isOnInit (out_trace (update env p f (out_heap (mount env d p0 h0))))
  = initCalls (xtermRef (out_heap (update env p f (out_heap (mount env d p0 h0)))))
              (onInit p).
Proof.
  intros R R2.
  destruct (mount_inv env d p0 h0 f R) as (s & -> & I & _ & Dep & _).
  revert R2 I.
  generalize (out_heap (mount env d p0 h0)).
  generalize (out_trace (mount env d p0 h0)).
  intros tr h R2 I.
  rewrite (update_onInit_calls env d _ _ s h tr p f' I R2), Dep.
  destruct (optnat_eq_dec (Some (sh_term s)) None); [discriminate|reflexivity].
Qed.

(** X4: which re-renders invoke [onInit].  A re-render that completes invokes
    [onInit] exactly when the commit before it replaced the terminal (the
    mount, or a re-render that changed the identity of [options]), whether
    or not it replaces the terminal itself; it then invokes the [onInit] of its
    own props, if a function, once, with the terminal that is live after the
    commit.  So the first re-render after a construction invokes [onInit] for
    a terminal that may have been reported already, and a re-render that
    follows a re-render with unchanged [options] never invokes it. *)
Theorem X4_onInit_runs_after_a_replacing_commit env d p0 ps q h0 :
  (forall f p f',
     out_res (mounted env d p0 [] h0) = Ok f ->
     out_res (update env p f (out_heap (mounted env d p0 [] h0))) = Ok f' ->
     filter isOnInit
       (out_trace (update env p f (out_heap (mounted env d p0 [] h0))))
     = initCalls
         (xtermRef (out_heap (update env p f
                                (out_heap (mounted env d p0 [] h0)))))
         (onInit p)) /\
  (forall f p f',
     out_res (mounted env d p0 (ps ++ [q]) h0) = Ok f ->
     out_res (update env p f (out_heap (mounted env d p0 (ps ++ [q]) h0)))
     = Ok f' ->
     (options q = options (last ps p0) ->
      filter isOnInit
        (out_trace (update env p f (out_heap (mounted env d p0 (ps ++ [q]) h0))))
      = []) /\
     (options q <> options (last ps p0) ->
      filter isOnInit
        (out_trace (update env p f (out_heap (mounted env d p0 (ps ++ [q]) h0))))
      = initCalls
          (xtermRef (out_heap (update env p f
                                 (out_heap (mounted env d p0 (ps ++ [q]) h0)))))
          (onInit p))).
Proof.
  split.
  - intros f p f'. rewrite mounted_nil. apply onInit_after_mount.
  - intros f p f' R R2.
    destruct (mounted_snoc_inv env d p0 ps q h0 f R) as (f1 & R1 & Rq & Eh).
    rewrite Eh in R2 |- *.
    destruct (mounted_inv env d p0 ps h0 f1 R1) as (s1 & -> & I1).
    pose proof (onInit_after_update env d _ _ s1 _ _ q f p f' I1 Rq R2) as H.
    destruct (optnat_eq_dec (options q) (options (last ps p0))) as [Q|Q].
    + split; [intros _; exact H|intros N; contradiction].
    + split; [intros N; contradiction|intros _; exact H].
Qed.

(** The echo example: the re-render right after the mount reports the terminal
    again; after a re-render that keeps [options], a further re-render does
    not; after one that changes [options], the next re-render does. *)
Lemma X4_witness :
  exists f f',
    out_res (mounted quietEnv 0 echoProps
               ([echoProps] ++ [withOptions (Some 7) echoProps]) heap0) = Ok f /\
    out_res (update quietEnv (withOptions (Some 7) echoProps) f
               (out_heap (mounted quietEnv 0 echoProps
                            ([echoProps] ++ [withOptions (Some 7) echoProps])
                            heap0))) = Ok f' /\
    options (withOptions (Some 7) echoProps) <> options (last [echoProps] echoProps) /\
    filter isOnInit
      (out_trace (update quietEnv (withOptions (Some 7) echoProps) f
                    (out_heap (mounted quietEnv 0 echoProps
                                 ([echoProps] ++ [withOptions (Some 7) echoProps])
                                 heap0))))
    = initCalls
        (xtermRef (out_heap (update quietEnv (withOptions (Some 7) echoProps) f
                               (out_heap (mounted quietEnv 0 echoProps
                                            ([echoProps]
                                             ++ [withOptions (Some 7) echoProps])
                                            heap0)))))
        (onInit (withOptions (Some 7) echoProps)).
Proof.
  assert (R : exists f f',
             out_res (mounted quietEnv 0 echoProps
                        ([echoProps] ++ [withOptions (Some 7) echoProps]) heap0)
             = Ok f /\
             out_res (update quietEnv (withOptions (Some 7) echoProps) f
                        (out_heap (mounted quietEnv 0 echoProps
                                     ([echoProps]
                                      ++ [withOptions (Some 7) echoProps])
                                     heap0))) = Ok f')
    by (eexists; eexists; split; vm_compute; reflexivity).
  destruct R as (f & f' & R & R2).
  exists f, f'. split; [exact R|]. split; [exact R2|].
  assert (N : options (withOptions (Some 7) echoProps)
              <> options (last [echoProps] echoProps)) by discriminate.
  split; [exact N|].
  exact (proj2 (proj2 (X4_onInit_runs_after_a_replacing_commit quietEnv 0
                         echoProps [echoProps] (withOptions (Some 7) echoProps)
                         heap0) f (withOptions (Some 7) echoProps) f' R R2) N).
Defined.

(** ** Bindings and the terminal they are on *)

Lemma slotsRebind_created cur hn slots : forall evs nb T nb' slots' b,
  slotsRebind cur nb slots hn evs = (T, nb', slots') ->
  In (ESubscribe b) T ->
  cur = Some (b_term b) /\ hn (b_event b) = JFun (b_handler b).
Proof.
  induction slots as [|s slots IH]; intros [|e evs] nb T nb' slots' b E Hin;
    simpl in E; try (inversion E; subst; destruct Hin).
  destruct (slotRebind cur nb s e (hn e)) as [[t1 nb1] s1] eqn:E1.
  destruct (slotsRebind cur nb1 slots hn evs) as [[t2 nb2] ss] eqn:E2.
  inversion E; subst; clear E.
  apply in_app_or in Hin. destruct Hin as [Hin|Hin].
  - unfold slotRebind, slotBind in E1.
    destruct (JsVal_eq_dec (hn e) (sl_handler s));
      [inversion E1; subst; destruct Hin|].
    destruct cur as [x|]; [|inversion E1; subst; destruct Hin].
    destruct (hn e) eqn:V; inversion E1; subst;
      try (destruct Hin; fail).
    destruct Hin as [Hin|[]]. inversion Hin; subst. simpl. auto.
  - exact (IH _ _ _ _ _ _ E2 Hin).
Qed.

Lemma in_app4 (e : Event) t1 t2 t3 t4 t5 :
  In e (t1 ++ t2 ++ t3 ++ t4 ++ t5) ->
  In e t1 \/ In e t2 \/ In e t3 \/ In e t4 \/ In e t5.
Proof. rewrite !in_app_iff. tauto. Qed.

Lemma notSubscribe_allOf k t b :
  k <> KBinding -> allOf k t -> ~ In (ESubscribe b) t.
Proof.
  intros N F Hin. apply N. symmetry. exact (in_allOf _ _ _ F Hin).
Qed.

(** Every binding a re-render creates is on the terminal that is live after
    the commit and carries the handler the render supplies for its event. *)
Lemma update_created env d c l s h tr p f' b :
  Inv d c l s h tr ->
  out_res (update env p (fiberOf env s) h) = Ok f' ->
  In (ESubscribe b) (out_trace (update env p (fiberOf env s) h)) ->
  xtermRef (out_heap (update env p (fiberOf env s) h)) = Some (b_term b) /\
  handlerOf p (b_event b) = JFun (b_handler b).
Proof.
  intros I R Hin.
  destruct (update_ok_shape env d c l s h tr p f' I R)
    as (x' & pre & mid & post & T & nb & slots' & E & Ht & Hx & Kpre & Kmid & Hpost).
  rewrite Hx. rewrite Ht in Hin.
  apply in_app4 in Hin. destruct Hin as [Hin|[Hin|[Hin|[Hin|Hin]]]].
  - destruct (notSubscribe_allOf KTeardown _ b ltac:(discriminate) Kpre Hin).
  - destruct (not_subscribed_in b _ (subscribed_slotsUnsub _ _ _) Hin).
  - destruct (notSubscribe_allOf KConstruct _ b ltac:(discriminate) Kmid Hin).
  - exact (slotsRebind_created _ _ _ _ _ _ _ _ _ E Hin).
  - destruct Hpost as [->| ->]; [destruct Hin|].
    destruct (notSubscribe_allOf KInit _ b ltac:(discriminate)
                (allOf_initCalls _ _) Hin).
Qed.

(** A re-render that keeps the handler of an event makes no binding call for
    that event. *)
Lemma update_kept_handler env d c l s h tr p f' ev :
  Inv d c l s h tr ->
  out_res (update env p (fiberOf env s) h) = Ok f' ->
  handlerOf p ev = handlerOf l ev ->
  bindingCalls ev (out_trace (update env p (fiberOf env s) h)) = [].
Proof.
  intros I R Q.
  destruct (update_bindingCalls env d c l s h tr p f' ev I R)
    as (x' & nb & slots' & _ & _ & Hcalls & _).
  pose proof (slotOf_Forall2 _ _ _ ev
                (binv_slots _ _ _ _ (inv_bindings _ _ _ _ _ _ I))
                (in_eventNames ev)) as [Hh _].
  rewrite Hcalls. unfold slotUnsub. rewrite Hh.
  destruct (JsVal_eq_dec (handlerOf p ev) (handlerOf l ev));
    [reflexivity|contradiction].
Qed.

Lemma in_bindingCalls_intro b t :
  In (ESubscribe b) t -> In (ESubscribe b) (bindingCalls (b_event b) t).
Proof.
  intros Hin. unfold bindingCalls. apply filter_In. split; [exact Hin|].
  simpl. destruct (EventName_eq_dec (b_event b) (b_event b));
    [reflexivity|contradiction].
Qed.

Lemma update_nextTerm env d c l s h tr p f' :
  Inv d c l s h tr ->
  out_res (update env p (fiberOf env s) h) = Ok f' ->
  nextTerm h <= nextTerm (out_heap (update env p (fiberOf env s) h)).
Proof.
  intros I R.
  destruct (update_ok_cases env d c l s h tr p f' I R)
    as (T & nb & slots' & bs & HT & [(Q & _ & Eq)|(Q & _ & Eq)]);
    rewrite Eq; cbn [out_heap withNextBinding nextTerm]; lia.
Qed.

Lemma boundKnown_mount env d p h0 f :
  out_res (mount env d p h0) = Ok f ->
  boundKnown (out_heap (mount env d p h0)) (out_trace (mount env d p h0)).
Proof.
  intros R b Hin.
  destruct (firstFailure env (nextTerm h0) (addonList p)) as [[[pre a] e]|] eqn:F.
  { rewrite (mount_throw env d p h0 pre a e F) in R. discriminate. }
  destruct (slotsBind (Some (nextTerm h0)) (nextBinding h0) (handlerOf p)
                      eventNames) as [[T nb] slots] eqn:E.
  rewrite (mount_ok env d p h0 T nb slots F E) in Hin |- *.
  cbn [out_trace out_heap nextTerm] in Hin |- *.
  rewrite !in_app_iff in Hin. destruct Hin as [Hin|[Hin|Hin]].
  - destruct (notSubscribe_allOf KConstruct _ b ltac:(discriminate)
                (allOf_constructCalls _ _ _) Hin).
  - rewrite slotsBind_rebind in E.
    destruct (slotsRebind_created _ _ _ _ _ _ _ _ _ E Hin) as (Hx & _).
    injection Hx as Hx. lia.
  - destruct (notSubscribe_allOf KInit _ b ltac:(discriminate)
                (allOf_initCalls _ _) Hin).
Qed.

Lemma boundKnown_update env d c l s h tr p f' :
  Inv d c l s h tr -> boundKnown h tr ->
  out_res (update env p (fiberOf env s) h) = Ok f' ->
  boundKnown (out_heap (update env p (fiberOf env s) h))
             (tr ++ out_trace (update env p (fiberOf env s) h)).
Proof.
  intros I BK R b Hin. apply in_app_or in Hin. destruct Hin as [Hin|Hin].
  - pose proof (BK b Hin). pose proof (update_nextTerm env d c l s h tr p f' I R).
    lia.
  - destruct (update_created env d c l s h tr p f' b I R Hin) as (Hx & _).
    destruct (update_inv env d c l s h tr p f' I R) as (s' & _ & I' & _).
    rewrite (inv_term _ _ _ _ _ _ I') in Hx. injection Hx as Hx.
    rewrite <- Hx. exact (inv_fresh _ _ _ _ _ _ I').
Qed.

Lemma unbound_update env d ev c l s h tr p f' :
  Inv d c l s h tr -> boundKnown h tr ->
  handlerOf p ev = handlerOf l ev ->
  options p <> options l \/ unbound ev h tr ->
  out_res (update env p (fiberOf env s) h) = Ok f' ->
  unbound ev (out_heap (update env p (fiberOf env s) h))
          (tr ++ out_trace (update env p (fiberOf env s) h)).
Proof.
  intros I BK Q Hor R b Hin Hev.
  apply in_app_or in Hin. destruct Hin as [Hin|Hin].
  - rewrite (update_term env d c l s h tr p f' I R).
    destruct (optnat_eq_dec (options p) (options l)) as [O|O].
    + destruct Hor as [N|U]; [contradiction|].
      rewrite <- (inv_term _ _ _ _ _ _ I). exact (U b Hin Hev).
    + intros Hx. injection Hx as Hx. pose proof (BK b Hin). lia.
  - apply in_bindingCalls_intro in Hin. rewrite Hev in Hin.
    rewrite (update_kept_handler env d c l s h tr p f' ev I R Q) in Hin.
    destruct Hin.
Qed.

Lemma updates_app env ps qs : forall f h,
  updates env (ps ++ qs) f h
  = bind (updates env ps f) (fun f1 => updates env qs f1) h.
Proof.
  induction ps as [|p ps IH]; intros f h; cbn [updates app].
  - rewrite bind_ret_l. reflexivity.
  - rewrite bind_assoc. apply bind_ext. intros f1 h1. apply IH.
Qed.

Lemma mounted_app_inv env d p0 ps qs h0 f :
  out_res (mounted env d p0 (ps ++ qs) h0) = Ok f ->
  exists f1,
    out_res (mounted env d p0 ps h0) = Ok f1 /\
    mounted env d p0 (ps ++ qs) h0
    = prepend (out_trace (mounted env d p0 ps h0))
              (updates env qs f1 (out_heap (mounted env d p0 ps h0))).
Proof.
  assert (E : mounted env d p0 (ps ++ qs) h0
              = bind (mounted env d p0 ps) (fun f1 => updates env qs f1) h0).
  { unfold mounted. rewrite bind_assoc. apply bind_ext. intros f1 h1.
    apply updates_app. }
  rewrite E. apply bind_ok_inv.
Qed.

(** From a replaced terminal on, through renders that keep the handler. *)
Lemma unbound_from_change env d ev c l s h tr q qs f :
  Inv d c l s h tr -> boundKnown h tr ->
  options q <> options l ->
  Forall (fun r => handlerOf r ev = handlerOf l ev) (q :: qs) ->
  out_res (updates env (q :: qs) (fiberOf env s) h) = Ok f ->
  unbound ev (out_heap (updates env (q :: qs) (fiberOf env s) h))
          (tr ++ out_trace (updates env (q :: qs) (fiberOf env s) h)).
Proof.
  intros I BK N Hs R.
  cbn [updates] in R |- *.
  destruct (bind_ok_inv _ _ _ _ _ _ R) as (f1 & R1 & Eq).
  rewrite Eq in R |- *.
  rewrite out_res_prepend in R.
  rewrite out_heap_prepend, out_trace_prepend, app_assoc.
  destruct (update_inv env d c l s h tr q f1 I R1) as (s1 & -> & I1 & _).
  pose proof (unbound_update env d ev c l s h tr q _ I BK (Forall_inv Hs)
                (or_introl N) R1) as U1.
  pose proof (boundKnown_update env d c l s h tr q _ I BK R1) as BK1.
  cbv beta in R |- *.
  eapply (updates_reach_where env d
            (fun r => handlerOf r ev = handlerOf l ev)
            (fun h' tr' => boundKnown h' tr' /\ unbound ev h' tr'));
    [|exact I1|exact (Forall_inv Hs)|exact (Forall_inv_tail Hs)
     |exact (conj BK1 U1)|exact R].
  intros c2 l2 s2 h2 tr2 p2 f2 I2 Gl Gp (BK2 & U2) R2. split.
  - exact (boundKnown_update env d c2 l2 s2 h2 tr2 p2 f2 I2 BK2 R2).
  - apply (unbound_update env d ev c2 l2 s2 h2 tr2 p2 f2 I2 BK2);
      [rewrite Gl; exact Gp|right; exact U2|exact R2].
Qed.

(** X5: a handler kept across an [options] change is not bound to the new
    terminal.  [useBind] re-runs on a change of [handler] only, so when a
    render replaces the terminal and the renders from it on supply the same
    value for an event, no binding of that event is ever created on the
    terminal that is live afterwards: every binding of the event made so far
    is on an earlier terminal. *)
Theorem X5_kept_handler_not_bound_to_new_terminal env d p0 ps q qs h0 f ev :
  out_res (mounted env d p0 (ps ++ q :: qs) h0) = Ok f ->
  options q <> options (last ps p0) ->
  Forall (fun r => handlerOf r ev = handlerOf (last ps p0) ev) (q :: qs) ->
  forall b,
    In (ESubscribe b) (out_trace (mounted env d p0 (ps ++ q :: qs) h0)) ->
    b_event b = ev ->
    xtermRef (out_heap (mounted env d p0 (ps ++ q :: qs) h0))
    <> Some (b_term b).
Proof.
  intros R N Hs.
  destruct (mounted_app_inv env d p0 ps (q :: qs) h0 f R) as (f1 & R1 & Eq).
  rewrite Eq in R |- *.
  rewrite out_res_prepend in R. rewrite out_heap_prepend, out_trace_prepend.
  pose proof (mounted_reach env d boundKnown (boundKnown_mount env d)
                (boundKnown_update env d) p0 ps h0 f1 R1) as BK.
  destruct (mounted_inv env d p0 ps h0 f1 R1) as (s1 & -> & I1).
  exact (unbound_from_change env d ev _ _ s1 _ _ q qs f I1 BK N Hs R).
Qed.

(** The echo example: [options] changes, then a re-render with the same
    props; [onData] stays unbound on the new terminal. *)
Lemma X5_witness :
  exists f,
    out_res (mounted quietEnv 0 echoProps
               ([] ++ withOptions (Some 7) echoProps
                   :: [withOptions (Some 7) echoProps]) heap0) = Ok f /\
    forall b,
      In (ESubscribe b)
         (out_trace (mounted quietEnv 0 echoProps
                       ([] ++ withOptions (Some 7) echoProps
                           :: [withOptions (Some 7) echoProps]) heap0)) ->
      b_event b = OnData ->
      xtermRef (out_heap (mounted quietEnv 0 echoProps
                            ([] ++ withOptions (Some 7) echoProps
                                :: [withOptions (Some 7) echoProps]) heap0))
      <> Some (b_term b).
Proof.
  assert (R : exists f,
             out_res (mounted quietEnv 0 echoProps
                        ([] ++ withOptions (Some 7) echoProps
                            :: [withOptions (Some 7) echoProps]) heap0) = Ok f)
    by (eexists; vm_compute; reflexivity).
  destruct R as (f & R). exists f. split; [exact R|].
  apply (X5_kept_handler_not_bound_to_new_terminal quietEnv 0 echoProps []
           (withOptions (Some 7) echoProps) [withOptions (Some 7) echoProps]
           heap0 f OnData R).
  - discriminate.
  - repeat constructor.
Defined.

(** ** The first commit, call by call *)

Lemma firstFailure_none env x l :
  (forall a, In a l -> load_throws env x a = None) ->
  firstFailure env x l = None.
Proof.
  induction l as [|a l IH]; intros H; simpl; [reflexivity|].
  rewrite (H a (or_introl eq_refl)).
  rewrite IH; [reflexivity|]. intros b Hb. apply H. right. exact Hb.
Qed.

Lemma slotsBind_fresh x hn evs : forall nb T nb' slots,
  slotsBind (Some x) nb hn evs = (T, nb', slots) ->
  T = map ESubscribe (freshBindings x nb hn evs) /\
  nb' = nb + length (freshBindings x nb hn evs).
Proof.
  induction evs as [|ev evs IH]; intros nb T nb' slots E;
    cbn [slotsBind freshBindings] in E |- *.
  - inversion E; subst. split; [reflexivity|cbn; lia].
  - unfold slotBind in E.
    destruct (hn ev) eqn:V.
    1,2,4: destruct (slotsBind (Some x) nb hn evs) as [[t2 nb2] ss] eqn:E2;
      inversion E; subst; exact (IH _ _ _ _ E2).
    destruct (slotsBind (Some x) (S nb) hn evs) as [[t2 nb2] ss] eqn:E2.
    inversion E; subst. destruct (IH _ _ _ _ E2) as (-> & ->).
    split; [reflexivity|cbn [length]; lia].
Qed.

Lemma freshBindings_events x hn evs : forall nb,
  map b_event (freshBindings x nb hn evs)
  = filter (fun ev => isFunction (hn ev)) evs.
Proof.
  induction evs as [|ev evs IH]; intros nb; cbn [freshBindings filter];
    [reflexivity|].
  destruct (hn ev); cbn [isFunction map b_event]; rewrite ?IH; reflexivity.
Qed.

Lemma freshBindings_ids x hn evs : forall nb,
  map b_id (freshBindings x nb hn evs)
  = seq nb (length (freshBindings x nb hn evs)).
Proof.
  induction evs as [|ev evs IH]; intros nb; cbn [freshBindings];
    [reflexivity|].
  destruct (hn ev); cbn [map b_id length seq]; rewrite <- ?IH; reflexivity.
Qed.

Lemma freshBindings_each x hn evs : forall nb b,
  In b (freshBindings x nb hn evs) ->
  b_term b = x /\ hn (b_event b) = JFun (b_handler b).
Proof.
  induction evs as [|ev evs IH]; intros nb b; cbn [freshBindings];
    [intros []|].
  destruct (hn ev) eqn:V; try apply IH.
  intros [<-|Hin]; [simpl; auto|exact (IH _ _ Hin)].
Qed.

(** X6: the calls of a first commit in which no addon load throws, in order:
    the construction ([new Terminal], the addon loads, the key handler if
    truthy, [open] in the container), then one event binding for each of the
    twelve events whose handler is a function, in the order of the [useBind]
    calls, each on the new terminal with the handler of its own event and a
    fresh identity, then [onInit] if it is a function.  Construction thus
    precedes every binding, and every binding precedes [onInit]. *)
Theorem X6_first_commit_call_by_call env d p h0 :
  (forall a, In a (addonList p) -> load_throws env (nextTerm h0) a = None) ->
  (exists f, out_res (mount env d p h0) = Ok f) /\
  out_trace (mount env d p h0)
  = constructCalls (nextTerm h0) d p
    ++ map ESubscribe (freshBindings (nextTerm h0) (nextBinding h0)
                                     (handlerOf p) eventNames)
    ++ initCalls (Some (nextTerm h0)) (onInit p) /\
  map b_event (freshBindings (nextTerm h0) (nextBinding h0) (handlerOf p)
                             eventNames)
  = filter (fun ev => isFunction (handlerOf p ev)) eventNames /\
  map b_id (freshBindings (nextTerm h0) (nextBinding h0) (handlerOf p)
                          eventNames)
  = seq (nextBinding h0)
        (length (freshBindings (nextTerm h0) (nextBinding h0) (handlerOf p)
                               eventNames)) /\
  (forall b, In b (freshBindings (nextTerm h0) (nextBinding h0) (handlerOf p)
                                 eventNames) ->
             b_term b = nextTerm h0 /\
             handlerOf p (b_event b) = JFun (b_handler b)) /\
  out_heap (mount env d p h0)
  = mkHeap (Some d) (Some (nextTerm h0)) (S (nextTerm h0))
           (nextBinding h0
            + length (freshBindings (nextTerm h0) (nextBinding h0)
                                    (handlerOf p) eventNames)).
Proof.
  intros Hl.
  pose proof (firstFailure_none env _ _ Hl) as F.
  destruct (slotsBind (Some (nextTerm h0)) (nextBinding h0) (handlerOf p)
                      eventNames) as [[T nb] slots] eqn:E.
  destruct (slotsBind_fresh _ _ _ _ _ _ _ E) as (ET & Enb).
  rewrite (mount_ok env d p h0 T nb slots F E), ET, Enb.
  cbn [out_res out_trace out_heap].
  split; [eexists; reflexivity|]. split; [reflexivity|].
  split; [apply freshBindings_events|]. split; [apply freshBindings_ids|].
  split; [apply freshBindings_each|reflexivity].
Qed.

(** The echo example with two addons: [onData] is the only event bound. *)
Lemma X6_witness :
  out_trace (mount quietEnv 0 (withAddons (Some [10; 11]) echoProps) heap0)
  = [ENew 0 None; ELoadAddon 0 10; ELoadAddon 0 11; EOpen 0 0;
     ESubscribe (mkBinding 0 0 OnData 3); EOnInit 1 (Some 0)].
Proof.
  destruct (X6_first_commit_call_by_call quietEnv 0
              (withAddons (Some [10; 11]) echoProps) heap0) as (_ & H & _).
  - intros a _. reflexivity.
  - rewrite H. reflexivity.
Defined.

(** ** Where a bound handler comes from *)

Lemma mount_created env d p h0 f b :
  out_res (mount env d p h0) = Ok f ->
  In (ESubscribe b) (out_trace (mount env d p h0)) ->
  b_term b = nextTerm h0 /\ handlerOf p (b_event b) = JFun (b_handler b).
Proof.
  intros R Hin.
  destruct (firstFailure env (nextTerm h0) (addonList p)) as [[[pre a] e]|] eqn:F.
  { rewrite (mount_throw env d p h0 pre a e F) in R. discriminate. }
  destruct (slotsBind (Some (nextTerm h0)) (nextBinding h0) (handlerOf p)
                      eventNames) as [[T nb] slots] eqn:E.
  rewrite (mount_ok env d p h0 T nb slots F E) in Hin.
  cbn [out_trace] in Hin.
  rewrite !in_app_iff in Hin. destruct Hin as [Hin|[Hin|Hin]].
  - destruct (notSubscribe_allOf KConstruct _ b ltac:(discriminate)
                (allOf_constructCalls _ _ _) Hin).
  - rewrite slotsBind_rebind in E.
    destruct (slotsRebind_created _ _ _ _ _ _ _ _ _ E Hin) as (Hx & Hh).
    injection Hx as Hx. auto.
  - destruct (notSubscribe_allOf KInit _ b ltac:(discriminate)
                (allOf_initCalls _ _) Hin).
Qed.

(** X7: the adapter binds only what it is given, under the name it is given
    for.  Every event binding created during the life of a mounted adapter
    carries a function that some render supplied as the handler prop of that
    very event: no handler is subscribed to another event, and nothing else
    (a key handler, [onInit], [onDispose], a non-function) is ever
    subscribed. *)
Theorem X7_bound_handlers_come_from_the_props env d p0 ps h0 f :
  out_res (mounted env d p0 ps h0) = Ok f ->
  forall b,
    In (ESubscribe b) (out_trace (mounted env d p0 ps h0)) ->
    exists r, In r (p0 :: ps) /\ handlerOf r (b_event b) = JFun (b_handler b).
Proof.
  intros R.
  apply (mounted_reach_where env d (fun r => In r (p0 :: ps))
           (fun _ tr => forall b, In (ESubscribe b) tr ->
              exists r, In r (p0 :: ps)
                        /\ handlerOf r (b_event b) = JFun (b_handler b)))
    with (f := f).
  - intros p h f1 G R1 b Hin. exists p. split; [exact G|].
    exact (proj2 (mount_created env d p h f1 b R1 Hin)).
  - intros c l s h tr p f' I _ G Hp R1 b Hin.
    apply in_app_or in Hin. destruct Hin as [Hin|Hin]; [exact (Hp b Hin)|].
    exists p. split; [exact G|].
    exact (proj2 (update_created env d c l s h tr p f' b I R1 Hin)).
  - left. reflexivity.
  - apply Forall_forall. intros r Hr. right. exact Hr.
  - exact R.
Qed.

(** The echo example re-rendered with a new [onData] handler. *)
Lemma X7_witness :
  exists f,
    out_res (mounted quietEnv 0 echoProps [withOnData (JFun 13) echoProps]
               heap0) = Ok f /\
    forall b,
      In (ESubscribe b)
         (out_trace (mounted quietEnv 0 echoProps
                       [withOnData (JFun 13) echoProps] heap0)) ->
      exists r, In r (echoProps :: [withOnData (JFun 13) echoProps])
                /\ handlerOf r (b_event b) = JFun (b_handler b).
Proof.
  assert (R : exists f,
             out_res (mounted quietEnv 0 echoProps
                        [withOnData (JFun 13) echoProps] heap0) = Ok f)
    by (eexists; vm_compute; reflexivity).
  destruct R as (f & R). exists f. split; [exact R|].
  exact (X7_bound_handlers_come_from_the_props quietEnv 0 echoProps _ heap0 f R).
Defined.

(** ** Without a container *)

Lemma commitMount_inert ds : forall h,
  Forall (inert h) ds ->
  exists f, commitMount ds h = mkOut [] h (Ok f) /\ idle f.
Proof.
  induction ds as [|d ds IH]; intros h F; cbn [commitMount].
  - exists []. split; [reflexivity|constructor].
  - destruct (IH h (Forall_inv_tail F)) as (f & E & If).
    exists (mkHook (eff_deps d) None :: f). split.
    + rewrite (bind_known _ _ _ _ _ _ _ _ (Forall_inv F)), prepend_nil.
      rewrite (bind_known _ _ _ _ _ _ _ _ E), prepend_nil. reflexivity.
    + constructor; [reflexivity|exact If].
Qed.

Lemma commitUnmountChanged_idle hs : forall ds h,
  idle hs -> commitUnmountChanged hs ds h = mkOut [] h (Ok tt).
Proof.
  induction hs as [|x hs IH]; intros [|d ds] h I; cbn [commitUnmountChanged];
    try reflexivity.
  assert (E : (if areHookInputsEqual (eff_deps d) (hs_deps x) then ret tt
               else runDestroy (hs_destroy x)) h = mkOut [] h (Ok tt)).
  { rewrite (Forall_inv I). destruct (areHookInputsEqual _ _); reflexivity. }
  rewrite (bind_known _ _ _ _ _ _ _ _ E), prepend_nil.
  exact (IH ds h (Forall_inv_tail I)).
Qed.

Lemma commitMountChanged_inert hs : forall ds h,
  idle hs -> Forall (inert h) ds ->
  exists f, commitMountChanged hs ds h = mkOut [] h (Ok f) /\ idle f.
Proof.
  induction hs as [|x hs IH]; intros [|d ds] h I F; cbn [commitMountChanged];
    try (exists []; split; [reflexivity|constructor]).
  destruct (IH ds h (Forall_inv_tail I) (Forall_inv_tail F)) as (f & E & If).
  exists (mkHook (eff_deps d) None :: f). split.
  - assert (E1 : (if areHookInputsEqual (eff_deps d) (hs_deps x)
                  then ret (mkHook (eff_deps d) (hs_destroy x))
                  else destroy <- eff_create d ;;
                       ret (mkHook (eff_deps d) destroy)) h
                 = mkOut [] h (Ok (mkHook (eff_deps d) None))).
    { rewrite (Forall_inv I). destruct (areHookInputsEqual _ _); [reflexivity|].
      rewrite (bind_known _ _ _ _ _ _ _ _ (Forall_inv F)), prepend_nil.
      reflexivity. }
    rewrite (bind_known _ _ _ _ _ _ _ _ E1), prepend_nil.
    rewrite (bind_known _ _ _ _ _ _ _ _ E), prepend_nil. reflexivity.
  - constructor; [reflexivity|exact If].
Qed.

Lemma commitUnmountAll_idle hs : forall h,
  idle hs -> commitUnmountAll hs h = mkOut [] h (Ok tt).
Proof.
  induction hs as [|x hs IH]; intros h I; cbn [commitUnmountAll];
    [reflexivity|].
  assert (E : runDestroy (hs_destroy x) h = mkOut [] h (Ok tt))
    by (rewrite (Forall_inv I); reflexivity).
  rewrite (bind_known _ _ _ _ _ _ _ _ E), prepend_nil.
  exact (IH h (Forall_inv_tail I)).
Qed.

(** The three guards: without a container the first effect returns at once,
    so [xtermRef.current] stays null and the other effects return as well. *)
Lemma Xterm_inert env p nt nb :
  exists ds,
    Xterm env p (mkHeap None None nt nb) = mkOut [] (mkHeap None None nt nb) (Ok ds)
    /\ Forall (inert (mkHeap None None nt nb)) ds.
Proof.
  eexists. split; [apply Xterm_decls|].
  constructor; [reflexivity|].
  apply Forall_app. split.
  - unfold bindDecls. apply Forall_forall. intros dcl Hin.
    apply in_map_iff in Hin. destruct Hin as (ev & <- & _).
    unfold inert, useBind. cbn [eff_create]. rewrite bindEffect_eq.
    reflexivity.
  - constructor; [|constructor]. unfold inert. cbn [eff_create].
    rewrite initEffect_eq. reflexivity.
Qed.

Lemma mountDetached_idle env p h0 :
  exists f,
    mountDetached env p h0
    = mkOut [] (mkHeap None None (nextTerm h0) (nextBinding h0)) (Ok f)
    /\ idle f.
Proof.
  destruct (Xterm_inert env p (nextTerm h0) (nextBinding h0)) as (ds & E & F).
  destruct (commitMount_inert ds _ F) as (f & Ef & If).
  exists f. split; [|exact If].
  unfold mountDetached.
  erewrite bind_known by reflexivity. rewrite prepend_nil.
  erewrite bind_known by reflexivity. rewrite prepend_nil.
  cbn [divRef xtermRef nextTerm nextBinding].
  rewrite (bind_known _ _ _ _ _ _ _ _ E), prepend_nil. exact Ef.
Qed.

Lemma update_idle env p f nt nb :
  idle f ->
  exists f',
    update env p f (mkHeap None None nt nb)
    = mkOut [] (mkHeap None None nt nb) (Ok f') /\ idle f'.
Proof.
  intros I.
  destruct (Xterm_inert env p nt nb) as (ds & E & F).
  destruct (commitMountChanged_inert f ds _ I F) as (f' & Ef & If).
  exists f'. split; [|exact If].
  unfold update.
  rewrite (bind_known _ _ _ _ _ _ _ _ E), prepend_nil.
  rewrite (bind_known _ _ _ _ _ _ _ _ (commitUnmountChanged_idle f ds _ I)),
    prepend_nil.
  exact Ef.
Qed.

Lemma updates_idle env ps nt nb : forall f,
  idle f ->
  exists f',
    updates env ps f (mkHeap None None nt nb)
    = mkOut [] (mkHeap None None nt nb) (Ok f') /\ idle f'.
Proof.
  induction ps as [|p ps IH]; intros f I; cbn [updates].
  - exists f. split; [reflexivity|exact I].
  - destruct (update_idle env p f nt nb I) as (f1 & E1 & I1).
    destruct (IH f1 I1) as (f' & E' & I').
    exists f'. split; [|exact I'].
    rewrite (bind_known _ _ _ _ _ _ _ _ E1), prepend_nil. exact E'.
Qed.

(** X8: without a container the component does nothing at all.  When React
    has attached no element to the [ref] of the [div], the first effect
    returns before constructing a terminal, so [xtermRef.current] stays null,
    no [useBind] effect subscribes and [onInit] is not invoked; no effect
    returns a cleanup, so re-renders with any props and the unmount make no
    call either: the whole life is silent and completes. *)
Theorem X8_without_container_no_call env p0 ps h0 :
  detachedLife env p0 ps h0
  = mkOut [] (mkHeap None None (nextTerm h0) (nextBinding h0)) (Ok tt).
Proof.
  destruct (mountDetached_idle env p0 h0) as (f & E & I).
  destruct (updates_idle env ps (nextTerm h0) (nextBinding h0) f I)
    as (f' & E' & I').
  unfold detachedLife.
  rewrite (bind_known _ _ _ _ _ _ _ _ E), prepend_nil.
  rewrite (bind_known _ _ _ _ _ _ _ _ E'), prepend_nil.
  unfold unmount.
  erewrite bind_known by reflexivity. rewrite prepend_nil.
  cbn [divRef xtermRef nextTerm nextBinding].
  exact (commitUnmountAll_idle f' _ I').
Qed.

(** * The echo example *)

Lemma after_app st cs1 cs2 :
  App.after st (cs1 ++ cs2) = App.after (App.after st cs1) cs2.
Proof. apply fold_left_app. Qed.

Lemma typing_app ds1 : forall st ds2,
  App.typing st (ds1 ++ ds2)
  = App.typing st ds1 ++ App.typing (App.after st (App.typing st ds1)) ds2.
Proof.
  induction ds1 as [|d ds1 IH]; intros st ds2; cbn [App.typing app].
  - reflexivity.
  - rewrite IH, after_app, app_assoc. reflexivity.
Qed.

Lemma isEnter_code d : App.isEnter d = true -> App.charCodeAt0 d = Some 13.
Proof.
  unfold App.isEnter, App.strictEq. destruct (App.charCodeAt0 d); [|discriminate].
  intros E. apply Nat.eqb_eq in E. now subst.
Qed.

(** One chunk that is not Enter: a control key is logged, anything else is
    written and appended to [input]. *)
Lemma handleData_chunk t buf d :
  App.isEnter d = false ->
  filter App.isWrite (App.handleData (App.mkState (Some t) buf) d)
  = map (App.TermWrite t) (App.printed [d]) /\
  App.after (App.mkState (Some t) buf)
            (App.handleData (App.mkState (Some t) buf) d)
  = App.mkState (Some t) (buf ++ concat (App.printed [d])).
Proof.
  intros E. unfold App.handleData, App.printed. cbn [App.Terminal App.input filter].
  unfold App.isEnter in E. rewrite E. cbn [andb].
  unfold App.isControl.
  destruct (App.lessThan (App.charCodeAt0 d) 32
            || App.strictEq (App.charCodeAt0 d) 127); cbn.
  - now rewrite app_nil_r.
  - now rewrite app_nil_r.
Qed.

Lemma printed_cons d ds :
  App.printed (d :: ds) = App.printed [d] ++ App.printed ds.
Proof.
  unfold App.printed. cbn [filter]. destruct (negb (App.isControl d)); reflexivity.
Qed.

Lemma typing_chunks t ds : forall buf,
  (forall d, In d ds -> App.isEnter d = false) ->
  filter App.isWrite (App.typing (App.mkState (Some t) buf) ds)
  = map (App.TermWrite t) (App.printed ds) /\
  App.after (App.mkState (Some t) buf)
            (App.typing (App.mkState (Some t) buf) ds)
  = App.mkState (Some t) (buf ++ concat (App.printed ds)).
Proof.
  induction ds as [|d ds IH]; intros buf H; cbn [App.typing].
  - cbn. now rewrite app_nil_r.
  - destruct (handleData_chunk t buf d (H d (or_introl eq_refl))) as (W & S).
    rewrite after_app, S, filter_app, W.
    destruct (IH (buf ++ concat (App.printed [d]))
                 (fun d' Hd => H d' (or_intror Hd))) as (W' & S').
    rewrite W', S', (printed_cons d ds), map_app, concat_app, app_assoc.
    split; reflexivity.
Qed.

(** X9: the echo round trip.  After any chunks none of which begins with a
    carriage return, the terminal has been sent exactly the chunks that do not
    begin with a control code, in order, and [input] holds their
    concatenation after what it held before; control chunks are only logged.
    A chunk beginning with a carriage return then echoes that line between
    the two quotes, writes the prompt and empties [input]; when the line is
    empty it is itself taken for a control key and nothing is written. *)
Theorem X9_echo_round_trip t buf ds e :
  (forall d, In d ds -> App.isEnter d = false) ->
  App.isEnter e = true ->
  filter App.isWrite (App.typing (App.mkState (Some t) buf) (ds ++ [e]))
  = map (App.TermWrite t) (App.printed ds)
    ++ match buf ++ concat (App.printed ds) with
       | [] => []
       | c :: line =>
           [App.TermWrite t ([13; 10] ++ App.str "You typed: '" ++ (c :: line)
                             ++ App.str "'" ++ [13; 10]);
            App.TermWrite t (App.str "echo> ")]
       end /\
  App.after (App.mkState (Some t) buf)
            (App.typing (App.mkState (Some t) buf) (ds ++ [e]))
  = App.mkState (Some t) [].
Proof.
  intros H E.
  destruct (typing_chunks t ds buf H) as (W & S).
  rewrite typing_app, after_app, filter_app, W, S.
  cbn [App.typing]. rewrite app_nil_r.
  unfold App.handleData. cbn [App.Terminal App.input].
  unfold App.isEnter in E. rewrite E. rewrite (isEnter_code e E).
  destruct (buf ++ concat (App.printed ds)) as [|c line]; split; reflexivity.
Qed.

(** "hi" typed around an arrow key, then Enter. *)
Lemma X9_witness :
  filter App.isWrite
    (App.typing (App.mkState (Some 0) [])
                ([App.str "h"; [27; 91; 65]; App.str "i"] ++ [[13]]))
  = [App.TermWrite 0 (App.str "h"); App.TermWrite 0 (App.str "i");
     App.TermWrite 0 ([13; 10] ++ App.str "You typed: 'hi'" ++ [13; 10]);
     App.TermWrite 0 (App.str "echo> ")].
Proof.
  assert (H1 : forall d, In d [App.str "h"; [27; 91; 65]; App.str "i"] ->
                         App.isEnter d = false)
    by (intros d [<-|[<-|[<-|[]]]]; reflexivity).
  destruct (X9_echo_round_trip 0 [] [App.str "h"; [27; 91; 65]; App.str "i"]
              [13] H1 eq_refl) as (H & _).
  etransitivity; [exact H|reflexivity].
Defined.

Lemma typing_no_terminal ds : forall buf,
  App.typing (App.mkState None buf) ds = [].
Proof. induction ds as [|d ds IH]; intros buf; cbn; auto. Qed.

Lemma handleData_onlyOn t buf d :
  Forall (App.onlyOn t) (App.handleData (App.mkState (Some t) buf) d) /\
  App.Terminal (App.after (App.mkState (Some t) buf)
                          (App.handleData (App.mkState (Some t) buf) d))
  = Some t.
Proof.
  unfold App.handleData. cbn [App.Terminal App.input].
  destruct (App.strictEq (App.charCodeAt0 d) 13 && (0 <? length buf));
    [|destruct (App.lessThan (App.charCodeAt0 d) 32
                || App.strictEq (App.charCodeAt0 d) 127)];
    (split; [repeat constructor|reflexivity]).
Qed.

Lemma typing_onlyOn t ds : forall st,
  App.Terminal st = Some t -> Forall (App.onlyOn t) (App.typing st ds).
Proof.
  induction ds as [|d ds IH]; intros [tm buf] T; cbn [App.typing];
    [constructor|].
  cbn in T. subst tm.
  destruct (handleData_onlyOn t buf d) as (F & T').
  apply Forall_app. split; [exact F|exact (IH _ T')].
Qed.

(** X10: the example touches a terminal only while it is live.  Before
    [onInit] has delivered a terminal and after [onDispose] has taken it
    back, data events make no call at all; in between, whatever is typed,
    every [write] goes to the terminal [onInit] delivered and the
    [Terminal] cell is not replaced. *)
Theorem X10_example_writes_only_to_the_live_terminal st t ds :
  App.typing App.initialState ds = [] /\
  Forall (App.onlyOn t) (App.typing (App.after st (App.onTermInit t)) ds) /\
  App.typing (App.after st (App.onTermDispose t)) ds = [].
Proof.
  split; [apply typing_no_terminal|]. split.
  - apply typing_onlyOn. reflexivity.
  - apply typing_no_terminal.
Qed.

(** ** While [options] keeps its identity *)

Lemma boundLive_mount env d p h0 f :
  out_res (mount env d p h0) = Ok f ->
  boundLive (out_heap (mount env d p h0)) (out_trace (mount env d p h0)).
Proof.
  intros R b Hin.
  destruct (mount_created env d p h0 f b R Hin) as (Hx & _).
  destruct (mount_inv env d p h0 f R) as (s & _ & I & Ts & _).
  rewrite (inv_term _ _ _ _ _ _ I), Ts, Hx. reflexivity.
Qed.

Lemma boundLive_update env d c l s h tr p f' :
  Inv d c l s h tr -> options p = options l -> boundLive h tr ->
  out_res (update env p (fiberOf env s) h) = Ok f' ->
  boundLive (out_heap (update env p (fiberOf env s) h))
            (tr ++ out_trace (update env p (fiberOf env s) h)).
Proof.
  intros I Q BL R b Hin. apply in_app_or in Hin. destruct Hin as [Hin|Hin].
  - rewrite (update_term env d c l s h tr p f' I R).
    destruct (optnat_eq_dec (options p) (options l)); [|contradiction].
    rewrite <- (inv_term _ _ _ _ _ _ I). exact (BL b Hin).
  - exact (proj1 (update_created env d c l s h tr p f' b I R Hin)).
Qed.

(** X11: while [options] keeps its identity, every function handler of the
    latest render is the one listening.  If no re-render since the mount
    changed the identity of [options], then for each event whose handler in
    the last render is a function, the binding calls of that event are closed
    pairs (created, disposed) followed by the creation of one binding that is
    still held: it carries that very function, and like every binding created
    so far it is on the terminal that is live. *)
Theorem X11_latest_handler_bound_while_options_kept env d p0 ps h0 f ev g :
  out_res (mounted env d p0 ps h0) = Ok f ->
  Forall (fun r => options r = options p0) ps ->
  handlerOf (last ps p0) ev = JFun g ->
  (exists closed b,
     bindingCalls ev (out_trace (mounted env d p0 ps h0))
     = pairs closed ++ [ESubscribe b] /\
     b_event b = ev /\ b_handler b = g /\ ~ In b closed) /\
  (forall b, In (ESubscribe b) (out_trace (mounted env d p0 ps h0)) ->
             xtermRef (out_heap (mounted env d p0 ps h0)) = Some (b_term b)).
Proof.
  intros R Hs Hg.
  assert (BL : boundLive (out_heap (mounted env d p0 ps h0))
                         (out_trace (mounted env d p0 ps h0))).
  { apply (mounted_reach_where env d (fun r => options r = options p0)
             boundLive) with (f := f).
    - intros p h f1 _. apply boundLive_mount.
    - intros c l s h tr p f' I Gl Gp. apply (boundLive_update env d c l s h tr p f' I).
      rewrite Gl. exact Gp.
    - reflexivity.
    - exact Hs.
    - exact R. }
  split; [|exact BL].
  destruct (mounted_inv env d p0 ps h0 f R) as (s & _ & I).
  pose proof (inv_bindings _ _ _ _ _ _ I) as B.
  pose proof (slotOf_Forall2 _ _ _ ev (binv_slots _ _ _ _ B) (in_eventNames ev))
    as [_ Hb].
  rewrite Hg in Hb. destruct Hb as (b & Sb & Eb & Hgb & _).
  destruct (binv_calls _ _ _ _ B ev) as (closed & Hc).
  rewrite Sb in Hc. cbn [openCall] in Hc.
  exists closed, b. split; [exact Hc|]. split; [exact Eb|]. split; [exact Hgb|].
  intros Hin.
  pose proof (binv_nodup _ _ _ _ B) as ND.
  assert (Sub : subscribed (bindingCalls ev (out_trace (mounted env d p0 ps h0)))
                = closed ++ [b]).
  { rewrite Hc, subscribed_app, subscribed_pairs. reflexivity. }
  assert (ND' : NoDup (map b_id (closed ++ [b]))).
  { rewrite <- Sub, subscribed_bindingCalls.
    apply NoDup_map_filter. exact ND. }
  rewrite map_app in ND'. cbn [map] in ND'.
  apply NoDup_remove_2 in ND'. rewrite app_nil_r in ND'.
  apply ND'. apply in_map. exact Hin.
Qed.

(** The echo example re-rendered twice with new closures. *)
Lemma X11_witness :
  exists f,
    out_res (mounted quietEnv 0 echoProps
               [withOnData (JFun 13) echoProps; withOnData (JFun 23) echoProps]
               heap0) = Ok f /\
    exists closed b,
      bindingCalls OnData
        (out_trace (mounted quietEnv 0 echoProps
                      [withOnData (JFun 13) echoProps;
                       withOnData (JFun 23) echoProps] heap0))
      = pairs closed ++ [ESubscribe b] /\
      b_event b = OnData /\ b_handler b = 23 /\ ~ In b closed.
Proof.
  assert (R : exists f,
             out_res (mounted quietEnv 0 echoProps
                        [withOnData (JFun 13) echoProps;
                         withOnData (JFun 23) echoProps] heap0) = Ok f)
    by (eexists; vm_compute; reflexivity).
  destruct R as (f & R). exists f. split; [exact R|].
  apply (X11_latest_handler_bound_while_options_kept quietEnv 0 echoProps
           [withOnData (JFun 13) echoProps; withOnData (JFun 23) echoProps]
           heap0 f OnData 23 R).
  - repeat constructor.
  - reflexivity.
Defined.

(** ** A commit that throws, and the unmount that follows *)

Lemma keptCleanups_slot s v h :
  runDestroy (if areHookInputsEqual [DValue v] (hs_deps (slotHook s))
              then hs_destroy (slotHook s) else None) h
  = mkOut (slotKept s v) h (Ok tt).
Proof.
  unfold slotKept.
  change (hs_deps (slotHook s)) with [DValue (sl_handler s)].
  rewrite areHookInputsEqual_value.
  destruct (JsVal_eq_dec v (sl_handler s)).
  - apply slotHook_destroy_eq.
  - reflexivity.
Qed.

Lemma commitUnmountAll_kept slots : forall evs hn hs ds h,
  length slots = length evs ->
  commitUnmountAll (keptCleanups (map slotHook slots ++ hs)
                                 (bindDecls hn evs ++ ds)) h
  = prepend (slotsKept slots hn evs) (commitUnmountAll (keptCleanups hs ds) h).
Proof.
  induction slots as [|s slots IH]; intros [|ev evs] hn hs ds h L;
    try discriminate.
  - cbn [map app bindDecls slotsKept]. now rewrite prepend_nil.
  - cbn [map app bindDecls slotsKept keptCleanups commitUnmountAll
         hs_destroy eff_deps useBind].
    erewrite bind_known by apply keptCleanups_slot.
    change (map (fun ev0 => useBind (hn ev0) ev0) evs) with (bindDecls hn evs).
    rewrite IH by (simpl in L; lia).
    now rewrite prepend_prepend.
Qed.

Lemma commitMountChanged_throw env p s h d pre a e :
  divRef h = Some d ->
  options p <> sh_options s ->
  firstFailure env (nextTerm h) (addonList p) = Some (pre, a, e) ->
  forall cur,
  commitMountChanged (fiberOf env s)
    (mkEffect (terminalEffect env p) [DOptions (options p)]
     :: bindDecls (handlerOf p) eventNames
     ++ [mkEffect (initEffect p) [DTerminal cur]]) h
  = mkOut (ENew (nextTerm h) (options p)
           :: map (ELoadAddon (nextTerm h)) (pre ++ [a]))
          (mkHeap (Some d) (xtermRef h) (S (nextTerm h)) (nextBinding h))
          (Throw e).
Proof.
  intros D O F cur.
  unfold fiberOf at 1.
  cbn [commitMountChanged eff_deps eff_create hs_deps hs_destroy].
  rewrite areHookInputsEqual_options.
  destruct (optnat_eq_dec (options p) (sh_options s)) as [N|_]; [contradiction|].
  rewrite !bind_assoc.
  erewrite bind_thrown
    by (apply terminalEffect_throw with (d := d); [exact D | exact F]).
  reflexivity.
Qed.

Lemma heldAfterMountChanged_throw env p s h d pre a e :
  divRef h = Some d ->
  options p <> sh_options s ->
  firstFailure env (nextTerm h) (addonList p) = Some (pre, a, e) ->
  forall cur,
  heldAfterMountChanged (fiberOf env s)
    (mkEffect (terminalEffect env p) [DOptions (options p)]
     :: bindDecls (handlerOf p) eventNames
     ++ [mkEffect (initEffect p) [DTerminal cur]]) h
  = mkHook [DOptions (options p)] None
    :: keptCleanups (map slotHook (sh_slots s)
                     ++ [mkHook [DTerminal (sh_initDep s)] None])
                    (bindDecls (handlerOf p) eventNames
                     ++ [mkEffect (initEffect p) [DTerminal cur]]).
Proof.
  intros D O F cur.
  unfold fiberOf at 1.
  cbn [heldAfterMountChanged eff_deps eff_create hs_deps hs_destroy].
  rewrite areHookInputsEqual_options.
  destruct (optnat_eq_dec (options p) (sh_options s)) as [N|_]; [contradiction|].
  rewrite (terminalEffect_throw env p h d pre a e D F).
  reflexivity.
Qed.

Lemma unmount_kept (o : list Dep) slots hn dep idecl h :
  length slots = length eventNames ->
  unmount (mkHook o None
           :: keptCleanups (map slotHook slots ++ [mkHook [DTerminal dep] None])
                           (bindDecls hn eventNames ++ [idecl])) h
  = mkOut (slotsKept slots hn eventNames)
          (mkHeap None (xtermRef h) (nextTerm h) (nextBinding h)) (Ok tt).
Proof.
  intros L. unfold unmount.
  erewrite bind_known by reflexivity. rewrite prepend_nil.
  cbn [commitUnmountAll hs_destroy runDestroy].
  rewrite bind_ret_l.
  rewrite commitUnmountAll_kept by exact L.
  cbn [keptCleanups commitUnmountAll hs_destroy eff_deps hs_deps].
  assert (E : forall (b : bool) h1,
             runDestroy (if b then None else None) h1
             = mkOut [] h1 (Ok tt)) by (intros [] h1; reflexivity).
  erewrite bind_known by apply E.
  unfold prepend, ret. cbn [out_trace out_heap out_res app].
  rewrite app_nil_r. reflexivity.
Qed.

Lemma updateOrUnmount_throw env p s h d pre a e :
  divRef h = Some d ->
  xtermRef h = Some (sh_term s) ->
  length (sh_slots s) = length eventNames ->
  options p <> sh_options s ->
  firstFailure env (nextTerm h) (addonList p) = Some (pre, a, e) ->
  updateOrUnmount env p (fiberOf env s) h
  = mkOut (teardownCalls env (sh_onDispose s) (sh_term s)
           ++ slotsUnsub (sh_slots s) (handlerOf p) eventNames
           ++ (ENew (nextTerm h) (options p)
               :: map (ELoadAddon (nextTerm h)) (pre ++ [a]))
           ++ slotsKept (sh_slots s) (handlerOf p) eventNames)
          (mkHeap None None (S (nextTerm h)) (nextBinding h))
          (Throw e).
Proof.
  intros D X L O F. unfold updateOrUnmount.
  erewrite bind_known by apply Xterm_decls. rewrite prepend_nil.
  erewrite bind_known.
  2:{ unfold fiberOf at 1.
      cbn [commitUnmountChanged eff_deps hs_deps hs_destroy runDestroy].
      rewrite areHookInputsEqual_options.
      destruct (optnat_eq_dec (options p) (sh_options s)) as [N|_];
        [contradiction|].
      erewrite bind_known by apply terminalCleanup_eq.
      rewrite commitUnmountChanged_binds by exact L.
      rewrite commitUnmountChanged_init. reflexivity. }
  cbn [out_trace out_heap prepend app]. rewrite app_nil_r.
  unfold try_catch.
  set (h1 := mkHeap (divRef h) None (nextTerm h) (nextBinding h)).
  assert (D1 : divRef h1 = Some d) by exact D.
  assert (F1 : firstFailure env (nextTerm h1) (addonList p) = Some (pre, a, e))
    by exact F.
  rewrite (commitMountChanged_throw env p s h1 d pre a e D1 O F1).
  cbn [out_res out_trace out_heap].
  rewrite (heldAfterMountChanged_throw env p s h1 d pre a e D1 O F1).
  subst h1.
  erewrite bind_known by (apply unmount_kept; exact L).
  unfold throw, prepend.
  cbn [out_trace out_heap out_res divRef xtermRef nextTerm nextBinding].
  rewrite !app_nil_r, <- !app_assoc. reflexivity.
Qed.

Lemma updateOrUnmount_ok env p f h f' :
  out_res (update env p f h) = Ok f' ->
  updateOrUnmount env p f h = update env p f h.
Proof.
  unfold update, updateOrUnmount, bind, try_catch.
  destruct (Xterm env p h) as [t0 h0 [ds|e0]]; cbn [out_res out_trace out_heap];
    [|discriminate].
  destruct (commitUnmountChanged f ds h0) as [t1 h1 [[]|e1]];
    cbn [out_res out_trace out_heap]; [|discriminate].
  destruct (commitMountChanged f ds h1) as [t2 h2 [f2|e2]];
    cbn [out_res out_trace out_heap prepend]; [reflexivity|discriminate].
Qed.

Lemma mountOrUnmount_throw env d p h0 pre a e :
  firstFailure env (nextTerm h0) (addonList p) = Some (pre, a, e) ->
  mountOrUnmount env d p h0
  = mkOut (ENew (nextTerm h0) (options p)
           :: map (ELoadAddon (nextTerm h0)) (pre ++ [a]))
          (mkHeap None None (S (nextTerm h0)) (nextBinding h0))
          (Throw e).
Proof.
  intros F. unfold mountOrUnmount.
  erewrite bind_known by reflexivity. rewrite prepend_nil.
  erewrite bind_known by reflexivity. rewrite prepend_nil.
  erewrite bind_known by apply Xterm_decls. rewrite prepend_nil.
  erewrite bind_known by reflexivity. rewrite prepend_nil.
  cbn [divRef xtermRef nextTerm nextBinding].
  set (h1 := mkHeap (Some d) None (nextTerm h0) (nextBinding h0)).
  assert (F1 : firstFailure env (nextTerm h1) (addonList p) = Some (pre, a, e))
    by exact F.
  pose proof (terminalEffect_throw env p h1 d pre a e eq_refl F1) as T.
  unfold try_catch.
  cbn [commitMount eff_create eff_deps heldAfterMount].
  rewrite (bind_thrown _ _ _ _ _ _ _ _ T), T.
  cbn [out_res out_trace out_heap].
  unfold unmount.
  erewrite bind_known.
  2:{ erewrite bind_known by reflexivity. rewrite prepend_nil.
      apply commitUnmountAll_idle.
      apply Forall_forall. intros x Hx. apply in_map_iff in Hx.
      destruct Hx as (dcl & <- & _). reflexivity. }
  unfold throw, prepend. subst h1.
  cbn [out_trace out_heap out_res divRef xtermRef nextTerm nextBinding].
  rewrite !app_nil_r. reflexivity.
Qed.

Lemma slotUnsub_slotKept s v :
  slotUnsub s v ++ slotKept s v = closeCall (sl_binding s).
Proof.
  unfold slotUnsub, slotKept. destruct (JsVal_eq_dec v (sl_handler s)).
  - reflexivity.
  - apply app_nil_r.
Qed.

Lemma isDisposal_slotsKept slots hn : forall evs,
  Forall isDisposal (slotsKept slots hn evs).
Proof.
  induction slots as [|s slots IH]; intros [|ev evs]; cbn [slotsKept];
    try constructor.
  apply Forall_app. split; [|apply IH].
  unfold slotKept. destruct (JsVal_eq_dec _ _);
    [apply isDisposal_closeCall|constructor].
Qed.

Lemma isDisposal_subscribed t : Forall isDisposal t -> subscribed t = [].
Proof.
  induction 1 as [|e t (b & ->) F IH]; [reflexivity|exact IH].
Qed.

Lemma isDisposal_notDisposed x t : Forall isDisposal t -> ~ In (EDispose x) t.
Proof.
  intros F Hin. rewrite Forall_forall in F.
  destruct (F _ Hin) as (b & E). discriminate.
Qed.

Lemma bindingCalls_slotKept nb hn0 s e ev v :
  slotOk nb hn0 s e ->
  bindingCalls ev (slotKept s v)
  = if EventName_eq_dec e ev then slotKept s v else [].
Proof.
  intros H. unfold slotKept.
  destruct (JsVal_eq_dec v (sl_handler s)).
  - apply (bindingCalls_closeCall ev e (sl_binding s)).
    intros b. now apply slotOk_event with (nb := nb) (hn := hn0).
  - destruct (EventName_eq_dec e ev); reflexivity.
Qed.

Lemma bindingCalls_slotsKept_other nb hn0 hn slots evs ev :
  Forall2 (slotOk nb hn0) slots evs -> ~ In ev evs ->
  bindingCalls ev (slotsKept slots hn evs) = [].
Proof.
  induction 1 as [|s e slots evs H F IH]; simpl; intros N; [reflexivity|].
  rewrite bindingCalls_app, (bindingCalls_slotKept nb hn0 s e ev _ H).
  destruct (EventName_eq_dec e ev) as [->|_]; [tauto|].
  apply IH. tauto.
Qed.

Lemma bindingCalls_slotsKept nb hn0 hn slots evs ev :
  NoDup evs -> Forall2 (slotOk nb hn0) slots evs -> In ev evs ->
  bindingCalls ev (slotsKept slots hn evs)
  = slotKept (slotOf ev slots evs) (hn ev).
Proof.
  intros ND F. induction F as [|s e slots evs H F IH]; simpl; [tauto|].
  inversion ND as [|? ? Nin ND']; subst. intros I.
  rewrite bindingCalls_app, (bindingCalls_slotKept nb hn0 s e ev _ H).
  destruct (EventName_eq_dec e ev) as [->|Ne].
  - rewrite (bindingCalls_slotsKept_other nb hn0 hn slots evs ev F Nin).
    apply app_nil_r.
  - destruct I as [->|I]; [contradiction|]. exact (IH ND' I).
Qed.

Lemma quiet_newLoads x o l : quiet (ENew x o :: map (ELoadAddon x) l).
Proof. constructor; [reflexivity|apply quiet_loads]. Qed.

(** A failed re-construction and the unmount that follows, from any state of
    a mounted adapter. *)
Lemma failed_update_aftermath env d c l s h tr p pre a e :
  Inv d c l s h tr ->
  options p <> options l ->
  firstFailure env (nextTerm h) (addonList p) = Some (pre, a, e) ->
  out_res (updateOrUnmount env p (fiberOf env s) h) = Throw e /\
  exists late,
    out_trace (updateOrUnmount env p (fiberOf env s) h)
    = out_trace (update env p (fiberOf env s) h) ++ late /\
    Forall isDisposal late /\
    (forall ev, exists bs,
       bindingCalls ev
         (tr ++ out_trace (updateOrUnmount env p (fiberOf env s) h))
       = pairs bs /\ NoDup (map b_id bs)) /\
    ~ In (EDispose (nextTerm h))
         (tr ++ out_trace (updateOrUnmount env p (fiberOf env s) h)).
Proof.
  intros [D X O C OD B Fr Kn Lv At] Q F.
  pose proof (Forall2_length (binv_slots _ _ _ _ B)) as L.
  assert (Q' : options p <> sh_options s) by (rewrite O; exact Q).
  rewrite (updateOrUnmount_throw env p s h d pre a e D X L Q' F).
  rewrite (update_recreate_throw env p s h d pre a e D X L Q' F).
  cbn [out_res out_trace].
  split; [reflexivity|].
  exists (slotsKept (sh_slots s) (handlerOf p) eventNames).
  split; [rewrite <- !app_assoc; reflexivity|].
  split; [apply isDisposal_slotsKept|]. split.
  - intros ev. destruct (binv_calls _ _ _ _ B ev) as (closed & Hc).
    assert (Hcalls :
      bindingCalls ev
        (tr ++ teardownCalls env (sh_onDispose s) (sh_term s)
            ++ slotsUnsub (sh_slots s) (handlerOf p) eventNames
            ++ (ENew (nextTerm h) (options p)
                :: map (ELoadAddon (nextTerm h)) (pre ++ [a]))
            ++ slotsKept (sh_slots s) (handlerOf p) eventNames)
      = pairs closed
        ++ openCall (sl_binding (slotOf ev (sh_slots s) eventNames))
        ++ closeCall (sl_binding (slotOf ev (sh_slots s) eventNames))).
    { rewrite !bindingCalls_app, Hc.
      rewrite (quiet_bindingCalls ev _ (quiet_teardownCalls _ _ _)).
      rewrite (quiet_bindingCalls ev _ (quiet_newLoads _ _ _)).
      rewrite (bindingCalls_slotsUnsub _ _ _ _ eventNames ev NoDup_eventNames
                 (binv_slots _ _ _ _ B) (in_eventNames ev)).
      rewrite (bindingCalls_slotsKept _ _ _ _ eventNames ev NoDup_eventNames
                 (binv_slots _ _ _ _ B) (in_eventNames ev)).
      cbn [app]. rewrite <- slotUnsub_slotKept with (v := handlerOf p ev).
      rewrite <- !app_assoc. reflexivity. }
    assert (Hex : exists bs,
      bindingCalls ev
        (tr ++ teardownCalls env (sh_onDispose s) (sh_term s)
            ++ slotsUnsub (sh_slots s) (handlerOf p) eventNames
            ++ (ENew (nextTerm h) (options p)
                :: map (ELoadAddon (nextTerm h)) (pre ++ [a]))
            ++ slotsKept (sh_slots s) (handlerOf p) eventNames) = pairs bs).
    { rewrite Hcalls.
      destruct (sl_binding (slotOf ev (sh_slots s) eventNames)) as [b|].
      - exists (closed ++ [b]). now rewrite pairs_snoc.
      - exists closed. simpl. now rewrite app_nil_r. }
    destruct Hex as (bs & Hbs). exists bs. split; [exact Hbs|].
    rewrite <- (subscribed_pairs bs), <- Hbs, subscribed_bindingCalls.
    apply NoDup_map_filter.
    rewrite !subscribed_app.
    rewrite (quiet_subscribed _ (quiet_teardownCalls _ _ _)).
    rewrite subscribed_slotsUnsub.
    rewrite (quiet_subscribed _ (quiet_newLoads _ _ _)).
    rewrite (isDisposal_subscribed _ (isDisposal_slotsKept _ _ _)).
    rewrite !app_nil_r.
    apply (binv_nodup _ _ _ _ B).
  - apply not_in_app; [exact (notDisposed_fresh _ _ Kn)|].
    apply not_in_app;
      [apply notDisposed_teardownCalls; intros E; rewrite E in Fr;
       exact (Nat.lt_irrefl _ Fr)|].
    apply not_in_app;
      [exact (isDisposal_notDisposed _ _ (isDisposal_slotsUnsub _ _ _))|].
    apply not_in_app;
      [|exact (isDisposal_notDisposed _ _ (isDisposal_slotsKept _ _ _))].
    intros [Hin|Hin]; [discriminate|].
    apply in_map_iff in Hin. destruct Hin as (b & Hb & _). discriminate.
Qed.

Lemma mountOrUnmount_ok env d p h f' :
  out_res (mount env d p h) = Ok f' ->
  mountOrUnmount env d p h = mount env d p h.
Proof.
  unfold mount, mountOrUnmount, bind, try_catch.
  cbn [setDivRef setXtermRef out_res out_trace out_heap prepend app].
  destruct (Xterm env p _) as [t0 h0 [ds|e0]]; cbn [out_res out_trace out_heap];
    [|discriminate].
  destruct (commitMount ds _) as [t2 h2 [f2|e2]];
    cbn [out_res out_trace out_heap prepend]; [reflexivity|discriminate].
Qed.

(** X12: what follows an addon failure.  When the effect pass throws, React
    unmounts the tree and runs the cleanups it still holds.  After a failed
    first commit it holds none: no call follows the failing load, and the
    terminal just constructed is neither opened nor disposed.  After a failed
    re-construction the calls that follow the failing load are disposals of
    event bindings and nothing else, those of the [useBind] effects the
    render left unchanged; every binding created during the life has then
    been disposed exactly once, the new terminal is not disposed, and the
    error reaches the host.  A commit that completes is the commit of the
    model unchanged. *)
Theorem X12_failed_commit_then_unmount env d :
  (forall p h f',
     out_res (mount env d p h) = Ok f' ->
     mountOrUnmount env d p h = mount env d p h) /\
  (forall p f h f',
     out_res (update env p f h) = Ok f' ->
     updateOrUnmount env p f h = update env p f h) /\
  (forall p h0 pre a post e,
     addons p = Some (pre ++ a :: post) ->
     (forall b, In b pre -> load_throws env (nextTerm h0) b = None) ->
     load_throws env (nextTerm h0) a = Some e ->
     mountOrUnmount env d p h0
     = mkOut (ENew (nextTerm h0) (options p)
              :: map (ELoadAddon (nextTerm h0)) (pre ++ [a]))
             (mkHeap None None (S (nextTerm h0)) (nextBinding h0))
             (Throw e)) /\
  (forall p0 ps h0 f p pre a post e,
     out_res (mounted env d p0 ps h0) = Ok f ->
     options p <> options (last ps p0) ->
     addons p = Some (pre ++ a :: post) ->
     (forall b, In b pre ->
        load_throws env (nextTerm (out_heap (mounted env d p0 ps h0))) b = None) ->
     load_throws env (nextTerm (out_heap (mounted env d p0 ps h0))) a = Some e ->
     out_res (updateOrUnmount env p f (out_heap (mounted env d p0 ps h0)))
     = Throw e /\
     exists late,
       out_trace (updateOrUnmount env p f (out_heap (mounted env d p0 ps h0)))
       = out_trace (update env p f (out_heap (mounted env d p0 ps h0))) ++ late /\
       Forall isDisposal late /\
       (forall ev, exists bs,
          bindingCalls ev
            (out_trace (mounted env d p0 ps h0)
             ++ out_trace (updateOrUnmount env p f
                             (out_heap (mounted env d p0 ps h0))))
          = pairs bs /\ NoDup (map b_id bs)) /\
       ~ In (EDispose (nextTerm (out_heap (mounted env d p0 ps h0))))
            (out_trace (mounted env d p0 ps h0)
             ++ out_trace (updateOrUnmount env p f
                             (out_heap (mounted env d p0 ps h0))))).
Proof.
  split; [exact (mountOrUnmount_ok env d)|].
  split; [exact (updateOrUnmount_ok env)|]. split.
  - intros p h0 pre a post e A Hpre Ha.
    apply mountOrUnmount_throw. unfold addonList. rewrite A.
    now apply firstFailure_intro.
  - intros p0 ps h0 f p pre a post e R Np A Hpre Ha.
    destruct (mounted_inv env d p0 ps h0 f R) as (s & -> & I).
    assert (F : firstFailure env (nextTerm (out_heap (mounted env d p0 ps h0)))
                  (addonList p) = Some (pre, a, e)).
    { unfold addonList. rewrite A. now apply firstFailure_intro. }
    exact (failed_update_aftermath env d _ _ s _ _ p pre a e I Np F).
Qed.

(** The echo example, re-rendered with new [options] and the addons
    [10; 11; 12] of which [11] fails: the [onData] binding of the old terminal
    is disposed after the failing load, terminal [1] is not. *)
Lemma X12_witness :
  exists f,
    out_res (mounted failingAddon 0 echoProps [] heap0) = Ok f /\
    out_res (updateOrUnmount failingAddon
               (withOptions (Some 7)
                  (withAddons (Some ([10] ++ 11 :: [12])) echoProps)) f
               (out_heap (mounted failingAddon 0 echoProps [] heap0)))
    = Throw 5 /\
    out_trace (updateOrUnmount failingAddon
                 (withOptions (Some 7)
                    (withAddons (Some ([10] ++ 11 :: [12])) echoProps)) f
                 (out_heap (mounted failingAddon 0 echoProps [] heap0)))
    = [EOnDispose 2 0; EDispose 0; ENew 1 (Some 7); ELoadAddon 1 10;
       ELoadAddon 1 11; EUnsubscribe (mkBinding 0 0 OnData 3)].
Proof.
  eexists. split; [vm_compute; reflexivity|].
  split; [|vm_compute; reflexivity].
  match goal with
  | |- out_res (updateOrUnmount _ _ ?f _) = _ =>
      destruct (X12_failed_commit_then_unmount failingAddon 0)
        as (_ & _ & _ & H);
      apply (H echoProps [] heap0 f
               (withOptions (Some 7)
                  (withAddons (Some ([10] ++ 11 :: [12])) echoProps))
               [10] 11 [12] 5)
  end.
  - vm_compute. reflexivity.
  - discriminate.
  - reflexivity.
  - intros b [<-|[]]. vm_compute. reflexivity.
  - vm_compute. reflexivity.
Defined.
